(** * MarkSix: ingestion, continuity audit, strategy scoring and review

    A shallow embedding of the core of the Mark Six predictor
    (src/lib/csv.ts, official-source.ts, data-source.ts, strategies.ts,
    prediction-service.ts and scripts/audit-history.ts) together with the
    properties its design document states about it.

    Conventions of the embedding.
    - A JS string is a [string] holding the text in UTF-8.  The texts whose
      length or characters the program inspects are ASCII, where bytes and
      code units coincide; white space is ASCII white space.
    - The numbers the program converts from text are draw numbers, issue
      sequences and years.  Such a number ([jsnum]) is [NaN], an integer of
      magnitude at most 2^53, where doubles are exact, or another number: a
      fraction, an infinity or a larger integer.  The arithmetic of integers
      up to 2^53 is written out; that of the other numbers is a field of
      [Host].
    - Scores are finite doubles in the program; every finite double is a
      rational and the embedding computes with [Q].  Comparison, sorting and
      [toFixed] are then exact; sums, products and quotients are the exact
      ones instead of the rounded ones.
    - Whatever the program obtains from its host (the network, the file
      system, the clock, [Date], [JSON.parse], the CSV library) is a field of
      [Host] or of [World]. *)

From Stdlib Require Import ZArith QArith Qround Qminmax Qabs List String Ascii Lia Bool.
From Stdlib Require Import DecimalString Permutation Sorted Lqa.
From stdpp Require Import base option list sorting gmap strings.
Import ListNotations.

Set Warnings "-register-all".
Local Open Scope string_scope.
Local Open Scope list_scope.
Local Open Scope Z_scope.

(** ** JavaScript values and built-ins *)

Module Js.

(** A number.  [Int z] is an integer of magnitude at most 2^53, which a
    double holds exactly; [Other shown] is any other number, a fraction, an
    infinity or an integer beyond 2^53, named by the text [String] prints
    for it. *)
Inductive jsnum : Set :=
| NaN
| Int (z : Z)
| Other (shown : string).

#[export] Instance jsnum_eq_dec : EqDecision jsnum.
Proof. solve_decision. Defined.

(** The largest integer up to which every integer is a double. *)
Definition MAX_EXACT : Z := 2 ^ 53.

Definition isNaN (n : jsnum) : bool :=
  match n with NaN => true | _ => false end.

(** [Number.isInteger(n) && n >= lo && n <= hi] for bounds within 2^53,
    yielding the integer: another number is a fraction, an infinity or
    beyond the bounds. *)
Definition integerIn (lo hi : Z) (n : jsnum) : option Z :=
  match n with
  | Int z => if (lo <=? z) && (z <=? hi) then Some z else None
  | _ => None
  end.

Definition isDigit (c : ascii) : bool :=
  let n := nat_of_ascii c in ((48 <=? n) && (n <=? 57))%nat.

(** ASCII white space: TAB, LF, VT, FF, CR and SP. *)
Definition isSpace (c : ascii) : bool :=
  let n := nat_of_ascii c in (((9 <=? n) && (n <=? 13)) || (n =? 32))%nat.

Fixpoint allDigits (s : string) : bool :=
  match s with
  | EmptyString => true
  | String c r => isDigit c && allDigits r
  end.

Fixpoint allSpaces (s : string) : bool :=
  match s with
  | EmptyString => true
  | String c r => isSpace c && allSpaces r
  end.

Fixpoint trimStart (s : string) : string :=
  match s with
  | String c r => if isSpace c then trimStart r else s
  | EmptyString => EmptyString
  end.

Fixpoint trimEnd (s : string) : string :=
  match s with
  | String c r => if allSpaces s then EmptyString else String c (trimEnd r)
  | EmptyString => EmptyString
  end.

Definition trim (s : string) : string := trimEnd (trimStart s).

(** [s.split(sep)] for a separator of one character. *)
Fixpoint split (sep : ascii) (s : string) : list string :=
  match s with
  | EmptyString => [EmptyString]
  | String c r =>
      if Ascii.eqb c sep then EmptyString :: split sep r
      else match split sep r with
           | w :: ws => String c w :: ws
           | [] => [String c EmptyString]
           end
  end.

Fixpoint join (sep : string) (l : list string) : string :=
  match l with
  | [] => ""
  | [x] => x
  | x :: r => x +:+ sep +:+ join sep r
  end.

Fixpoint repeatChar (c : ascii) (n : nat) : string :=
  match n with
  | O => EmptyString
  | S k => String c (repeatChar c k)
  end.

(** [s.padStart(width, fill)] for a filler of one character. *)
Definition padStart (width : nat) (fill : ascii) (s : string) : string :=
  repeatChar fill (width - String.length s) +:+ s.

Definition digitValue (c : ascii) : N := N.of_nat (nat_of_ascii c - 48).

Fixpoint decimalFrom (acc : N) (s : string) : N :=
  match s with
  | EmptyString => acc
  | String c r => decimalFrom (10 * acc + digitValue c)%N r
  end.

(** The value of a string of decimal digits. *)
Definition decimalValue (s : string) : N := decimalFrom 0%N s.

(** [String(z)] of an integer. *)
Definition String_of_Z (z : Z) : string :=
  NilZero.string_of_int (Z.to_int z).

Definition String_of_nat (n : nat) : string := String_of_Z (Z.of_nat n).

(** [text.toLowerCase()] on ASCII letters. *)
Definition lowerChar (c : ascii) : ascii :=
  let n := nat_of_ascii c in
  if ((65 <=? n) && (n <=? 90))%nat then ascii_of_nat (n + 32) else c.

Fixpoint toLowerCase (s : string) : string :=
  match s with
  | EmptyString => EmptyString
  | String c r => String (lowerChar c) (toLowerCase r)
  end.

Fixpoint endsWith (s suffix : string) : bool :=
  if String.eqb s suffix then true
  else match s with
       | EmptyString => false
       | String _ r => endsWith r suffix
       end.

(** A thrown [Error(message)] or a returned value. *)
Inductive result (A : Type) : Type :=
| Ok (a : A)
| Throw (message : string).
Arguments Ok {A} a.
Arguments Throw {A} message.

#[export] Instance result_ret : MRet result := fun A a => Ok a.
#[export] Instance result_bind : MBind result := fun A B k r =>
  match r with
  | Ok a => k a
  | Throw m => Throw m
  end.

End Js.
Import Js.

(** An insertion-ordered [Map], as [Map.prototype.get] and [set] use it. *)
Module JsMap.
Section Ops.
Context {K V : Type} `{EqDecision K}.

Fixpoint get (k : K) (m : list (K * V)) : option V :=
  match m with
  | [] => None
  | (k', v) :: r => if decide (k' = k) then Some v else get k r
  end.

Fixpoint set (k : K) (v : V) (m : list (K * V)) : list (K * V) :=
  match m with
  | [] => [(k, v)]
  | (k', v') :: r =>
      if decide (k' = k) then (k, v) :: r else (k', v') :: set k v r
  end.

Definition keys (m : list (K * V)) : list K := map fst m.
Definition values (m : list (K * V)) : list V := map snd m.
End Ops.
End JsMap.

(** [Array.prototype.sort(compare)]: a stable sort.  [compare a b] is the
    sign of the comparator: [Lt] puts [a] first, [Gt] puts [b] first. *)
Module JsSort.
Section Sort.
Context {A : Type} (compare : A -> A -> comparison).

Fixpoint insert (x : A) (l : list A) : list A :=
  match l with
  | [] => [x]
  | y :: r =>
      match compare x y with
      | Gt => y :: insert x r
      | _ => x :: y :: r
      end
  end.

Definition sort (l : list A) : list A := fold_right insert [] l.
End Sort.
End JsSort.

(** A JSON value.  A JSON number is kept as the text [String(n)] prints for
    it: the program only ever reads a field through a template literal. *)
Inductive json : Type :=
| JNull
| JBool (b : bool)
| JNum (shown : string)
| JStr (s : string)
| JArr (items : list json)
| JObj (fields : list (string * json)).

(** A row of the CSV library: column header to cell text, in file order. *)
Definition Row : Type := list (string * string).

(** What the program takes from its runtime. *)
Class Host : Type := {
  (** [Number(text)] of a text that is not white space around the decimal
      digits of an integer up to 2^53 *)
  NumberOther : string -> jsnum;
  (** [x + 1] for the other number [x] that [String] prints as the text *)
  plusOneOther : string -> jsnum;
  (** [a < b] when one of the two is another number and none is [NaN] *)
  lessOther : jsnum -> jsnum -> bool;
  (** [new Date(text).getTime()]; [None] is an invalid date *)
  DateOf : string -> option Z;
  (** [DateUTC yyyy mm dd]: the time of
      [new Date(Date.UTC(yyyy, mm - 1, dd, 12, 0, 0))] *)
  DateUTC : Z -> Z -> Z -> option Z;
  (** [JSON.parse(text)] *)
  JSON_parse : string -> result json;
  (** [parse(csvRaw, { columns: true, skip_empty_lines: true, trim: true })] *)
  csv_parse : string -> result (list Row);
  (** the sign of [a.localeCompare(b)] *)
  localeCompare : string -> string -> comparison;
}.

(** [Number(text)]: optional white space around the decimal digits of an
    integer up to 2^53 is read as that integer (the empty text as 0); any
    other text is the host's. *)
Definition Number `{Host} (text : string) : jsnum :=
  let t := trim text in
  if allDigits t && (Z.of_N (decimalValue t) <=? MAX_EXACT)
  then Int (Z.of_N (decimalValue t))
  else NumberOther text.

(** [Number(v)] of a value that may be [undefined]. *)
Definition NumberU `{Host} (v : option string) : jsnum :=
  match v with
  | Some text => Number text
  | None => NaN
  end.

(** [n + 1]: exact below 2^53, where the double after 2^53 is 2^53 + 2 and
    the sum is rounded back to 2^53. *)
Definition plusOne `{Host} (n : jsnum) : jsnum :=
  match n with
  | NaN => NaN
  | Int z => if z <? MAX_EXACT then Int (z + 1) else Int z
  | Other shown => plusOneOther shown
  end.

(** [String(n)]. *)
Definition String_of_number (n : jsnum) : string :=
  match n with
  | NaN => "NaN"
  | Int z => String_of_Z z
  | Other shown => shown
  end.

(** [a < b]. *)
Definition lessThan `{Host} (a b : jsnum) : bool :=
  match a, b with
  | NaN, _ | _, NaN => false
  | Int x, Int y => x <? y
  | _, _ => lessOther a b
  end.

(** [a <= b]: for two numbers, that [b < a] fails. *)
Definition lessEq `{Host} (a b : jsnum) : bool :=
  match a, b with
  | NaN, _ | _, NaN => false
  | _, _ => negb (lessThan b a)
  end.

(** The sign of [a - b] as a sort callback reads it: a difference that is
    [NaN] counts as 0. *)
Definition numCompare `{Host} (a b : jsnum) : comparison :=
  if lessThan a b then Lt else if lessThan b a then Gt else Eq.

(** ** IssueSequencer (prediction-service.ts) *)

Module PredictionIssue.
Section WithHost.
Context `{Host}.

Definition nextIssueNo (issueNo : string) : string :=
  let parts := split "/" issueNo in
  let year := hd "" parts in
  let no := nth_error parts 1 in
  let seq := NumberU no in
  if String.eqb year "" || isNaN seq then issueNo
  else year +:+ "/" +:+
       padStart (String.length (default "" no)) "0"
                (String_of_number (plusOne seq)).
End WithHost.
End PredictionIssue.

(** ** ContinuityAuditor (scripts/audit-history.ts) *)

(** A row of the [Draw] table; [numbersJson] is held decoded. *)
Record Draw : Type := {
  draw_id : Z;
  issueNo : string;
  drawDate : Z;
  numbersJson : list Z;
  specialNumber : Z;
  source : string;
}.

Module Audit.
Section WithHost.
Context `{Host}.

Definition parseIssue (issueNo : string) : option (string * jsnum) :=
  let parts := split "/" issueNo in
  let year := hd "" parts in
  let seqText := nth_error parts 1 in
  let seq := NumberU seqText in
  if String.eqb year "" || isNaN seq then None else Some (year, seq).

Fixpoint checkEach (seen : gset Z) (numbers : list Z) : list string :=
  match numbers with
  | [] => []
  | n :: r =>
      (if (n <? 1) || (49 <? n)
       then ["number out of range: " +:+ String_of_Z n] else [])
      ++ (if bool_decide (n ∈ seen)
          then ["duplicate number in draw: " +:+ String_of_Z n] else [])
      ++ checkEach ({[n]} ∪ seen) r
  end.

Definition checkNumbers (numbers : list Z) : list string :=
  (if negb (length numbers =? 6)%nat then ["main numbers count != 6"] else [])
  ++ checkEach ∅ numbers.

(** The mutable locals of [run]'s first loop. *)
Record Scan : Type := {
  problems : list string;
  byYear : list (string * list jsnum);
  lastTime : Z;
}.

Definition scanStart : Scan :=
  {| problems := []; byYear := []; lastTime := 0 |}.

Definition includes (x : Z) (l : list Z) : bool := existsb (Z.eqb x) l.

(** [numberProblems] once both checks on the special number ran. *)
Definition numberProblemsOf (d : Draw) : list string :=
  let numbers := numbersJson d in
  checkNumbers numbers
  ++ (if (specialNumber d <? 1) || (49 <? specialNumber d)
      then ["special number out of range: "
            +:+ String_of_Z (specialNumber d)] else [])
  ++ (if includes (specialNumber d) numbers
      then ["special number repeated in main numbers"] else []).

(** One iteration of [for (const d of draws)]. *)
Definition scanDraw (st : Scan) (d : Draw) : Scan :=
  match parseIssue (issueNo d) with
  | None =>
      {| problems := problems st ++ [issueNo d +:+ ": invalid issue format"];
         byYear := byYear st;
         lastTime := lastTime st |}
  | Some (year, seq) =>
      let numberProblems := numberProblemsOf d in
      let p1 :=
        if (0 <? length numberProblems)%nat
        then [issueNo d +:+ ": " +:+ join "; " numberProblems] else [] in
      let t := drawDate d in
      let p2 :=
        if t <? lastTime st
        then [issueNo d +:+ ": drawDate is not non-decreasing"] else [] in
      let list := default [] (JsMap.get year (byYear st)) in
      {| problems := problems st ++ p1 ++ p2;
         byYear := JsMap.set year (list ++ [seq]) (byYear st);
         lastTime := Z.max (lastTime st) t |}
  end.

Definition scanDraws (st : Scan) (draws : list Draw) : Scan :=
  fold_left scanDraw draws st.

(** [[...new Set(seqList)]]: first occurrences, in order. *)
Fixpoint uniq (l : list jsnum) : list jsnum :=
  match l with
  | [] => []
  | x :: r => x :: filter (fun y => y <> x) (uniq r)
  end.

(** The loop [for (let i = min; i <= max; i += 1)] from [i] on: the numbers
    it pushes, or [None] when it has not ended after [fuel] rounds. *)
Fixpoint missingFrom (fuel : nat) (i max : jsnum) (seqSet : list jsnum)
    : option (list jsnum) :=
  match fuel with
  | O => None
  | S rounds =>
      if lessEq i max
      then rest ← missingFrom rounds (plusOne i) max seqSet;
           Some (if bool_decide (i ∈ seqSet) then rest else i :: rest)
      else Some []
  end.

(** [missing] after the loop. *)
Definition missingOf (fuel : nat) (seqList : list jsnum)
    : option (list jsnum) :=
  let sorted := JsSort.sort numCompare (uniq seqList) in
  match head sorted, last sorted with
  | Some min, Some max => missingFrom fuel min max sorted
  | _, _ => Some []
  end.

(** One iteration of the loop over the years. *)
Definition yearProblem (fuel : nat) (entry : string * list jsnum)
    : option (list string) :=
  let '(year, seqList) := entry in
  missing ← missingOf fuel seqList;
  Some (if (0 <? length missing)%nat
        then [year +:+ ": missing issue seq count="
              +:+ String_of_nat (length missing) +:+ " sample="
              +:+ join "," (map String_of_number (take 10 missing))]
        else []).

Definition sortedYears (m : list (string * list jsnum))
    : list (string * list jsnum) :=
  JsSort.sort (fun a b => localeCompare (fst a) (fst b)) m.

(** The problems the loop over the years pushes. *)
Fixpoint yearProblems (fuel : nat) (years : list (string * list jsnum))
    : option (list string) :=
  match years with
  | [] => Some []
  | entry :: rest =>
      found ← yearProblem fuel entry;
      others ← yearProblems fuel rest;
      Some (found ++ others)
  end.

(** The problems [run] has collected when it starts printing, each loop
    over a year's range being given [fuel] rounds. *)
Definition auditProblems (fuel : nat) (draws : list Draw)
    : option (list string) :=
  let st := scanDraws scanStart draws in
  found ← yearProblems fuel (sortedYears (byYear st));
  Some (problems st ++ found).

(** What [run] prints and the exit code it sets. *)
Record Report : Type := {
  lines : list string;
  exitCode : option Z;
}.

Definition report (total : nat) (found : list string) : Report :=
  let summary := "Audit summary: total_draws=" +:+ String_of_nat total in
  if (length found =? 0)%nat
  then {| lines := [summary; "Audit passed: no problems found."];
          exitCode := None |}
  else
    {| lines :=
         [summary;
          "Audit found " +:+ String_of_nat (length found) +:+ " problem(s):"]
         ++ map (fun p => "- " +:+ p) (take 200 found)
         ++ (if (200 <? length found)%nat
             then ["... truncated " +:+ String_of_nat (length found - 200)
                   +:+ " more problem(s)"]
             else []);
       exitCode := Some 2 |}.

Definition run (fuel : nat) (draws : list Draw) : option Report :=
  if (length draws =? 0)%nat
  then Some {| lines := ["No draw records found."]; exitCode := None |}
  else found ← auditProblems fuel draws;
       Some (report (length draws) found).
End WithHost.
End Audit.

(** ** StrategyEngine (strategies.ts) *)

Inductive StrategyId : Set :=
| balanced_v1
| hot_v1
| cold_rebound_v1
| momentum_v1.

Record Pick : Type := {
  number : Z;
  rank : Z;
  score : Q;
  reason : string;
}.

Record StrategyResult : Type := {
  strategy : StrategyId;
  strategyVersion : string;
  picks : list Pick;
}.

Module Strategies.

(** A [Map<number, number>]. *)
Abbreviation NumberMap := (list (Z * Q)).

Definition ALL_NUMBERS : list Z := seqZ 1 49.

Definition decodeNumbers (draw : Draw) : list Z := numbersJson draw.

Definition Qltb (a b : Q) : bool := negb (Qle_bool b a).

(** The loops over [draws]; [idx] is the index of the first draw. *)
Fixpoint omissionLoop (idx : Z) (draws : list Draw) (omission : NumberMap)
    : NumberMap :=
  match draws with
  | [] => omission
  | draw :: rest =>
      omissionLoop (idx + 1) rest
        (fold_left
           (fun om n =>
              if Qltb (inject_Z (idx + 1)) (default 9999%Q (JsMap.get n om))
              then JsMap.set n (inject_Z (idx + 1)) om else om)
           (decodeNumbers draw) omission)
  end.

Definition omissionMap (draws : list Draw) : NumberMap :=
  omissionLoop 0
    draws (map (fun n => (n, inject_Z (Z.of_nat (length draws) + 1))) ALL_NUMBERS).

Definition frequencyMap (draws : list Draw) : NumberMap :=
  fold_left
    (fun freq draw =>
       fold_left
         (fun fr n => JsMap.set n (default 0%Q (JsMap.get n fr) + 1)%Q fr)
         (decodeNumbers draw) freq)
    draws (map (fun n => (n, 0%Q)) ALL_NUMBERS).

Fixpoint weightedLoop (i : Z) (draws : list Draw) (weighted : NumberMap)
    : NumberMap :=
  match draws with
  | [] => weighted
  | draw :: rest =>
      let weight := (1 / (1 + inject_Z i))%Q in
      weightedLoop (i + 1) rest
        (fold_left
           (fun w n => JsMap.set n (default 0%Q (JsMap.get n w) + weight)%Q w)
           (decodeNumbers draw) weighted)
  end.

Definition weightedRecencyMap (draws : list Draw) : NumberMap :=
  weightedLoop 0 draws (map (fun n => (n, 0%Q)) ALL_NUMBERS).

(** [Math.min(...values)] and [Math.max(...values)] of a non-empty array. *)
Definition minOf (v : Q) (vs : list Q) : Q := fold_left Qmin vs v.
Definition maxOf (v : Q) (vs : list Q) : Q := fold_left Qmax vs v.

(** [max - min || 1]. *)
Definition rangeOf (min max : Q) : Q :=
  if Qeq_bool (max - min) 0 then 1%Q else (max - min)%Q.

Definition normalize (m : NumberMap) : NumberMap :=
  match JsMap.values m with
  | [] => []
  | v :: vs =>
      let min := minOf v vs in
      let max := maxOf v vs in
      let range := rangeOf min max in
      map (fun '(k, v) => (k, ((v - min) / range)%Q)) m
  end.

Definition substring (from to : nat) (s : string) : string :=
  String.substring from (to - from) s.

(** [x.toFixed(fractionDigits)] for [fractionDigits > 0] and [x] below
    10^21 in magnitude. *)
Definition toFixed (fractionDigits : nat) (x : Q) : string :=
  let sign := if Qltb x 0 then "-" else "" in
  let n := Qfloor (Qabs x * inject_Z (10 ^ Z.of_nat fractionDigits) + (1 # 2))%Q in
  let m := padStart (fractionDigits + 1) "0" (String_of_Z n) in
  let k := String.length m in
  sign +:+ substring 0 (k - fractionDigits) m +:+ "."
       +:+ substring (k - fractionDigits) k m.

(** [n % 2 === 1]. *)
Definition isOdd (n : Z) : bool := Z.rem n 2 =? 1.

(** The test that makes the first loop [continue]. *)
Definition skips (selected : list (Z * Q)) (item : Z * Q) : bool :=
  let next := map fst (selected ++ [item]) in
  let oddCount := length (filter isOdd next) in
  (4 <=? length next)%nat
  && ((oddCount =? 0)%nat || (oddCount =? length next)%nat).

(** [for (const item of sorted)], from the items still to visit. *)
Fixpoint firstPass (sorted selected : list (Z * Q)) : list (Z * Q) :=
  match sorted with
  | [] => selected
  | item :: rest =>
      if (length selected =? 6)%nat then selected
      else if skips selected item then firstPass rest selected
      else firstPass rest (selected ++ [item])
  end.

Definition picked (selected : list (Z * Q)) (n : Z) : bool :=
  existsb (fun p => fst p =? n) selected.

(** [while (selected.length < 6)]; every turn adds one entry, so [turns]
    need not exceed 6. *)
Fixpoint fillPass (turns : nat) (sorted selected : list (Z * Q))
    : list (Z * Q) :=
  match turns with
  | O => selected
  | S turns' =>
      if (length selected <? 6)%nat then
        match find (fun e => negb (picked selected (fst e))) sorted with
        | Some fallback => fillPass turns' sorted (selected ++ [fallback])
        | None => selected
        end
      else selected
  end.

Definition byScoreDescending (a b : Z * Q) : comparison :=
  Qcompare (snd b) (snd a).

Definition sortedByScore (scores : NumberMap) : list (Z * Q) :=
  JsSort.sort byScoreDescending scores.

Definition selectSix (scores : NumberMap) : list (Z * Q) :=
  let sorted := sortedByScore scores in
  fillPass 6 sorted (firstPass sorted []).

Definition pickTopSix (scores : NumberMap) (reasonPrefix : string) : list Pick :=
  imap (fun index '(n, sc) =>
          {| number := n;
             rank := Z.of_nat index + 1;
             score := sc;
             reason := reasonPrefix +:+ " score=" +:+ toFixed 4 sc |})
       (selectSix scores).

Definition strategyName (strategy : StrategyId) : string :=
  match strategy with
  | balanced_v1 => "组合策略 v1（默认）"
  | hot_v1 => "热号策略 v1"
  | cold_rebound_v1 => "冷号回补 v1"
  | momentum_v1 => "近期动量 v1"
  end.

Definition strategyText (strategy : StrategyId) : string :=
  match strategy with
  | balanced_v1 => "balanced_v1"
  | hot_v1 => "hot_v1"
  | cold_rebound_v1 => "cold_rebound_v1"
  | momentum_v1 => "momentum_v1"
  end.

Definition window (recentDraws : list Draw) : list Draw := take 80 recentDraws.

(** The body of [for (const n of ALL_NUMBERS)]. *)
Definition compositeScore (strategy : StrategyId) (freq omission momentum : NumberMap)
    (n : Z) : Q :=
  let f := default 0%Q (JsMap.get n freq) in
  let o := default 0%Q (JsMap.get n omission) in
  let m := default 0%Q (JsMap.get n momentum) in
  match strategy with
  | hot_v1 => f * (8 # 10) + m * (2 # 10)
  | cold_rebound_v1 => o * (7 # 10) + m * (3 # 10)
  | momentum_v1 => m * (9 # 10) + f * (1 # 10)
  | balanced_v1 => f * (45 # 100) + o * (35 # 100) + m * (2 # 10)
  end%Q.

Definition composite (strategy : StrategyId) (recentDraws : list Draw) : NumberMap :=
  let w := window recentDraws in
  let freq := normalize (frequencyMap w) in
  let omission := normalize (omissionMap w) in
  let momentum := normalize (weightedRecencyMap w) in
  fold_left
    (fun c n => JsMap.set n (compositeScore strategy freq omission momentum n) c)
    ALL_NUMBERS [].

Definition generateStrategyResult (strategy : StrategyId) (recentDraws : list Draw)
    : StrategyResult :=
  {| strategy := strategy;
     strategyVersion := strategyText strategy;
     picks := pickTopSix (composite strategy recentDraws) (strategyName strategy) |}.

Definition allStrategies : list StrategyId :=
  [balanced_v1; hot_v1; cold_rebound_v1; momentum_v1].

End Strategies.

(** ** RecordNormalizer for delimited text (csv.ts) *)

(** [CsvDrawRecord] of types.ts. *)
Module CsvDrawRecord.
Record t : Type := {
  issueNo : string;
  drawDate : Z;
  numbers : list Z;
  specialNumber : Z;
}.
End CsvDrawRecord.

(** [records.sort((a, b) => a.drawDate.getTime() - b.drawDate.getTime())]. *)
Definition sortByDrawDate (records : list CsvDrawRecord.t) : list CsvDrawRecord.t :=
  JsSort.sort
    (fun a b => Z.compare (CsvDrawRecord.drawDate a) (CsvDrawRecord.drawDate b))
    records.

Module Csv.
Section WithHost.
Context `{Host}.

Definition ISSUE_KEYS : list string := ["期号"; "期數"].
Definition DATE_KEYS : list string := ["日期"].
Definition COMBINED_NUMBERS_KEYS : list string := ["中奖号码"; "中獎號碼"].
Definition SPECIAL_KEYS : list string := ["特别号码"; "特別號碼"].

Definition isBom (a b c : ascii) : bool :=
  (nat_of_ascii a =? 239)%nat && (nat_of_ascii b =? 187)%nat
  && (nat_of_ascii c =? 191)%nat.

(** [text.replace(/\uFEFF/g, "")], U+FEFF being EF BB BF in UTF-8. *)
Fixpoint removeBom (s : string) : string :=
  match s with
  | String a (String b (String c r) as t) =>
      if isBom a b c then removeBom r else String a (removeBom t)
  | String a t => String a (removeBom t)
  | EmptyString => EmptyString
  end.

Definition normalizeHeaderKey (key : string) : string :=
  trim (removeBom key).

(** [row[k]] of a row object. *)
Definition cell (row : Row) (k : string) : option string := JsMap.get k row.

(** [row[k] !== undefined && `${row[k]}`.trim() !== ""]. *)
Definition filled (row : Row) (k : string) : bool :=
  match cell row k with
  | Some v => negb (String.eqb (trim v) "")
  | None => false
  end.

Fixpoint pickValue (row : Row) (keys : list string) : option string :=
  match keys with
  | [] => None
  | k :: rest =>
      if filled row k then option_map trim (cell row k)
      else pickValue row rest
  end.

(** [.map((n) => Number(...)).filter((n) => Number.isInteger(n) && n >= 1
    && n <= 49)]. *)
Definition numbersIn (texts : list string) : list Z :=
  omap (fun text => integerIn 1 49 (Number (trim text))) texts.

Definition parseNumbers (value : string) : list Z :=
  numbersIn (split "," value).

Definition parseSplitNumberColumns (row : Row) : list Z :=
  match find (filled row) ["中奖号码 1"; "中獎號碼 1"; "1"] with
  | None => []
  | Some n1Key =>
      let keys := [n1Key; "2"; "3"; "4"; "5"; "6"] in
      if existsb (fun k => negb (filled row k)) keys then []
      else numbersIn (map (fun k => default "" (cell row k)) keys)
  end.

(** The object built by [row[normalizeHeaderKey(k)] = v]. *)
Definition normalizeRow (rawRow : Row) : Row :=
  fold_left (fun row '(k, v) => JsMap.set (normalizeHeaderKey k) v row)
            rawRow [].

(** The callback of [records.map], [None] for [null]. *)
Definition toRecord (rawRow : Row) : option CsvDrawRecord.t :=
  let row := normalizeRow rawRow in
  let issueNo := pickValue row ISSUE_KEYS in
  let drawDateText := pickValue row DATE_KEYS in
  let drawDate :=
    match drawDateText with
    | Some text => DateOf (text +:+ "T12:00:00Z")
    | None => None
    end in
  let numbers :=
    match pickValue row COMBINED_NUMBERS_KEYS with
    | Some combined => parseNumbers combined
    | None => parseSplitNumberColumns row
    end in
  let specialText := pickValue row SPECIAL_KEYS in
  let specialNumber := NumberU specialText in
  match issueNo, drawDate with
  | Some issue, Some date =>
      if negb (length numbers =? 6)%nat then None
      else match integerIn 1 49 specialNumber with
           | None => None
           | Some special =>
               Some {| CsvDrawRecord.issueNo := issue;
                       CsvDrawRecord.drawDate := date;
                       CsvDrawRecord.numbers := numbers;
                       CsvDrawRecord.specialNumber := special |}
           end
  | _, _ => None
  end.

Definition parseDrawCsv (csvRaw : string) : result (list CsvDrawRecord.t) :=
  records ← csv_parse csvRaw;
  mret (sortByDrawDate (omap toRecord records)).
End WithHost.
End Csv.

(** ** RecordNormalizer for the official JSON source (official-source.ts) *)

(** [value.toString()] as a template literal or [join] prints it. *)
Fixpoint textOf (v : json) : string :=
  match v with
  | JNull => "null"
  | JBool b => if b then "true" else "false"
  | JNum shown => shown
  | JStr s => s
  | JArr items =>
      join "," (map (fun item => match item with
                                 | JNull => ""
                                 | _ => textOf item
                                 end) items)
  | JObj _ => "[object Object]"
  end.

(** The network and the files, as far as the loaders look at them. *)
Record Response : Type := {
  ok : bool;
  status : Z;
  text : string;
}.

Record World : Type := {
  (** [process.env[name]] *)
  env : string -> option string;
  (** [await fetch(url, ...)], a rejection being a thrown error *)
  fetch : string -> result Response;
  (** [fs.readFileSync(path.resolve(process.cwd(), filePath), "utf8")] *)
  readLocalCsv : string -> result string;
}.

Module Official.
Section WithHost.
Context `{Host}.

(** A row object; an array has none of the properties read here. *)
Definition OfficialRow : Type := list (string * json).

(** [row.name]: the last of several equal keys of the JSON text. *)
Definition prop (row : OfficialRow) (name : string) : option json :=
  JsMap.get name (rev row).

(** [`${value ?? ""}`]. *)
Definition template (value : option json) : string :=
  match value with
  | None | Some JNull => ""
  | Some v => textOf v
  end.

Definition digitsOfLength (n : nat) (s : string) : bool :=
  (String.length s =? n)%nat && allDigits s.

(** [/^\d{4}-\d{2}-\d{2}$/.test(text)]. *)
Definition isIsoDate (text : string) : bool :=
  match split "-" text with
  | [y; m; d] => digitsOfLength 4 y && digitsOfLength 2 m && digitsOfLength 2 d
  | _ => false
  end.

(** [text.match(/^(\d{1,2})\/(\d{1,2})\/(\d{4})$/)]. *)
Definition matchDayMonthYear (text : string) : option (string * string * string) :=
  match split "/" text with
  | [d; m; y] =>
      if (digitsOfLength 1 d || digitsOfLength 2 d)
         && (digitsOfLength 1 m || digitsOfLength 2 m)
         && digitsOfLength 4 y
      then Some (d, m, y) else None
  | _ => None
  end.

Definition parseDate (input : option json) : option Z :=
  match input with
  | Some (JStr s) =>
      let text := trim s in
      if String.eqb text "" then None
      else if isIsoDate text then DateOf (text +:+ "T12:00:00Z")
      else match matchDayMonthYear text with
           | Some (d, m, y) =>
               DateUTC (Z.of_N (decimalValue y)) (Z.of_N (decimalValue m))
                       (Z.of_N (decimalValue d))
           | None => DateOf text
           end
  | _ => None
  end.

(** An integer beyond 2^53 is returned as it is by the program; both
    callers then drop it by their test of the range 1..49, as they drop
    [null]. *)
Definition toInt (value : option json) : option Z :=
  match Number (trim (template value)) with
  | Int n => Some n
  | _ => None
  end.

(** [text.split(/[^\d]+/).filter(Boolean)]: the maximal runs of digits.
    [run] is the run being read, reversed. *)
Fixpoint digitRunsFrom (run : list ascii) (s : string) : list string :=
  let close :=
    match run with
    | [] => []
    | _ => [string_of_list_ascii (rev run)]
    end in
  match s with
  | EmptyString => close
  | String c r =>
      if isDigit c then digitRunsFrom (c :: run) r
      else close ++ digitRunsFrom [] r
  end.

Definition inRange (n : Z) : option Z :=
  if (1 <=? n) && (n <=? 49) then Some n else None.

Definition parseNumberList (value : option json) : list Z :=
  let text := trim (template value) in
  if String.eqb text "" then []
  else omap (fun run => inRange (Z.of_N (decimalValue run)))
            (digitRunsFrom [] text).

(** [/^\d{2}\/\d{3}$/.test(text)]. *)
Definition isIssueNo (text : string) : bool :=
  match split "/" text with
  | [y; n] => digitsOfLength 2 y && digitsOfLength 3 n
  | _ => false
  end.

Definition extractIssueNo (row : OfficialRow) : option string :=
  find isIssueNo
       (map (fun name => trim (template (prop row name)))
            ["issueNo"; "drawNo"; "draw"; "issue"; "no"; "period"; "id"]).

Fixpoint firstSome {A B} (f : A -> option B) (l : list A) : option B :=
  match l with
  | [] => None
  | x :: r => match f x with
              | Some y => Some y
              | None => firstSome f r
              end
  end.

Definition extractDate (row : OfficialRow) : option Z :=
  firstSome (fun name => parseDate (prop row name))
            ["date"; "drawDate"; "draw_date"; "drawdate"; "dt"].

Definition extractNumbers (row : OfficialRow) : list Z :=
  let nFields :=
    omap (fun name => toInt (prop row name) ≫= inRange)
         ["n1"; "n2"; "n3"; "n4"; "n5"; "n6";
          "no1"; "no2"; "no3"; "no4"; "no5"; "no6"] in
  if (6 <=? length nFields)%nat then take 6 nFields
  else
    default []
      (firstSome (fun name =>
                    let nums := parseNumberList (prop row name) in
                    if (6 <=? length nums)%nat then Some (take 6 nums)
                    else None)
                 ["numbers"; "nos"; "no"; "result"; "main"]).

Definition extractSpecial (row : OfficialRow) : option Z :=
  match firstSome (fun name => toInt (prop row name) ≫= inRange)
                  ["specialNumber"; "special"; "sno"; "sn"; "bonus";
                   "extra"; "n7"; "no7"] with
  | Some n => Some n
  | None =>
      match find (fun arr => (7 <=? length arr)%nat)
                 (map (fun name => parseNumberList (prop row name))
                      ["result"; "no"; "numbers"]) with
      | Some resultLike => resultLike !! 6%nat
      | None => None
      end
  end.

(** [payload.filter((v) => typeof v === "object" && v !== null)]. *)
Definition rowObjects (items : list json) : list OfficialRow :=
  omap (fun v => match v with
                 | JObj fields => Some fields
                 | JArr _ => Some []
                 | _ => None
                 end) items.

Definition normalizeOfficialRows (payload : json) : list OfficialRow :=
  match payload with
  | JArr items => rowObjects items
  | JObj p =>
      default []
        (firstSome (fun name => match prop p name with
                                | Some (JArr items) => Some (rowObjects items)
                                | _ => None
                                end)
                   ["data"; "results"; "rows"; "items"; "draws"; "list"])
  | _ => []
  end.

(** The body of [for (const row of rows)]: the record pushed, if any. *)
Definition toRecord (row : OfficialRow) : option CsvDrawRecord.t :=
  match extractIssueNo row, extractDate row, extractSpecial row with
  | Some issue, Some date, Some special =>
      let numbers := extractNumbers row in
      if negb (length numbers =? 6)%nat then None
      else Some {| CsvDrawRecord.issueNo := issue;
                   CsvDrawRecord.drawDate := date;
                   CsvDrawRecord.numbers := numbers;
                   CsvDrawRecord.specialNumber := special |}
  | _, _, _ => None
  end.

(** [raw.replace(/^\uFEFF/, "")]. *)
Definition stripLeadingBom (raw : string) : string :=
  match raw with
  | String a (String b (String c r)) => if Csv.isBom a b c then r else raw
  | _ => raw
  end.

(** [value?.trim() || fallback]. *)
Definition trimmedOr (value : option string) (fallback : string) : string :=
  match value with
  | Some v => if String.eqb (trim v) "" then fallback else trim v
  | None => fallback
  end.

Definition loadOfficialRecords (w : World) : result (list CsvDrawRecord.t) :=
  let url := trimmedOr (env w "OFFICIAL_RESULT_URL")
               "https://bet.hkjc.com/contentserver/jcbw/cmc/last30draw.json" in
  response ← fetch w url;
  if negb (ok response)
  then Throw ("Failed to fetch OFFICIAL_RESULT_URL: "
              +:+ String_of_Z (status response))
  else
    parsed ← JSON_parse (stripLeadingBom (text response));
    let out := omap toRecord (normalizeOfficialRows parsed) in
    if (length out =? 0)%nat
    then Throw "Official source parsed 0 records. Please verify OFFICIAL_RESULT_URL format."
    else mret (sortByDrawDate out).
End WithHost.
End Official.

(** ** SourceResolver (data-source.ts) *)

Module DataSource.
Section WithHost.
Context `{Host}.

(** The csv provider: [RESULT_CSV_URL] when set, else the local file. *)
Definition loadCsvRecords (w : World) : result (list CsvDrawRecord.t) :=
  let remote := Official.trimmedOr (env w "RESULT_CSV_URL") "" in
  if negb (String.eqb remote "") then
    response ← fetch w remote;
    if negb (ok response)
    then Throw ("Failed to fetch RESULT_CSV_URL: "
                +:+ String_of_Z (status response))
    else Csv.parseDrawCsv (text response)
  else
    let localPath :=
      Official.trimmedOr (env w "LOCAL_RESULT_CSV_PATH") "./Mark_Six.csv" in
    raw ← readLocalCsv w localPath;
    Csv.parseDrawCsv raw.

Definition loadDrawRecords (w : World) : result (list CsvDrawRecord.t) :=
  let provider := toLowerCase (trim (default "" (env w "RESULT_PROVIDER"))) in
  let officialRequired :=
    String.eqb (trim (default "" (env w "OFFICIAL_SOURCE_REQUIRED"))) "true" in
  if String.eqb provider "official" then Official.loadOfficialRecords w
  else if String.eqb provider "csv" then loadCsvRecords w
  else
    match Official.loadOfficialRecords w with
    | Ok records => Ok records
    | Throw error =>
        if officialRequired then Throw error else loadCsvRecords w
    end.
End WithHost.
End DataSource.

(** ** ReviewEngine (prediction-service.ts) *)

Inductive PredictionStatus : Set :=
| PENDING
| REVIEWED.

#[export] Instance PredictionStatus_eq_dec : EqDecision PredictionStatus.
Proof. solve_decision. Defined.

(** A row of [PredictionRun], keyed by its id in [Db]. *)
Record PredictionRun : Type := {
  run_issueNo : string;
  run_strategy : string;
  run_strategyVersion : string;
  run_status : PredictionStatus;
  run_createdAt : Z;
  run_hitCount : option Z;
  run_hitRate : option Q;
  run_reviewedAt : option Z;
}.

Record PredictionPick : Type := {
  pick_runId : Z;
  pick_number : Z;
  pick_rank : Z;
  pick_score : Q;
  pick_reason : string;
}.

(** A row of [PredictionReview], keyed by its unique [runId] in [Db];
    [matchedNumbersJson] is held decoded. *)
Record PredictionReview : Type := {
  review_drawId : Z;
  matchedNumbersJson : list Z;
  review_hitCount : Z;
  review_hitRate : Q;
}.

(** The tables: draws by their unique [issueNo], runs by [id], reviews by
    their unique [runId]. *)
Record Db : Type := {
  db_draws : gmap string Draw;
  db_runs : gmap Z PredictionRun;
  db_picks : list PredictionPick;
  db_reviews : gmap Z PredictionReview;
}.

Module Review.

Definition parseNumbers (draw : Draw) : list Z := numbersJson draw.

(** [run.picks] under [include: { picks: true }]. *)
Definition picksOf (db : Db) (runId : Z) : list PredictionPick :=
  filter (fun p => pick_runId p = runId) (db_picks db).

(** [findMany({ where: { issueNo, status: PENDING } })]. *)
Definition pendingRuns (db : Db) (issueNo : string) : list (Z * PredictionRun) :=
  filter (fun entry => run_issueNo (snd entry) = issueNo
                       /\ run_status (snd entry) = PENDING)
         (map_to_list (db_runs db)).

Definition matchedOf (winning : list Z) (picks : list PredictionPick) : list Z :=
  JsSort.sort Z.compare
    (filter (fun n => n ∈ winning) (map pick_number picks)).

(** [Number(x.toFixed(4))] for [x >= 0]: the decimal [toFixed] prints. *)
Definition roundedTo4 (x : Q) : Q :=
  (inject_Z (Qfloor (x * 10000 + (1 # 2))) / 10000)%Q.

Definition hitRateOf (hitCount : nat) : Q :=
  roundedTo4 (inject_Z (Z.of_nat hitCount) / 6).

(** The body of [for (const run of pendingRuns)]; [now id] is the time
    [new Date()] gives while run [id] is updated. *)
Definition reviewRun (now : Z -> Z) (draw : Draw) (db : Db)
    (entry : Z * PredictionRun) : Db :=
  let '(id, run) := entry in
  let matched := matchedOf (parseNumbers draw) (picksOf db id) in
  let hitCount := length matched in
  let hitRate := hitRateOf hitCount in
  {| db_draws := db_draws db;
     db_runs :=
       <[id := {| run_issueNo := run_issueNo run;
                  run_strategy := run_strategy run;
                  run_strategyVersion := run_strategyVersion run;
                  run_status := REVIEWED;
                  run_createdAt := run_createdAt run;
                  run_hitCount := Some (Z.of_nat hitCount);
                  run_hitRate := Some hitRate;
                  run_reviewedAt := Some (now id) |}]> (db_runs db);
     db_picks := db_picks db;
     db_reviews :=
       <[id := {| review_drawId :=
                    match db_reviews db !! id with
                    | Some old => review_drawId old
                    | None => draw_id draw
                    end;
                  matchedNumbersJson := matched;
                  review_hitCount := Z.of_nat hitCount;
                  review_hitRate := hitRate |}]> (db_reviews db) |}.

Definition reviewIssue (now : Z -> Z) (db : Db) (issueNo : string) : Db * nat :=
  match db_draws db !! issueNo with
  | None => (db, 0%nat)
  | Some draw =>
      let pending := pendingRuns db issueNo in
      (fold_left (reviewRun now draw) pending db, length pending)
  end.

End Review.

(** ** Vocabulary of the statements *)



(** The integers among some numbers. *)
Definition integersOf (l : list jsnum) : list Z :=
  omap (fun n => match n with Int z => Some z | _ => None end) l.







(** A host that reads "1.5" and "Infinity" as numbers, with the sums and the
    order of 1.5, 2.5, 3.5, 4.5 and Infinity. *)
Definition halves : list (string * Q) :=
  [("1.5", 3 # 2); ("2.5", 5 # 2); ("3.5", 7 # 2); ("4.5", 9 # 2)]%Q.

Definition exampleValue (n : jsnum) : option Q :=
  match n with
  | NaN => None
  | Int z => Some (inject_Z z)
  | Other shown => JsMap.get shown halves
  end.

Definition fractionHost : Host := {|
  NumberOther := fun text =>
    if String.eqb text "1.5" then Other "1.5"
    else if String.eqb text "Infinity" then Other "Infinity"
    else NaN;
  plusOneOther := fun shown =>
    if String.eqb shown "1.5" then Other "2.5"
    else if String.eqb shown "2.5" then Other "3.5"
    else if String.eqb shown "3.5" then Other "4.5"
    else Other shown;
  lessOther := fun a b =>
    match a, b with
    | Other "Infinity", _ => false
    | _, Other "Infinity" => true
    | _, _ =>
        match exampleValue a, exampleValue b with
        | Some x, Some y => negb (Qle_bool y x)
        | _, _ => false
        end
    end;
  DateOf := fun text => if (String.length text =? 20)%nat then Some 0 else None;
  DateUTC := fun _ _ _ => Some 0;
  JSON_parse := fun _ => Throw "Unexpected end of JSON input";
  csv_parse := fun _ => Ok [];
  localeCompare := fun a b => Nat.compare (String.length a) (String.length b);
|}.

(** The matched numbers of a run against a draw: the run's picks found
    among the winning numbers, ascending. *)
Definition matchedNumbers (db : Db) (draw : Draw) (runId : Z) : list Z :=
  Review.matchedOf (Review.parseNumbers draw) (Review.picksOf db runId).

(** A run once reviewed at time [time] with the given matched numbers. *)
Definition reviewedRun (time : Z) (matched : list Z) (run : PredictionRun)
    : PredictionRun :=
  {| run_issueNo := run_issueNo run;
     run_strategy := run_strategy run;
     run_strategyVersion := run_strategyVersion run;
     run_status := REVIEWED;
     run_createdAt := run_createdAt run;
     run_hitCount := Some (Z.of_nat (length matched));
     run_hitRate := Some (Review.hitRateOf (length matched));
     run_reviewedAt := Some time |}.

(** The draw a run's review refers to: the one of its earlier review when
    there is one, else the draw now reviewed. *)
Definition drawIdFor (draw : Draw) (db : Db) (id : Z) : Z :=
  match db_reviews db !! id with
  | Some old => review_drawId old
  | None => draw_id draw
  end.

(** The review record of a run with the given matched numbers. *)
Definition reviewRecord (drawId : Z) (matched : list Z) : PredictionReview :=
  {| review_drawId := drawId;
     matchedNumbersJson := matched;
     review_hitCount := Z.of_nat (length matched);
     review_hitRate := Review.hitRateOf (length matched) |}.

(** What the normalizers check of a record: six winning numbers, each in
    1..49, and a special number in 1..49. *)
Definition inRangeRecord (r : CsvDrawRecord.t) : Prop :=
  length (CsvDrawRecord.numbers r) = 6%nat
  /\ Forall (fun n => 1 <= n <= 49) (CsvDrawRecord.numbers r)
  /\ 1 <= CsvDrawRecord.specialNumber r <= 49.

(** A legal draw: in range, the winning numbers distinct and the special
    number not among them. *)
Definition legalRecord (r : CsvDrawRecord.t) : Prop :=
  inRangeRecord r
  /\ NoDup (CsvDrawRecord.numbers r)
  /\ CsvDrawRecord.specialNumber r ∉ CsvDrawRecord.numbers r.

(** The text the csv provider reads: the remote file when [RESULT_CSV_URL]
    is set and answers, else the local file. *)
Definition csvSourceText (w : World) : result string :=
  let remote := Official.trimmedOr (env w "RESULT_CSV_URL") "" in
  if negb (String.eqb remote "") then
    response ← fetch w remote;
    if negb (ok response)
    then Throw ("Failed to fetch RESULT_CSV_URL: " +:+ String_of_Z (status response))
    else mret (text response)
  else
    readLocalCsv w
      (Official.trimmedOr (env w "LOCAL_RESULT_CSV_PATH") "./Mark_Six.csv").


Definition officialRequired (w : World) : bool :=
  String.eqb (trim (default "" (env w "OFFICIAL_SOURCE_REQUIRED"))) "true".

(** A host whose CSV library reads the given rows, for worked examples. *)
Definition csvHost (rows : list Row) : Host := {|
  NumberOther := fun _ => NaN;
  plusOneOther := fun shown => Other shown;
  lessOther := fun _ _ => false;
  DateOf := fun text => if (String.length text =? 20)%nat then Some 0 else None;
  DateUTC := fun _ _ _ => Some 0;
  JSON_parse := fun _ => Throw "Unexpected end of JSON input";
  csv_parse := fun _ => Ok rows;
  localeCompare := fun a b => Nat.compare (String.length a) (String.length b);
|}.


(** A deployment with the given provider setting, a reachable official
    endpoint and a readable local file. *)
Definition exampleWorld (provider : string) : World := {|
  env := fun name =>
    if String.eqb name "RESULT_PROVIDER" then Some provider else None;
  fetch := fun _ => Ok {| ok := true; status := 200; text := "[]" |};
  readLocalCsv := fun _ => Ok "csv";
|}.

(** A CSV row with the given cells under the headers of [Mark_Six.csv]. *)
Definition exampleRow (issue date numbers special : string) : Row :=
  [("期号", issue); ("日期", date); ("中奖号码", numbers); ("特别号码", special)].

(** Some selected number is odd, some is even. *)
Definition hasOdd (selected : list (Z * Q)) : Prop :=
  Exists (fun e => Strategies.isOdd (fst e) = true) selected.

Definition hasEven (selected : list (Z * Q)) : Prop :=
  Exists (fun e => Strategies.isOdd (fst e) = false) selected.

(** Every selected number is even, every selected number is odd. *)
Definition allEven (selected : list (Z * Q)) : Prop :=
  Forall (fun e => Strategies.isOdd (fst e) = false) selected.

Definition allOdd (selected : list (Z * Q)) : Prop :=
  Forall (fun e => Strategies.isOdd (fst e) = true) selected.

(** A selection of four or more numbers has both parities. *)
Definition diverse (selected : list (Z * Q)) : Prop :=
  (4 <= length selected)%nat -> hasOdd selected /\ hasEven selected.

(** The candidate a pick was made from. *)
Definition entryOf (p : Pick) : Z * Q := (number p, score p).

(** Descending by score, equal scores by ascending number. *)
Definition scoreOrder (a b : Z * Q) : Prop :=
  (snd b < snd a)%Q \/ ((snd a == snd b)%Q /\ fst a < fst b).

(** A score map over 1..49: every number has exactly one entry. *)
Definition overAllNumbers (scores : list (Z * Q)) : Prop :=
  JsMap.keys scores ≡ₚ Strategies.ALL_NUMBERS.

(** A stored draw with the given winning numbers, for worked examples. *)
Definition exampleNumbers (numbers : list Z) : Draw :=
  {| draw_id := 0; issueNo := "26/001"; drawDate := 0;
     numbersJson := numbers; specialNumber := 49; source := "local_csv" |}.

(** A stored draw with the given issue id and date, for worked examples. *)
Definition exampleDraw (issue : string) (date : Z) : Draw :=
  {| draw_id := 0; issueNo := issue; drawDate := date;
     numbersJson := [3; 8; 12; 27; 33; 45]; specialNumber := 19;
     source := "local_csv" |}.

(** A host for worked examples: nothing but plain digit strings is a number,
    a date text is valid when it is twenty characters long, and texts compare
    by length. *)
Definition exampleHost : Host := {|
  NumberOther := fun _ => NaN;
  plusOneOther := fun shown => Other shown;
  lessOther := fun _ _ => false;
  DateOf := fun text => if (String.length text =? 20)%nat then Some 0 else None;
  DateUTC := fun _ _ _ => Some 0;
  JSON_parse := fun _ => Throw "Unexpected end of JSON input";
  csv_parse := fun _ => Ok [];
  localeCompare := fun a b => Nat.compare (String.length a) (String.length b);
|}.

(** How often [n] was drawn in the given draws. *)
Definition occurrences (n : Z) (draws : list Draw) : nat :=
  length (filter (fun x => x = n) (concat (map numbersJson draws))).

(** The position, counted from [idx + 1], of the first draw holding [n]. *)
Fixpoint firstSeen (n : Z) (idx : Z) (draws : list Draw) : option Z :=
  match draws with
  | [] => None
  | draw :: rest =>
      if bool_decide (n ∈ numbersJson draw) then Some (idx + 1)
      else firstSeen n (idx + 1) rest
  end.

(** The sum of [1 / (1 + i)] over the appearances of [n], [i] being the
    position of the draw counted from [idx]. *)
Fixpoint recencyWeight (n : Z) (idx : Z) (draws : list Draw) : Q :=
  match draws with
  | [] => 0%Q
  | draw :: rest =>
      (inject_Z (Z.of_nat (length (filter (fun x => x = n) (numbersJson draw))))
       * (1 / (1 + inject_Z idx))
       + recencyWeight n (idx + 1) rest)%Q
  end.

(** Six distinct winning numbers in 1..49. *)
Definition legalNumbers (numbers : list Z) : Prop :=
  length numbers = 6%nat
  /\ Forall (fun n => 1 <= n <= 49) numbers
  /\ NoDup numbers.

(** What the first loop of the audit reports for one record, the check of
    the date order apart. *)
Definition recordProblems `{Host} (d : Draw) : list string :=
  match Audit.parseIssue (issueNo d) with
  | None => [issueNo d +:+ ": invalid issue format"]
  | Some _ =>
      match Audit.numberProblemsOf d with
      | [] => []
      | numberProblems => [issueNo d +:+ ": " +:+ join "; " numberProblems]
      end
  end.

(** The ten decimal digits, and the texts of three of them. *)
Definition digitChars : list ascii := list_ascii_of_string "0123456789".

Definition threeDigits : list string :=
  a ← digitChars; b ← digitChars; c ← digitChars;
  [String a (String b (String c ""))].

(** The sequence text that follows [digits] in an issue id. *)
Definition nextSeqText (digits : string) : string :=
  padStart (String.length digits) "0"
           (String_of_Z (Z.of_N (decimalValue digits) + 1)).

(** What the successor of a three-digit sequence text below 999 is checked
    for. *)
Definition advancesInPlace (digits : string) : bool :=
  let seq := Z.of_N (decimalValue digits) in
  (seq <=? 999)
  && (if seq <? 999
      then Official.digitsOfLength 3 (nextSeqText digits)
           && (Z.of_N (decimalValue (nextSeqText digits)) =? seq + 1)
      else String.eqb (nextSeqText digits) "1000").

(** ** History files (history-files.ts) *)

Inductive PathKind : Set :=
| IsFile
| IsDirectory
| IsOther.

(** The file system, as far as [loadRecordsFromPath] looks at it. *)
Record Files : Type := {
  (** [path.resolve(process.cwd(), inputPath)] *)
  resolve : string -> string;
  (** [path.join(directory, name)] *)
  joinPath : string -> string -> string;
  existsSync : string -> bool;
  (** [fs.statSync(p)]: which of [isFile()] and [isDirectory()] holds *)
  statSync : string -> result PathKind;
  readdirSync : string -> result (list string);
  (** [fs.readFileSync(p, "utf8")] *)
  readFileSync : string -> result string;
}.

(** Whether an optional number is truthy: neither [undefined], [NaN] nor 0. *)
Definition truthy (n : option jsnum) : bool :=
  match n with
  | Some (Int z) => negb (z =? 0)
  | Some (Other _) => true
  | _ => false
  end.

Module HistoryFiles.
Section WithHost.
Context `{Host} (fs : Files).
(** [date.getUTCFullYear()] of a time. *)
Variable getUTCFullYear : Z -> Z.

Definition readCsvFile (filePath : string) : result (list CsvDrawRecord.t) :=
  raw ← readFileSync fs filePath;
  Csv.parseDrawCsv raw.

Definition isCsvName (name : string) : bool :=
  endsWith (toLowerCase name) ".csv".

(** [for (const record of ...) merged.set(record.issueNo, record)]. *)
Definition mergeRecords (merged : list (string * CsvDrawRecord.t))
    (records : list CsvDrawRecord.t) : list (string * CsvDrawRecord.t) :=
  fold_left (fun m r => JsMap.set (CsvDrawRecord.issueNo r) r m) records merged.

Fixpoint mergeFiles (fullPath : string) (files : list string)
    (merged : list (string * CsvDrawRecord.t))
    : result (list (string * CsvDrawRecord.t)) :=
  match files with
  | [] => Ok merged
  | fileName :: rest =>
      records ← readCsvFile (joinPath fs fullPath fileName);
      mergeFiles fullPath rest (mergeRecords merged records)
  end.

Definition csvFiles (names : list string) : list string :=
  JsSort.sort localeCompare (filter (fun name => isCsvName name) names).

Definition loadRecordsFromPath (inputPath : string)
    : result (list CsvDrawRecord.t) :=
  let fullPath := resolve fs inputPath in
  if negb (existsSync fs fullPath)
  then Throw ("Path not found: " +:+ fullPath)
  else
    stat ← statSync fs fullPath;
    match stat with
    | IsFile => readCsvFile fullPath
    | IsDirectory =>
        names ← readdirSync fs fullPath;
        merged ← mergeFiles fullPath (csvFiles names) [];
        mret (sortByDrawDate (JsMap.values merged))
    | IsOther => Throw ("Unsupported path type: " +:+ fullPath)
    end.

(** [year < bound] and [year > bound] against a number. *)
Definition below (year : Z) (bound : option jsnum) : bool :=
  match bound with
  | Some n => lessThan (Int year) n
  | None => false
  end.

Definition above (year : Z) (bound : option jsnum) : bool :=
  match bound with
  | Some n => lessThan n (Int year)
  | None => false
  end.

(** The callback of [records.filter]. *)
Definition inYearRange (fromYear toYear : option jsnum)
    (r : CsvDrawRecord.t) : bool :=
  let year := getUTCFullYear (CsvDrawRecord.drawDate r) in
  if truthy fromYear && below year fromYear then false
  else if truthy toYear && above year toYear then false
  else true.

Definition filterByYearRange (records : list CsvDrawRecord.t)
    (fromYear toYear : option jsnum) : list CsvDrawRecord.t :=
  filter (fun r => inYearRange fromYear toYear r) records.
End WithHost.
End HistoryFiles.

(** ** Backfill of the history (scripts/backfill-history.ts) *)

Module Backfill.

Record CliOptions : Type := {
  path : string;
  fromYear : option jsnum;
  toYear : option jsnum;
}.

Section WithHost.
Context `{Host} (fs : Files).
Variable getUTCFullYear : Z -> Z.
(** [process.env[name]] *)
Variable env : string -> option string.
(** The id the database gives a created draw. *)
Variable newId : gmap string Draw -> Z.

(** The body of [for (let i = 0; i < argv.length; i += 1)]: an option name
    takes the next argument when that one is not empty. *)
Fixpoint argLoop (argv : list string) (options : CliOptions) : CliOptions :=
  match argv with
  | arg :: (next :: rest) as tail =>
      if String.eqb arg "--path" && negb (String.eqb next "")
      then argLoop rest {| path := next;
                           fromYear := fromYear options;
                           toYear := toYear options |}
      else if String.eqb arg "--from-year" && negb (String.eqb next "")
      then argLoop rest {| path := path options;
                           fromYear := Some (Number next);
                           toYear := toYear options |}
      else if String.eqb arg "--to-year" && negb (String.eqb next "")
      then argLoop rest {| path := path options;
                           fromYear := fromYear options;
                           toYear := Some (Number next) |}
      else argLoop tail options
  | _ => options
  end.

Definition isNaNU (n : option jsnum) : bool :=
  match n with
  | Some n => isNaN n
  | None => false
  end.

(** [value || fallback]. *)
Definition orElse (value : option string) (fallback : string) : string :=
  match value with
  | Some v => if String.eqb v "" then fallback else v
  | None => fallback
  end.

Definition parseArgs (argv : list string) : result CliOptions :=
  let options :=
    argLoop argv
      {| path := orElse (env "HISTORY_CSV_DIR") "./data/history";
         fromYear := None;
         toYear := None |} in
  if truthy (fromYear options) && isNaNU (fromYear options)
  then Throw "Invalid --from-year"
  else if truthy (toYear options) && isNaNU (toYear options)
  then Throw "Invalid --to-year"
  else Ok options.

(** The row written for a record, under the given id. *)
Definition drawOf (id : Z) (r : CsvDrawRecord.t) : Draw :=
  {| draw_id := id;
     issueNo := CsvDrawRecord.issueNo r;
     drawDate := CsvDrawRecord.drawDate r;
     numbersJson := CsvDrawRecord.numbers r;
     specialNumber := CsvDrawRecord.specialNumber r;
     source := "backfill_csv" |}.

(** The draws with the counters [inserted] and [updated]. *)
Definition Progress : Type := gmap string Draw * nat * nat.

(** The body of [for (const r of records)]. *)
Definition reconcileRecord (st : Progress) (r : CsvDrawRecord.t) : Progress :=
  let '(draws, inserted, updated) := st in
  match draws !! CsvDrawRecord.issueNo r with
  | Some existing =>
      (<[CsvDrawRecord.issueNo r := drawOf (draw_id existing) r]> draws,
       inserted, S updated)
  | None =>
      (<[CsvDrawRecord.issueNo r := drawOf (newId draws) r]> draws,
       S inserted, updated)
  end.

Definition reconcile (draws : gmap string Draw)
    (records : list CsvDrawRecord.t) : Progress :=
  fold_left reconcileRecord records (draws, 0%nat, 0%nat).

(** [run]: the draws it leaves and the line it prints. *)
Definition run (argv : list string) (draws : gmap string Draw)
    : result (gmap string Draw * string) :=
  options ← parseArgs argv;
  allRecords ← HistoryFiles.loadRecordsFromPath fs (path options);
  let records :=
    HistoryFiles.filterByYearRange getUTCFullYear allRecords
      (fromYear options) (toYear options) in
  if (length records =? 0)%nat
  then mret (draws, "No records matched the year range.")
  else
    let '(stored, inserted, updated) := reconcile draws records in
    mret (stored,
          "Backfill complete: total=" +:+ String_of_nat (length records)
          +:+ ", inserted=" +:+ String_of_nat inserted
          +:+ ", updated=" +:+ String_of_nat updated
          +:+ ", path=" +:+ path options).
End WithHost.
End Backfill.

(** The last record of [records] with the given issue id. *)
Definition lastIssued (issue : string) (records : list CsvDrawRecord.t)
    : option CsvDrawRecord.t :=
  last (filter (fun r => CsvDrawRecord.issueNo r = issue) records).

(** What the backfill leaves under every issue id: the last record of that
    id, under the id the draw had or was given; an id no record has keeps
    its draw. *)
Definition settled (draws : gmap string Draw)
    (records : list CsvDrawRecord.t) (stored : gmap string Draw) : Prop :=
  forall issue,
    match lastIssued issue records with
    | Some r =>
        exists id, stored !! issue = Some (Backfill.drawOf id r)
                   /\ forall d, draws !! issue = Some d -> id = draw_id d
    | None => stored !! issue = draws !! issue
    end.

(** A directory with one CSV file and one other file, for worked examples. *)
Definition exampleFiles : Files := {|
  resolve := fun inputPath => inputPath;
  joinPath := fun directory name => directory +:+ "/" +:+ name;
  existsSync := fun _ => true;
  statSync := fun _ => Ok IsDirectory;
  readdirSync := fun _ => Ok ["2007.CSV"; "notes.txt"];
  readFileSync := fun _ => Ok "csv";
|}.

(** Two rows of one issue id, for worked examples. *)
Definition exampleRows : list Row :=
  [exampleRow "08/002" "2008-01-08" "3,8,12,27,33,45" "19";
   exampleRow "08/002" "2008-01-08" "1,2,3,4,5,6" "7"].

Definition exampleRecord : CsvDrawRecord.t :=
  {| CsvDrawRecord.issueNo := "08/002"; CsvDrawRecord.drawDate := 0;
     CsvDrawRecord.numbers := [1; 2; 3; 4; 5; 6];
     CsvDrawRecord.specialNumber := 7 |}.

(** ** Generation of predictions (prediction-service.ts) *)

#[export] Instance StrategyId_eq_dec : EqDecision StrategyId.
Proof. solve_decision. Defined.

Module Prediction.

(** The value of the unique key [issueNo_strategy_strategyVersion]. *)
Definition RunKey : Type := string * string * string.

Definition runKey (run : PredictionRun) : RunKey :=
  (run_issueNo run, run_strategy run, run_strategyVersion run).

Definition keyOf (issueNo : string) (result : StrategyResult) : RunKey :=
  (issueNo, Strategies.strategyText (strategy result), strategyVersion result).

(** The run stored under the key, if any. *)
Definition findRun (runs : gmap Z PredictionRun) (key : RunKey)
    : option (Z * PredictionRun) :=
  head (filter (fun entry => runKey (snd entry) = key) (map_to_list runs)).

(** The row of [createMany] for a pick. *)
Definition pickRow (runId : Z) (pick : Pick) : PredictionPick :=
  {| pick_runId := runId;
     pick_number := number pick;
     pick_rank := rank pick;
     pick_score := score pick;
     pick_reason := reason pick |}.

(** [deleteMany({ where: { runId } })] followed by [createMany]. *)
Definition replacePicks (db : Db) (runId : Z) (chosen : list Pick) : Db :=
  {| db_draws := db_draws db;
     db_runs := db_runs db;
     db_picks := filter (fun p => pick_runId p <> runId) (db_picks db)
                 ++ map (pickRow runId) chosen;
     db_reviews := db_reviews db |}.

Section WithStore.
Context `{Host}.
(** [prisma.draw.findMany({ orderBy: { drawDate: "desc" }, take: 200 })]. *)
Variable recentDraws : Db -> list Draw.
(** [prisma.draw.findFirst({ orderBy: { drawDate: "desc" } })]. *)
Variable latestDraw : Db -> option Draw.
(** The time [new Date()] gives in the iteration of the given index. *)
Variable now : nat -> Z.
(** The id the database gives a created run. *)
Variable newRunId : gmap Z PredictionRun -> Z.
(** The columns the database fills in for a run created in the iteration of
    the given index. *)
Variable columnDefaults : nat -> PredictionRun.

(** The row of the [create] branch. *)
Definition createdRun (index : nat) (key : RunKey) : PredictionRun :=
  let defaults := columnDefaults index in
  {| run_issueNo := key.1.1;
     run_strategy := key.1.2;
     run_strategyVersion := key.2;
     run_status := run_status defaults;
     run_createdAt := run_createdAt defaults;
     run_hitCount := run_hitCount defaults;
     run_hitRate := run_hitRate defaults;
     run_reviewedAt := run_reviewedAt defaults |}.

(** The row of the [update] branch. *)
Definition resetRun (index : nat) (run : PredictionRun) : PredictionRun :=
  {| run_issueNo := run_issueNo run;
     run_strategy := run_strategy run;
     run_strategyVersion := run_strategyVersion run;
     run_status := PENDING;
     run_createdAt := now index;
     run_hitCount := None;
     run_hitRate := None;
     run_reviewedAt := None |}.

(** [prisma.predictionRun.upsert], giving the store and [run.id]. *)
Definition upsertRun (index : nat) (db : Db) (key : RunKey) : Db * Z :=
  let '(id, row) :=
    match findRun (db_runs db) key with
    | Some (id, run) => (id, resetRun index run)
    | None => (newRunId (db_runs db), createdRun index key)
    end in
  ({| db_draws := db_draws db;
      db_runs := <[id := row]> (db_runs db);
      db_picks := db_picks db;
      db_reviews := db_reviews db |}, id).

(** The body of [for (const strategy of strategyList)]. *)
Definition generateRun (draws : list Draw) (issueNo : string) (index : nat)
    (strategy : StrategyId) (db : Db) : Db * Z :=
  let result := Strategies.generateStrategyResult strategy draws in
  let '(upserted, id) := upsertRun index db (keyOf issueNo result) in
  (replacePicks upserted id (picks result), id).

Fixpoint generateRuns (draws : list Draw) (issueNo : string) (index : nat)
    (strategyList : list StrategyId) (db : Db) (createdRuns : list Z)
    : Db * list Z :=
  match strategyList with
  | [] => (db, createdRuns)
  | strategy :: rest =>
      let '(next, id) := generateRun draws issueNo index strategy db in
      generateRuns draws issueNo (S index) rest next (createdRuns ++ [id])
  end.

Definition generatePredictionsForIssue (db : Db) (issueNo : string)
    (strategyIds : option (list StrategyId)) : result (Db * list Z) :=
  let draws := recentDraws db in
  if (length draws <? 20)%nat
  then Throw "Not enough history to generate predictions"
  else
    let strategyList := default Strategies.allStrategies strategyIds in
    Ok (generateRuns draws issueNo 0 strategyList db []).

Definition generatePredictionsForNextIssue (db : Db) : result (Db * string) :=
  match latestDraw db with
  | None => Throw "No draw history available"
  | Some latest =>
      let targetIssue := PredictionIssue.nextIssueNo (issueNo latest) in
      generated ← generatePredictionsForIssue db targetIssue None;
      mret (generated.1, targetIssue)
  end.
End WithStore.
End Prediction.

(** No two runs share their unique key. *)
Definition uniqueRuns (runs : gmap Z PredictionRun) : Prop :=
  forall id1 id2 run1 run2,
    runs !! id1 = Some run1 -> runs !! id2 = Some run2 ->
    Prediction.runKey run1 = Prediction.runKey run2 -> id1 = id2.

(** A run as [upsert] leaves it when it was found: pending, without a
    result. *)
Definition pendingAgain (run : PredictionRun) : Prop :=
  run_status run = PENDING /\ run_hitCount run = None
  /\ run_hitRate run = None /\ run_reviewedAt run = None.

(** The key under which a strategy's run is stored. *)
Definition strategyKey (issueNo : string) (strategy : StrategyId)
    : Prediction.RunKey :=
  (issueNo, Strategies.strategyText strategy, Strategies.strategyText strategy).

(** What generation for [issueNo] leaves for a strategy under run [id],
    [before] being the runs it started from: the run has the strategy's key
    and exactly the picks computed from [draws]; a run that was there under
    that key is this one, pending again. *)
Definition generatedRun (before : gmap Z PredictionRun) (db : Db)
    (draws : list Draw) (issueNo : string) (strategy : StrategyId) (id : Z)
    : Prop :=
  exists run,
    db_runs db !! id = Some run
    /\ Prediction.runKey run = strategyKey issueNo strategy
    /\ Review.picksOf db id
       = map (Prediction.pickRow id)
             (picks (Strategies.generateStrategyResult strategy draws))
    /\ forall id0 old,
         before !! id0 = Some old ->
         Prediction.runKey old = strategyKey issueNo strategy ->
         id0 = id /\ pendingAgain run.

(** What generation for the strategies of [strategyList] leaves of a store
    whose runs were [before]. *)
Definition generatedRuns (before : Db) (db : Db) (draws : list Draw)
    (issueNo : string) (strategyList : list StrategyId) (ids : list Z)
    : Prop :=
  uniqueRuns (db_runs db)
  /\ db_draws db = db_draws before
  /\ db_reviews db = db_reviews before
  /\ Forall2 (generatedRun (db_runs before) db draws issueNo) strategyList ids
  /\ (forall id run,
         db_runs before !! id = Some run ->
         (forall strategy, strategy ∈ strategyList ->
                           Prediction.runKey run <> strategyKey issueNo strategy) ->
         db_runs db !! id = Some run
         /\ Review.picksOf db id = Review.picksOf before id)
  /\ (forall id, db_runs db !! id <> None ->
                 db_runs before !! id <> None \/ id ∈ ids).

(** An empty store, a history of twenty draws, the column values of a new
    run and an unused id, for worked examples. *)
Definition exampleStore : Db :=
  {| db_draws := ∅; db_runs := ∅; db_picks := []; db_reviews := ∅ |}.

Definition exampleHistory : list Draw := replicate 20 (exampleDraw "08/001" 0).

Definition exampleDefaults : PredictionRun :=
  {| run_issueNo := ""; run_strategy := ""; run_strategyVersion := "";
     run_status := PENDING; run_createdAt := 0; run_hitCount := None;
     run_hitRate := None; run_reviewedAt := None |}.

Definition unusedId (runs : gmap Z PredictionRun) : Z := fresh (dom runs).

(** ** Guard of the sync job (app/api/jobs/sync-latest/route.ts) *)

Module SyncJob.

(** [s.startsWith(prefix)]. *)
Fixpoint startsWith (s prefix : string) {struct prefix} : bool :=
  match prefix, s with
  | EmptyString, _ => true
  | String p prefix', String c s' => Ascii.eqb c p && startsWith s' prefix'
  | String _ _, EmptyString => false
  end.

(** [s.slice(n)]. *)
Fixpoint slice (n : nat) (s : string) : string :=
  match n, s with
  | O, _ => s
  | S k, String _ r => slice k r
  | S _, EmptyString => EmptyString
  end.

Section WithRequest.
(** [process.env[name]] *)
Variable env : string -> option string.
(** [request.headers.get(name)] *)
Variable header : string -> option string.

Definition authorized : bool :=
  match env "CRON_SECRET" with
  | None => true
  | Some secret =>
      if String.eqb secret "" then true
      else
        let token := default "" (header "x-cron-secret") in
        if String.eqb token secret then true
        else
          let auth := default "" (header "authorization") in
          if startsWith (toLowerCase auth) "bearer "
          then String.eqb (trim (slice 7 auth)) secret
          else false
  end.
End WithRequest.
End SyncJob.

(** A request with the given [authorization] header and no other. *)
Definition bearerRequest (value : string) (name : string) : option string :=
  if String.eqb name "authorization" then Some value else None.

(** * Properties *)

(** ** Strings *)

Lemma digit_not_space c : isDigit c = true -> isSpace c = false.
Proof.
  destruct c as [[] [] [] [] [] [] [] []]; vm_compute; congruence.
Qed.

Lemma digit_not_slash c : isDigit c = true -> Ascii.eqb c "/" = false.
Proof.
  destruct c as [[] [] [] [] [] [] [] []]; vm_compute; congruence.
Qed.

Lemma trimEnd_digits s : allDigits s = true -> trimEnd s = s.
Proof.
  induction s as [|c r IH]; [reflexivity|].
  cbn [allDigits trimEnd allSpaces]. intros [Hc Hr]%andb_prop.
  rewrite (digit_not_space c Hc). cbn. now rewrite IH.
Qed.

Lemma trim_digits s : allDigits s = true -> trim s = s.
Proof.
  intros Hs. unfold trim.
  assert (trimStart s = s) as ->.
  { destruct s as [|c r]; [reflexivity|]. cbn in *.
    apply andb_prop in Hs as [Hc _]. now rewrite (digit_not_space c Hc). }
  now apply trimEnd_digits.
Qed.

Lemma Number_digits `{Host} s :
  allDigits s = true -> Z.of_N (decimalValue s) <= MAX_EXACT ->
  Number s = Int (Z.of_N (decimalValue s)).
Proof.
  intros Hs Hmax. unfold Number. rewrite (trim_digits s Hs), Hs.
  apply Z.leb_le in Hmax. now rewrite Hmax.
Qed.

Lemma split_nonempty sep s : split sep s <> [].
Proof.
  destruct s as [|c r]; [discriminate|]. cbn [split].
  destruct (Ascii.eqb c sep); [discriminate|].
  destruct (split sep r); discriminate.
Qed.

(** A text without the separator is its own single field. *)
Lemma split_nosep sep s :
  ~ List.In sep (list_ascii_of_string s) -> split sep s = [s].
Proof.
  induction s as [|c r IH]; [reflexivity|].
  cbn [list_ascii_of_string List.In split]. intros Hn.
  destruct (Ascii.eqb_spec c sep) as [->|_]; [tauto|].
  rewrite IH by tauto. reflexivity.
Qed.

Lemma string_app_nil (s : string) : "" +:+ s = s.
Proof. reflexivity. Qed.

Lemma string_app_cons c (r s : string) : String c r +:+ s = String c (r +:+ s).
Proof. reflexivity. Qed.

Lemma split_app_sep sep a b :
  ~ List.In sep (list_ascii_of_string a) ->
  split sep (a +:+ String sep b) = a :: split sep b.
Proof.
  induction a as [|c r IH]; cbn [list_ascii_of_string List.In].
  - intros _. rewrite string_app_nil. cbn [split]. now rewrite Ascii.eqb_refl.
  - intros Hn. rewrite string_app_cons. cbn [split].
    destruct (Ascii.eqb_spec c sep) as [->|_]; [tauto|].
    rewrite IH by tauto. reflexivity.
Qed.

Lemma digits_noslash s :
  allDigits s = true -> ~ List.In "/"%char (list_ascii_of_string s).
Proof.
  induction s as [|c r IH]; cbn [allDigits list_ascii_of_string List.In];
    [tauto|].
  intros [Hc Hr]%andb_prop [->|Hin]; [discriminate (digit_not_slash _ Hc)|].
  now apply IH.
Qed.

Lemma repeatChar_length c n : String.length (repeatChar c n) = n.
Proof. induction n; cbn; congruence. Qed.

Lemma string_app_length (a b : string) :
  String.length (a +:+ b) = (String.length a + String.length b)%nat.
Proof.
  induction a as [|c r IH]; [reflexivity|].
  rewrite string_app_cons. cbn. now rewrite IH.
Qed.

(** [padStart] never shortens and pads exactly up to the width. *)
Lemma padStart_length w c s :
  String.length (padStart w c s) = Nat.max w (String.length s).
Proof.
  unfold padStart. rewrite string_app_length, repeatChar_length. lia.
Qed.

(** ** Stable sorting *)

Section SortFacts.
Context {A : Type} (compare : A -> A -> comparison).

Lemma insert_perm x l : Permutation (JsSort.insert compare x l) (x :: l).
Proof.
  induction l as [|y r IH]; cbn; [reflexivity|].
  destruct (compare x y); try reflexivity.
  rewrite IH. apply perm_swap.
Qed.

Lemma sort_perm l : Permutation (JsSort.sort compare l) l.
Proof.
  induction l as [|x r IH]; cbn; [reflexivity|].
  rewrite insert_perm. now constructor.
Qed.

Lemma sort_elem_of x l : x ∈ JsSort.sort compare l <-> x ∈ l.
Proof. now rewrite sort_perm. Qed.

Lemma sort_length l : length (JsSort.sort compare l) = length l.
Proof. apply Permutation_length, sort_perm. Qed.

(** The comparator is the sign of a total preorder. *)
Hypothesis compare_flip : forall x y, compare x y = Gt -> compare y x = Lt.
Hypothesis compare_trans :
  forall x y z, compare x y <> Gt -> compare y z <> Gt -> compare x z <> Gt.

(** [tie] is the order of the positions in the array being sorted. *)
Variable tie : A -> A -> Prop.

Definition before (a b : A) : Prop :=
  compare a b = Lt \/ (compare a b = Eq /\ tie a b).

Lemma insert_sorted x l :
  Forall (tie x) l ->
  StronglySorted before l ->
  StronglySorted before (JsSort.insert compare x l).
Proof.
  induction l as [|y r IH]; intros Hx Hs; cbn.
  - repeat constructor.
  - apply Forall_cons_iff in Hx as [Hxy Hxr].
    apply StronglySorted_inv in Hs as [Hr Hy].
    destruct (compare x y) eqn:Hc.
    + constructor; [now constructor|].
      constructor; [right; tauto|].
      rewrite Forall_forall in *. intros z Hz.
      assert (compare x z <> Gt) as Hxz.
      { apply (compare_trans x y z); [congruence|].
        destruct (Hy z Hz) as [->| [-> _]]; discriminate. }
      unfold before. destruct (compare x z); [right | left | ]; auto.
      congruence.
    + constructor; [now constructor|].
      constructor; [left; tauto|].
      rewrite Forall_forall in *. intros z Hz.
      assert (compare x z <> Gt) as Hxz.
      { apply (compare_trans x y z); [congruence|].
        destruct (Hy z Hz) as [->| [-> _]]; discriminate. }
      unfold before. destruct (compare x z); [right | left | ]; auto.
      congruence.
    + constructor; [now apply IH|].
      rewrite Forall_forall in *. intros z Hz.
      rewrite insert_perm in Hz. apply elem_of_cons in Hz as [->|Hz].
      * left. now apply compare_flip.
      * now apply Hy.
Qed.

(** Sorting an array whose positions are ordered by [tie] yields the
    comparator's order, equal elements staying in position order. *)
Lemma sort_sorted l :
  StronglySorted tie l -> StronglySorted before (JsSort.sort compare l).
Proof.
  induction 1 as [|x r Hr IH Hx]; cbn; [constructor|].
  apply insert_sorted; [|exact IH].
  rewrite Forall_forall in *. intros z Hz. apply Hx.
  now apply (proj1 (sort_elem_of z r)).
Qed.
End SortFacts.

(** ** IssueSequencer *)

Lemma nextIssueNo_parts `{Host} (year rest : string) :
  ~ List.In "/"%char (list_ascii_of_string year) ->
  PredictionIssue.nextIssueNo (year +:+ "/" +:+ rest)
  = let no := hd "" (split "/" rest) in
    if String.eqb year "" || isNaN (Number no) then year +:+ "/" +:+ rest
    else year +:+ "/" +:+
         padStart (String.length no) "0" (String_of_number (plusOne (Number no))).
Proof.
  intros Hslash. unfold PredictionIssue.nextIssueNo.
  change ("/" +:+ rest) with (String "/" rest).
  rewrite split_app_sep by assumption.
  pose proof (split_nonempty "/" rest) as Hne.
  destruct (split "/" rest) as [|no more]; [congruence|].
  reflexivity.
Qed.

(** C6: an issue id [year/digits] whose sequence is below 2^53 is advanced
    to the same year and the sequence plus one, padded with zeros to the
    width of [digits]; an id without a slash, with an empty year or with a
    sequence text that is not a number comes back unchanged; a sequence
    that is a number but not such an integer is advanced as well, by the
    sum of doubles; "25/049" gives "25/050" and "abc" gives "abc". *)
Theorem nextIssueNo_advances_or_returns_input `{Host} :
  (forall year digits : string,
      year <> "" ->
      ~ List.In "/"%char (list_ascii_of_string year) ->
      allDigits digits = true ->
      Z.of_N (decimalValue digits) < MAX_EXACT ->
      PredictionIssue.nextIssueNo (year +:+ "/" +:+ digits)
      = year +:+ "/" +:+
        padStart (String.length digits) "0"
                 (String_of_Z (Z.of_N (decimalValue digits) + 1)))
  /\ (forall issueNo : string,
         ~ List.In "/"%char (list_ascii_of_string issueNo) ->
         PredictionIssue.nextIssueNo issueNo = issueNo)
  /\ (forall rest : string,
         PredictionIssue.nextIssueNo ("/" +:+ rest) = "/" +:+ rest)
  /\ (forall year rest : string,
         ~ List.In "/"%char (list_ascii_of_string year) ->
         Number (hd "" (split "/" rest)) = NaN ->
         PredictionIssue.nextIssueNo (year +:+ "/" +:+ rest)
         = year +:+ "/" +:+ rest)
  /\ (forall year seqText shown : string,
         year <> "" ->
         ~ List.In "/"%char (list_ascii_of_string year) ->
         ~ List.In "/"%char (list_ascii_of_string seqText) ->
         Number seqText = Other shown ->
         PredictionIssue.nextIssueNo (year +:+ "/" +:+ seqText)
         = year +:+ "/" +:+
           padStart (String.length seqText) "0"
                    (String_of_number (plusOneOther shown)))
  /\ PredictionIssue.nextIssueNo "25/049" = "25/050"
  /\ PredictionIssue.nextIssueNo "abc" = "abc".
Proof.
  assert (forall year digits : string,
      year <> "" ->
      ~ List.In "/"%char (list_ascii_of_string year) ->
      allDigits digits = true ->
      Z.of_N (decimalValue digits) < MAX_EXACT ->
      PredictionIssue.nextIssueNo (year +:+ "/" +:+ digits)
      = year +:+ "/" +:+
        padStart (String.length digits) "0"
                 (String_of_Z (Z.of_N (decimalValue digits) + 1))) as Hadv.
  { intros year digits Hy Hslash Hd Hmax.
    rewrite nextIssueNo_parts by assumption.
    rewrite (split_nosep _ digits) by now apply digits_noslash.
    cbn [hd]. rewrite (Number_digits digits Hd) by lia.
    apply String.eqb_neq in Hy. rewrite Hy. cbn [orb isNaN plusOne].
    apply Z.ltb_lt in Hmax. now rewrite Hmax. }
  split; [exact Hadv|]. split; [|split; [|split; [|split; [|split]]]].
  - intros issueNo Hslash. unfold PredictionIssue.nextIssueNo.
    rewrite (split_nosep _ issueNo Hslash). cbn [hd nth_error NumberU isNaN].
    now rewrite orb_true_r.
  - intros rest. unfold PredictionIssue.nextIssueNo.
    change ("/" +:+ rest) with (String "/" rest). cbn [split].
    rewrite Ascii.eqb_refl. reflexivity.
  - intros year rest Hslash Hnan. rewrite nextIssueNo_parts by assumption.
    cbn zeta. rewrite Hnan. cbn [isNaN]. now rewrite orb_true_r.
  - intros year seqText shown Hy Hslash Hseq Hnum.
    rewrite nextIssueNo_parts by assumption.
    rewrite (split_nosep _ seqText Hseq). cbn [hd]. rewrite Hnum.
    apply String.eqb_neq in Hy. now rewrite Hy.
  - apply (Hadv "25" "049"); [discriminate| |reflexivity|reflexivity].
    cbn. intros [?|[?|[]]]; discriminate.
  - reflexivity.
Qed.

Lemma nextIssueNo_advances_witness :
  PredictionIssue.nextIssueNo (H := exampleHost) ("08" +:+ "/" +:+ "099")
  = "08" +:+ "/" +:+ padStart 3 "0" (String_of_Z (99 + 1)).
Proof.
  apply (proj1 (nextIssueNo_advances_or_returns_input (H := exampleHost))
           "08" "099").
  - discriminate.
  - cbn. intros [?|[?|[]]]; discriminate.
  - reflexivity.
  - reflexivity.
Defined.

(** A sequence that is a number but no integer is advanced, "25/1.5" to
    "25/2.5"; and the sequence 2^53 is not: the double after it is
    2^53 + 2, and the sum is rounded back. *)
Lemma nextIssueNo_advances_other_numbers :
  PredictionIssue.nextIssueNo (H := fractionHost) "25/1.5" = "25/2.5"
  /\ forall H : Host,
       PredictionIssue.nextIssueNo (H := H) "25/9007199254740992"
       = "25/9007199254740992".
Proof. split; [reflexivity|]. intros H. reflexivity. Qed.

(** ** Insertion-ordered maps *)

Section JsMapFacts.
Context {K V : Type} `{EqDecision K}.
Implicit Types (m : list (K * V)) (k : K) (v : V).

Lemma get_set_eq k v m : JsMap.get k (JsMap.set k v m) = Some v.
Proof.
  induction m as [|[k' v'] r IH]; cbn.
  - now rewrite decide_True.
  - destruct (decide (k' = k)) as [->|Hne]; cbn.
    + now rewrite decide_True.
    + now rewrite decide_False.
Qed.

Lemma get_set_ne k k' v m :
  k <> k' -> JsMap.get k' (JsMap.set k v m) = JsMap.get k' m.
Proof.
  intros Hne. induction m as [|[k0 v0] r IH]; cbn.
  - now rewrite decide_False.
  - destruct (decide (k0 = k)) as [->|Hne0]; cbn.
    + now rewrite !decide_False.
    + destruct (decide (k0 = k')); [reflexivity|exact IH].
Qed.

Lemma keys_set k v m :
  JsMap.keys (JsMap.set k v m)
  = if decide (k ∈ JsMap.keys m) then JsMap.keys m else JsMap.keys m ++ [k].
Proof.
  unfold JsMap.keys. induction m as [|[k0 v0] r IH]; cbn.
  - rewrite decide_False; [reflexivity|]. apply not_elem_of_nil.
  - destruct (decide (k0 = k)) as [->|Hne]; cbn.
    + rewrite decide_True; [reflexivity|]. apply elem_of_cons. now left.
    + rewrite IH. destruct (decide (k ∈ map fst r)) as [Hin|Hin].
      * rewrite decide_True; [reflexivity|]. apply elem_of_cons. now right.
      * rewrite decide_False; [reflexivity|].
        rewrite elem_of_cons. intros [->|?]; congruence.
Qed.

Lemma keys_set_NoDup k v m :
  NoDup (JsMap.keys m) -> NoDup (JsMap.keys (JsMap.set k v m)).
Proof.
  intros Hm. rewrite keys_set. destruct (decide _) as [|Hn]; [exact Hm|].
  apply NoDup_app. split; [exact Hm|]. split.
  - intros x Hx Hk%list_elem_of_singleton. now subst x.
  - apply NoDup_singleton.
Qed.

Lemma get_None k m : JsMap.get k m = None <-> k ∉ JsMap.keys m.
Proof.
  unfold JsMap.keys. induction m as [|[k0 v0] r IH]; cbn.
  - split; [intros _; apply not_elem_of_nil|reflexivity].
  - rewrite elem_of_cons. destruct (decide (k0 = k)) as [->|Hne].
    + split; [discriminate|]. intros []. now left.
    + rewrite IH. split; [intros ? [->|?]; congruence|tauto].
Qed.

Lemma get_Some k v m :
  NoDup (JsMap.keys m) -> JsMap.get k m = Some v <-> (k, v) ∈ m.
Proof.
  unfold JsMap.keys. induction m as [|[k0 v0] r IH]; cbn; intros Hnd.
  - split; [discriminate|]. intros []%elem_of_nil.
  - apply NoDup_cons in Hnd as [Hk0 Hnd]. rewrite elem_of_cons.
    destruct (decide (k0 = k)) as [->|Hne].
    + split; [intros [= ->]; now left|].
      intros [[= ->]|Hin]; [reflexivity|].
      exfalso. apply Hk0. apply list_elem_of_fmap. now exists (k, v).
    + rewrite (IH Hnd). split; [tauto|]. intros [[= -> ->]|?]; congruence.
Qed.
End JsMapFacts.

(** ** ContinuityAuditor *)

Lemma StronglySorted_weaken {A} (R S : A -> A -> Prop) l :
  (forall x y, R x y -> S x y) -> StronglySorted R l -> StronglySorted S l.
Proof.
  intros HRS. induction 1 as [|x r Hr IH Hx]; constructor; [exact IH|].
  eapply Forall_impl; [exact Hx|]. auto.
Qed.


Lemma StronglySorted_any {A} (l : list A) : StronglySorted (fun _ _ => True) l.
Proof.
  induction l; constructor; [assumption|]. now apply Forall_forall.
Qed.

Lemma seqZ_increasing m n : StronglySorted Z.lt (seqZ m n).
Proof.
  remember (Z.to_nat n) as k eqn:Hk. revert m n Hk.
  induction k as [|k IH]; intros m n Hk.
  - rewrite seqZ_nil by lia. constructor.
  - rewrite seqZ_cons by lia. constructor; [apply IH; lia|].
    apply Forall_seqZ. lia.
Qed.

Lemma sort_Z_ascending l : StronglySorted Z.le (JsSort.sort Z.compare l).
Proof.
  apply (StronglySorted_weaken (before Z.compare (fun _ _ => True))).
  - intros x y [Hlt|[Heq _]].
    + rewrite Z.compare_lt_iff in Hlt. lia.
    + rewrite Z.compare_eq_iff in Heq. lia.
  - apply sort_sorted.
    + intros x y Hgt. rewrite Z.compare_gt_iff in Hgt.
      now rewrite Z.compare_lt_iff.
    + intros x y z Hxy Hyz. change (x <= z). change (x <= y) in Hxy.
      change (y <= z) in Hyz. lia.
    + apply StronglySorted_any.
Qed.



Lemma includes_spec i l : Is_true (Audit.includes i l) <-> i ∈ l.
Proof.
  unfold Audit.includes. rewrite Is_true_true, existsb_exists.
  setoid_rewrite <- list_elem_of_In. split.
  - intros (x & Hx & ->%Z.eqb_eq). exact Hx.
  - intros Hi. exists i. now rewrite Z.eqb_refl.
Qed.

Lemma uniq_elem_of x l : x ∈ Audit.uniq l <-> x ∈ l.
Proof.
  induction l as [|a r IH]; cbn [Audit.uniq]; [reflexivity|].
  rewrite !elem_of_cons, list_elem_of_filter, IH.
  destruct (decide (x = a)) as [->|Hne]; [tauto|]. intuition.
Qed.




Lemma integersOf_Int (l : list Z) : integersOf (Int <$> l) = l.
Proof.
  unfold integersOf. induction l as [|z l IH]; [reflexivity|].
  cbn. now rewrite IH.
Qed.

(** On integers the operations on numbers are those of the integers. *)
Section IntegerCase.
Context `{Host}.









End IntegerCase.

Section AuditFacts.
Context `{Host}.
Implicit Types (st : Audit.Scan) (d : Draw) (ds : list Draw).

Lemma scanDraws_cons st d ds :
  Audit.scanDraws st (d :: ds) = Audit.scanDraws (Audit.scanDraw st d) ds.
Proof. reflexivity. Qed.

Lemma scanDraws_app st ds1 ds2 :
  Audit.scanDraws st (ds1 ++ ds2)
  = Audit.scanDraws (Audit.scanDraws st ds1) ds2.
Proof. apply fold_left_app. Qed.

(** Problems are only ever appended. *)
Lemma scanDraw_problems st d :
  exists more, Audit.problems (Audit.scanDraw st d) = Audit.problems st ++ more.
Proof.
  unfold Audit.scanDraw. destruct (Audit.parseIssue _) as [[year seq]|]; cbn;
    eexists; reflexivity.
Qed.

Lemma scanDraws_problems st ds :
  exists more, Audit.problems (Audit.scanDraws st ds) = Audit.problems st ++ more.
Proof.
  revert st. induction ds as [|d ds IH]; intros st.
  - exists []. cbn. now rewrite app_nil_r.
  - rewrite scanDraws_cons. destruct (IH (Audit.scanDraw st d)) as [m2 ->].
    destruct (scanDraw_problems st d) as [m1 ->].
    exists (m1 ++ m2). now rewrite app_assoc.
Qed.

Lemma scanDraws_keeps st ds p :
  p ∈ Audit.problems st -> p ∈ Audit.problems (Audit.scanDraws st ds).
Proof.
  intros Hp. destruct (scanDraws_problems st ds) as [more ->].
  apply elem_of_app. now left.
Qed.

Lemma lastTime_grows st ds :
  Audit.lastTime st <= Audit.lastTime (Audit.scanDraws st ds).
Proof.
  revert st. induction ds as [|d ds IH]; intros st; [cbn; lia|].
  rewrite scanDraws_cons. etransitivity; [|apply IH].
  unfold Audit.scanDraw. destruct (Audit.parseIssue _) as [[year seq]|]; cbn; lia.
Qed.


(** What one record adds to [problems], given the latest date before it. *)
Lemma scanDraw_reports st d :
  (Audit.parseIssue (issueNo d) = None ->
     issueNo d +:+ ": invalid issue format"
     ∈ Audit.problems (Audit.scanDraw st d))
  /\ (Audit.parseIssue (issueNo d) <> None ->
      Audit.numberProblemsOf d <> [] ->
      issueNo d +:+ ": " +:+ join "; " (Audit.numberProblemsOf d)
      ∈ Audit.problems (Audit.scanDraw st d))
  /\ (Audit.parseIssue (issueNo d) <> None ->
      drawDate d < Audit.lastTime st ->
      issueNo d +:+ ": drawDate is not non-decreasing"
      ∈ Audit.problems (Audit.scanDraw st d)).
Proof.
  unfold Audit.scanDraw.
  destruct (Audit.parseIssue _) as [[year seq]|]; cbn [Audit.problems].
  - split; [discriminate|]. split.
    + intros _ Hne. destruct (Audit.numberProblemsOf d) as [|p ps] eqn:Hp;
        [congruence|].
      cbn [length Nat.ltb Nat.leb]. rewrite !elem_of_app.
      right; left. now left.
    + intros _ Hlt. apply Z.ltb_lt in Hlt. rewrite Hlt.
      rewrite !elem_of_app. right; right. now left.
  - split; [|split; congruence].
    intros _. apply elem_of_app. right. now left.
Qed.






End AuditFacts.






(** ** StrategyEngine: candidate order *)

Lemma fold_set_fresh {V} (f : Z -> V) (ns : list Z) (acc : list (Z * V)) :
  NoDup (JsMap.keys acc ++ ns) ->
  fold_left (fun c n => JsMap.set n (f n) c) ns acc
  = acc ++ map (fun n => (n, f n)) ns.
Proof.
  revert acc. induction ns as [|n ns IH]; intros acc Hnd; cbn.
  - now rewrite app_nil_r.
  - assert (JsMap.set n (f n) acc = acc ++ [(n, f n)]) as ->.
    { apply NoDup_app in Hnd as (_ & Hdis & _).
      assert (n ∉ JsMap.keys acc) as Hn.
      { intros Hin. apply (Hdis n Hin). now left. }
      clear -Hn. unfold JsMap.keys in Hn.
      induction acc as [|[k v] r IHr]; [reflexivity|].
      cbn in *. apply not_elem_of_cons in Hn as [Hne Hn].
      rewrite decide_False by congruence. now rewrite IHr. }
    rewrite IH.
    + now rewrite <- app_assoc.
    + unfold JsMap.keys in *. rewrite map_app. cbn.
      rewrite <- app_assoc. exact Hnd.
Qed.

(** The composite map lists 1..49 in ascending order. *)
Lemma composite_entries strategy recentDraws :
  exists f, Strategies.composite strategy recentDraws
            = map (fun n => (n, f n)) Strategies.ALL_NUMBERS.
Proof.
  eexists. unfold Strategies.composite.
  rewrite fold_set_fresh; [reflexivity|]. apply NoDup_seqZ.
Qed.

Lemma composite_keys strategy recentDraws :
  JsMap.keys (Strategies.composite strategy recentDraws) = Strategies.ALL_NUMBERS.
Proof.
  destruct (composite_entries strategy recentDraws) as [f ->].
  unfold JsMap.keys. rewrite map_map. cbn. apply map_id.
Qed.

Lemma composite_overAllNumbers strategy recentDraws :
  overAllNumbers (Strategies.composite strategy recentDraws).
Proof. unfold overAllNumbers. now rewrite composite_keys. Qed.

Lemma composite_ascending strategy recentDraws :
  StronglySorted (fun a b => fst a < fst b)
                 (Strategies.composite strategy recentDraws).
Proof.
  destruct (composite_entries strategy recentDraws) as [f ->].
  apply (StronglySorted_fmap _ Z.lt (fun a b : Z * Q => fst a < fst b)).
  - intros x y Hxy. exact Hxy.
  - apply seqZ_increasing.
Qed.

Lemma byScore_flip x y :
  Strategies.byScoreDescending x y = Gt -> Strategies.byScoreDescending y x = Lt.
Proof.
  unfold Strategies.byScoreDescending. rewrite <- Qgt_alt, <- Qlt_alt. auto.
Qed.

Lemma byScore_trans x y z :
  Strategies.byScoreDescending x y <> Gt ->
  Strategies.byScoreDescending y z <> Gt ->
  Strategies.byScoreDescending x z <> Gt.
Proof.
  unfold Strategies.byScoreDescending. rewrite <- !Qle_alt.
  intros Hxy Hyz. now apply (Qle_trans _ (snd y)).
Qed.

(** Sorting a map whose entries stand in ascending key order gives the
    score order. *)
Lemma sortedByScore_order scores :
  StronglySorted (fun a b => fst a < fst b) scores ->
  StronglySorted scoreOrder (Strategies.sortedByScore scores).
Proof.
  intros Hs.
  apply (StronglySorted_weaken
           (before Strategies.byScoreDescending (fun a b => fst a < fst b))).
  - intros a b [Hlt|[Heq Hab]]; unfold Strategies.byScoreDescending in *.
    + left. now rewrite <- Qlt_alt in Hlt.
    + right. rewrite <- Qeq_alt in Heq. split; [now symmetry|exact Hab].
  - apply sort_sorted; [exact byScore_flip|exact byScore_trans|exact Hs].
Qed.

(** For any map, the sorted candidates descend by score. *)
Lemma sortedByScore_descending scores :
  StronglySorted (fun a b => (snd b <= snd a)%Q) (Strategies.sortedByScore scores).
Proof.
  apply (StronglySorted_weaken
           (before Strategies.byScoreDescending (fun _ _ => True))).
  - intros a b [Hlt|[Heq _]]; unfold Strategies.byScoreDescending in *.
    + rewrite <- Qlt_alt in Hlt. now apply Qlt_le_weak.
    + rewrite <- Qeq_alt in Heq. rewrite Heq. apply Qle_refl.
  - apply sort_sorted;
      [exact byScore_flip|exact byScore_trans|apply StronglySorted_any].
Qed.

Lemma scoreOrder_asym a b : scoreOrder a b -> scoreOrder b a -> False.
Proof.
  unfold scoreOrder. intros [H1|[H1 H1']] [H2|[H2 H2']].
  - apply (Qlt_irrefl (snd a)). now apply (Qlt_trans _ (snd b)).
  - rewrite H2 in H1. now apply Qlt_irrefl in H1.
  - rewrite H1 in H2. now apply Qlt_irrefl in H2.
  - lia.
Qed.

(** ** StrategyEngine: the two selection loops *)

Lemma filter_length_zero {A} (P : A -> Prop) `{forall x, Decision (P x)} l :
  length (filter P l) = 0%nat <-> Forall (fun x => ~ P x) l.
Proof.
  induction l as [|x r IH]; [split; [constructor|reflexivity]|].
  rewrite filter_cons, Forall_cons. destruct (decide (P x)); cbn.
  - split; [discriminate|tauto].
  - rewrite IH. tauto.
Qed.

Lemma filter_length_all {A} (P : A -> Prop) `{forall x, Decision (P x)} l :
  length (filter P l) = length l <-> Forall P l.
Proof.
  induction l as [|x r IH]; [split; [constructor|reflexivity]|].
  rewrite filter_cons, Forall_cons. pose proof (length_filter P r).
  destruct (decide (P x)); cbn.
  - rewrite <- IH. split; [intros [=]; tauto|intros [_ ->]; reflexivity].
  - split; [lia|tauto].
Qed.

Section SelectionFacts.
Import Strategies.
Implicit Types (sorted selected : list (Z * Q)) (item : Z * Q).

Lemma skips_spec selected item :
  skips selected item = true <->
  (3 <= length selected)%nat
  /\ (allEven (selected ++ [item]) \/ allOdd (selected ++ [item])).
Proof.
  unfold skips, allEven, allOdd.
  rewrite andb_true_iff, orb_true_iff, Nat.leb_le, !Nat.eqb_eq.
  rewrite filter_length_zero, filter_length_all, !Forall_fmap.
  rewrite length_map, length_app. cbn [length].
  assert (forall l : list (Z * Q),
             Forall ((fun n => ~ Is_true (isOdd n)) ∘ fst) l
             <-> Forall (fun e => isOdd (fst e) = false) l) as ->.
  { intros l. apply Forall_proper; [|reflexivity]. intros e. cbn.
    destruct (isOdd (fst e)); cbn; intuition congruence. }
  assert (forall l : list (Z * Q),
             Forall ((fun n => Is_true (isOdd n)) ∘ fst) l
             <-> Forall (fun e => isOdd (fst e) = true) l) as ->.
  { intros l. apply Forall_proper; [|reflexivity]. intros e. cbn.
    destruct (isOdd (fst e)); cbn; intuition congruence. }
  split; intros [? ?]; (split; [lia|assumption]).
Qed.

Lemma skips_short selected item :
  (length selected < 3)%nat -> skips selected item = false.
Proof.
  intros Hlen. apply not_true_is_false. rewrite skips_spec. lia.
Qed.

Lemma not_allEven selected : ~ allEven selected -> hasOdd selected.
Proof.
  unfold allEven, hasOdd. intros Hn.
  apply not_Forall_Exists in Hn; [|intros e; apply _].
  eapply Exists_impl; [exact Hn|]. intros e. cbn.
  now destruct (isOdd (fst e)).
Qed.

Lemma not_allOdd selected : ~ allOdd selected -> hasEven selected.
Proof.
  unfold allOdd, hasEven. intros Hn.
  apply not_Forall_Exists in Hn; [|intros e; apply _].
  eapply Exists_impl; [exact Hn|]. intros e. cbn.
  now destruct (isOdd (fst e)).
Qed.

Lemma hasOdd_not_allEven selected : hasOdd selected -> ~ allEven selected.
Proof.
  unfold hasOdd, allEven. rewrite Exists_exists, Forall_forall.
  intros (e & He & Hodd) Hall. specialize (Hall e He). congruence.
Qed.

Lemma hasEven_not_allOdd selected : hasEven selected -> ~ allOdd selected.
Proof.
  unfold hasEven, allOdd. rewrite Exists_exists, Forall_forall.
  intros (e & He & Hodd) Hall. specialize (Hall e He). congruence.
Qed.

Lemma hasOdd_app selected item : hasOdd selected -> hasOdd (selected ++ [item]).
Proof. unfold hasOdd. rewrite Exists_app. tauto. Qed.

Lemma hasEven_app selected item : hasEven selected -> hasEven (selected ++ [item]).
Proof. unfold hasEven. rewrite Exists_app. tauto. Qed.

(** A selection with both parities accepts every candidate. *)
Lemma skips_mixed selected item :
  hasOdd selected -> hasEven selected -> skips selected item = false.
Proof.
  intros Ho He. apply not_true_is_false. rewrite skips_spec.
  intros [_ [Hall|Hall]].
  - now apply (hasOdd_not_allEven (selected ++ [item])); [apply hasOdd_app|].
  - now apply (hasEven_not_allOdd (selected ++ [item])); [apply hasEven_app|].
Qed.

Lemma firstPass_cons sorted selected item :
  firstPass (item :: sorted) selected
  = if (length selected =? 6)%nat then selected
    else if skips selected item then firstPass sorted selected
         else firstPass sorted (selected ++ [item]).
Proof. reflexivity. Qed.

Lemma firstPass_full sorted selected :
  length selected = 6%nat -> firstPass sorted selected = selected.
Proof.
  intros Hlen. destruct sorted; [reflexivity|].
  rewrite firstPass_cons, Hlen. reflexivity.
Qed.

(** The running selection after a prefix of the candidates is the first
    pass over that prefix. *)
Lemma firstPass_app sorted1 sorted2 selected :
  firstPass (sorted1 ++ sorted2) selected
  = firstPass sorted2 (firstPass sorted1 selected).
Proof.
  revert selected. induction sorted1 as [|item r IH]; intros selected;
    [reflexivity|].
  rewrite <- app_comm_cons, !firstPass_cons.
  destruct (Nat.eqb_spec (length selected) 6) as [Hlen|_];
    [now rewrite firstPass_full|].
  destruct (skips selected item); apply IH.
Qed.

(** The first pass appends candidates in candidate order. *)
Lemma firstPass_sublist sorted selected :
  exists t, firstPass sorted selected = selected ++ t /\ t `sublist_of` sorted.
Proof.
  revert selected. induction sorted as [|item r IH]; intros selected.
  - exists []. cbn. now rewrite app_nil_r.
  - rewrite firstPass_cons.
    destruct (length selected =? 6)%nat.
    { exists []. rewrite app_nil_r. split; [reflexivity|apply sublist_nil_l]. }
    destruct (skips selected item).
    + destruct (IH selected) as (t & -> & Ht).
      exists t. split; [reflexivity|now apply sublist_cons_r; left].
    + destruct (IH (selected ++ [item])) as (t & -> & Ht).
      exists (item :: t). rewrite <- app_assoc. split; [reflexivity|].
      now apply sublist_skip.
Qed.

Lemma firstPass_length sorted selected :
  (length selected <= 6)%nat -> (length (firstPass sorted selected) <= 6)%nat.
Proof.
  revert selected. induction sorted as [|item r IH]; intros selected Hlen;
    [exact Hlen|].
  rewrite firstPass_cons.
  destruct (Nat.eqb_spec (length selected) 6) as [|Hne]; [exact Hlen|].
  destruct (skips selected item); apply IH; [exact Hlen|].
  rewrite length_app. cbn. lia.
Qed.

(** The first pass keeps every selection of four or more diverse. *)
Lemma firstPass_diverse sorted selected :
  diverse selected -> diverse (firstPass sorted selected).
Proof.
  revert selected. induction sorted as [|item r IH]; intros selected Hd;
    [exact Hd|].
  rewrite firstPass_cons.
  destruct (length selected =? 6)%nat; [exact Hd|].
  destruct (skips selected item) eqn:Hskip; apply IH; [exact Hd|].
  intros Hlen. rewrite length_app in Hlen. cbn in Hlen.
  assert (~ (allEven (selected ++ [item]) \/ allOdd (selected ++ [item])))
    as Hmix.
  { intros Hall. assert (skips selected item = true) as Ht; [|congruence].
    apply skips_spec. split; [lia|exact Hall]. }
  split; [apply not_allEven|apply not_allOdd]; tauto.
Qed.

Lemma firstPass_mixed sorted selected :
  hasOdd selected -> hasEven selected -> (length selected <= 6)%nat ->
  firstPass sorted selected = selected ++ take (6 - length selected) sorted.
Proof.
  revert selected. induction sorted as [|item r IH]; intros selected Ho He Hlen.
  - cbn. now rewrite take_nil, app_nil_r.
  - rewrite firstPass_cons.
    destruct (Nat.eqb_spec (length selected) 6) as [->|Hne].
    { cbn. now rewrite app_nil_r. }
    rewrite skips_mixed by assumption.
    rewrite IH; [|now apply hasOdd_app|now apply hasEven_app|].
    + rewrite length_app. cbn [length].
      replace (6 - length selected)%nat with (S (6 - (length selected + 1)))
        by lia.
      cbn [take]. now rewrite <- app_assoc.
    + rewrite length_app. cbn. lia.
Qed.
(** The first three candidates are accepted whatever their parity. *)
Lemma firstPass_start a b c sorted :
  firstPass (a :: b :: c :: sorted) [] = firstPass sorted [a; b; c].
Proof.
  rewrite firstPass_cons. cbn [length Nat.eqb].
  rewrite skips_short by (cbn; lia). cbn [app].
  rewrite firstPass_cons. cbn [length Nat.eqb].
  rewrite skips_short by (cbn; lia). cbn [app].
  rewrite firstPass_cons. cbn [length Nat.eqb].
  rewrite skips_short by (cbn; lia). reflexivity.
Qed.

(** Three selected numbers of one parity [p]: candidates of parity [p]
    are passed over until one of the other parity comes, and the two
    candidates after it complete the selection. *)
Lemma firstPass_oneParity (p : bool) sorted selected :
  length selected = 3%nat ->
  Forall (fun e => isOdd (fst e) = p) selected ->
  (3 <= length (filter (fun e => isOdd (fst e) <> p) sorted))%nat ->
  length (firstPass sorted selected) = 6%nat.
Proof.
  intros Hlen Hsel. induction sorted as [|item r IH]; intros Hcount.
  - cbn in Hcount. lia.
  - rewrite firstPass_cons, Hlen. cbn [Nat.eqb].
    rewrite filter_cons in Hcount.
    destruct (decide (isOdd (fst item) <> p)) as [Hne|Heq].
    + assert (hasOdd (selected ++ [item]) /\ hasEven (selected ++ [item]))
        as [Ho He].
      { destruct selected as [|e sel']; [discriminate|].
        apply Forall_cons in Hsel as [He _].
        unfold hasOdd, hasEven. rewrite !Exists_app, !Exists_cons.
        destruct p, (isOdd (fst item)) eqn:Hi; try congruence;
          split; auto. }
      assert (skips selected item = false) as ->.
      { apply not_true_is_false. rewrite skips_spec. intros [_ [Hall|Hall]].
        - now apply (hasOdd_not_allEven _ Ho).
        - now apply (hasEven_not_allOdd _ He). }
      rewrite firstPass_mixed; [|assumption|assumption|].
      * cbn [length] in Hcount. pose proof (length_filter
          (fun e : Z * Q => isOdd (fst e) <> p) r).
        rewrite !length_app, length_take, Hlen. cbn [length]. lia.
      * rewrite length_app, Hlen. cbn. lia.
    + assert (skips selected item = true) as ->; [|now apply IH].
      apply skips_spec. split; [lia|].
      apply dec_stable in Heq. unfold allEven, allOdd.
      rewrite !Forall_app, !Forall_singleton.
      destruct p; [right|left]; (split; [exact Hsel|exact Heq]).
Qed.

Lemma parity_counts sorted :
  JsMap.keys sorted ≡ₚ ALL_NUMBERS ->
  length (filter (fun e => isOdd (fst e) <> false) sorted) = 25%nat
  /\ length (filter (fun e => isOdd (fst e) <> true) sorted) = 24%nat.
Proof.
  intros Hperm. unfold JsMap.keys in Hperm.
  assert (forall (p : bool) (l : list (Z * Q)),
             length (filter (fun e => isOdd (fst e) <> p) l)
             = length (filter (fun n => isOdd n <> p) (map fst l))) as Hmap.
  { intros p l. induction l as [|e l IH]; [reflexivity|].
    cbn [map]. rewrite !filter_cons.
    destruct (decide (isOdd (fst e) <> p)); cbn; now rewrite IH. }
  rewrite !Hmap, Hperm. split; reflexivity.
Qed.

(** Over 1..49 the first pass alone selects six numbers. *)
Lemma firstPass_complete sorted :
  JsMap.keys sorted ≡ₚ ALL_NUMBERS -> length (firstPass sorted []) = 6%nat.
Proof.
  intros Hperm. destruct (parity_counts sorted Hperm) as [Hodd Heven].
  assert (length sorted = 49%nat) as Hlen.
  { rewrite <- (length_map fst). unfold JsMap.keys in Hperm.
    now rewrite Hperm. }
  destruct sorted as [|a [|b [|c rest]]]; try discriminate.
  rewrite firstPass_start.
  rewrite !filter_cons in Hodd, Heven.
  destruct (isOdd (fst a)) eqn:Ha, (isOdd (fst b)) eqn:Hb,
           (isOdd (fst c)) eqn:Hc;
    repeat (destruct (decide _) as [?|?] in Hodd; try congruence);
    repeat (destruct (decide _) as [?|?] in Heven; try congruence);
    cbn [length] in Hodd, Heven;
    first
      [ apply (firstPass_oneParity true);
        [reflexivity|repeat constructor; assumption|lia]
      | apply (firstPass_oneParity false);
        [reflexivity|repeat constructor; assumption|lia]
      | rewrite firstPass_mixed;
        [ cbn [length] in *; rewrite length_app, length_take; cbn [length]; lia
        | unfold hasOdd; rewrite !Exists_cons; tauto
        | unfold hasEven; rewrite !Exists_cons; tauto
        | cbn; lia ] ].
Qed.
Lemma picked_spec selected n :
  picked selected n = true <-> n ∈ JsMap.keys selected.
Proof.
  unfold picked, JsMap.keys. rewrite existsb_exists, list_elem_of_fmap.
  setoid_rewrite <- list_elem_of_In. split.
  - intros (e & He & Heq%Z.eqb_eq). now exists e.
  - intros (e & -> & He). exists e. now rewrite Z.eqb_refl.
Qed.

Lemma fillPass_full turns sorted selected :
  (6 <= length selected)%nat -> fillPass turns sorted selected = selected.
Proof.
  intros Hlen. destruct turns; [reflexivity|]. cbn [fillPass].
  destruct (Nat.ltb_spec (length selected) 6); [lia|reflexivity].
Qed.

(** The fill stage appends candidates, never removes a selected one. *)
Lemma fillPass_prefix turns sorted selected :
  exists t, fillPass turns sorted selected = selected ++ t
            /\ Forall (fun e => e ∈ sorted) t.
Proof.
  revert selected. induction turns as [|turns IH]; intros selected.
  - exists []. cbn. now rewrite app_nil_r.
  - cbn [fillPass]. destruct (length selected <? 6)%nat;
      [|exists []; now rewrite app_nil_r].
    destruct (find _ sorted) as [fallback|] eqn:Hfind;
      [|exists []; now rewrite app_nil_r].
    destruct (IH (selected ++ [fallback])) as (t & -> & Ht).
    exists (fallback :: t). rewrite <- app_assoc. split; [reflexivity|].
    constructor; [|exact Ht].
    apply find_some in Hfind as [Hin _]. now apply list_elem_of_In.
Qed.

(** The fill stage stops short of six only when every candidate, a
    passed-over one included, has been selected. *)
Lemma fillPass_exhausts turns sorted selected :
  (6 <= length selected + turns)%nat ->
  (length (fillPass turns sorted selected) < 6)%nat ->
  forall e, e ∈ sorted -> fst e ∈ JsMap.keys (fillPass turns sorted selected).
Proof.
  revert selected. induction turns as [|turns IH]; intros selected Hturns Hshort.
  - cbn in Hshort. lia.
  - cbn [fillPass] in *. destruct (Nat.ltb_spec (length selected) 6);
      [|lia].
    destruct (find _ sorted) as [fallback|] eqn:Hfind.
    + apply IH; [|exact Hshort]. rewrite length_app. cbn. lia.
    + intros e He. apply list_elem_of_In in He.
      pose proof (find_none _ _ Hfind e He) as Hp. cbn in Hp.
      apply negb_false_iff in Hp. now apply picked_spec.
Qed.

(** At six selected numbers the fill stage has nothing to do. *)
Lemma selectSix_firstPass scores :
  length (firstPass (sortedByScore scores) []) = 6%nat ->
  selectSix scores = firstPass (sortedByScore scores) [].
Proof. intros Hlen. unfold selectSix. apply fillPass_full. lia. Qed.

Lemma selectSix_start scores :
  take 3 (selectSix scores) = take 3 (sortedByScore scores).
Proof.
  unfold selectSix. set (sorted := sortedByScore scores).
  destruct sorted as [|a [|b [|c rest]]].
  - reflexivity.
  - cbn. now rewrite Z.eqb_refl.
  - cbn. rewrite !Z.eqb_refl. cbn. rewrite orb_true_r. reflexivity.
  - rewrite firstPass_start.
    destruct (firstPass_sublist rest [a; b; c]) as (t & -> & _).
    destruct (fillPass_prefix 6 (a :: b :: c :: rest) ([a; b; c] ++ t))
      as (t' & -> & _).
    reflexivity.
Qed.

Lemma imap_offset {A B} (f : nat -> A -> B) (k : nat) (l : list A) :
  imap (fun i => f (k + i)%nat) l
  = zip_with f (seq k (length l)) l.
Proof.
  revert k. induction l as [|x l IH]; intros k; [reflexivity|].
  cbn [imap length seq zip_with]. rewrite Nat.add_0_r. f_equal.
  rewrite <- IH. apply imap_ext. intros i y _. cbn. f_equal. lia.
Qed.

Lemma pickTopSix_zip scores reasonPrefix :
  pickTopSix scores reasonPrefix
  = zip_with (fun index '(n, sc) =>
                {| number := n; rank := Z.of_nat index + 1; score := sc;
                   reason := reasonPrefix +:+ " score=" +:+ toFixed 4 sc |})
             (seq 0 (length (selectSix scores))) (selectSix scores).
Proof. unfold pickTopSix. now rewrite <- imap_offset. Qed.

Lemma pickTopSix_lookup scores reasonPrefix i p :
  pickTopSix scores reasonPrefix !! i = Some p <->
  selectSix scores !! i = Some (entryOf p)
  /\ rank p = Z.of_nat i + 1
  /\ reason p = reasonPrefix +:+ " score=" +:+ toFixed 4 (score p).
Proof.
  unfold pickTopSix. rewrite list_lookup_imap.
  destruct (selectSix scores !! i) as [[n sc]|]; cbn.
  - split.
    + intros [= <-]. cbn. auto.
    + intros ([= -> ->] & Hr & Hre). destruct p as [n r sc re].
      cbn in *. now subst.
  - split; [discriminate|]. intros [[=] _].
Qed.

Lemma pickTopSix_entries scores reasonPrefix :
  map entryOf (pickTopSix scores reasonPrefix) = selectSix scores.
Proof.
  apply list_eq. intros i. rewrite list_lookup_fmap.
  destruct (pickTopSix scores reasonPrefix !! i) as [p|] eqn:Hp.
  - apply pickTopSix_lookup in Hp as (Hs & _). now rewrite Hs.
  - unfold pickTopSix in Hp. rewrite list_lookup_imap in Hp.
    destruct (selectSix scores !! i); [discriminate|reflexivity].
Qed.

Lemma pickTopSix_length scores reasonPrefix :
  length (pickTopSix scores reasonPrefix) = length (selectSix scores).
Proof. unfold pickTopSix. apply length_imap. Qed.
End SelectionFacts.

Lemma StronglySorted_lookup {A} (R : A -> A -> Prop) (l : list A) i j x y :
  StronglySorted R l -> l !! i = Some x -> l !! j = Some y -> (i < j)%nat ->
  R x y.
Proof.
  intros Hs. revert i j. induction Hs as [|a l Hl IH Ha]; intros i j Hi Hj Hij.
  - discriminate.
  - destruct j as [|j]; [lia|]. destruct i as [|i]; cbn in Hi, Hj.
    + injection Hi as <-. rewrite Forall_forall in Ha. apply Ha.
      eapply list_elem_of_lookup_2, Hj.
    + apply (IH i j); [assumption..|lia].
Qed.

Lemma StronglySorted_sublist {A} (R : A -> A -> Prop) (l k : list A) :
  l `sublist_of` k -> StronglySorted R k -> StronglySorted R l.
Proof.
  induction 1 as [|x l k Hlk IH|x l k Hlk IH]; intros Hs.
  - constructor.
  - apply StronglySorted_inv in Hs as [Hk Hx]. constructor; [auto|].
    rewrite Forall_forall in *. intros y Hy. apply Hx.
    eapply elem_of_sublist; eassumption.
  - apply StronglySorted_inv in Hs as [Hk _]. auto.
Qed.

Lemma StronglySorted_keys (scores : list (Z * Q)) :
  StronglySorted Z.lt (JsMap.keys scores) ->
  StronglySorted (fun a b => fst a < fst b) scores.
Proof.
  unfold JsMap.keys. induction scores as [|e r IH]; cbn; intros Hs;
    [constructor|].
  apply StronglySorted_inv in Hs as [Hr He]. constructor; [auto|].
  now rewrite Forall_fmap in He.
Qed.

(** In a list in score order, a candidate stands before every candidate
    it is ordered before. *)
Lemma scoreOrder_precedes (sorted : list (Z * Q)) x y :
  StronglySorted scoreOrder sorted -> x ∈ sorted -> y ∈ sorted ->
  scoreOrder x y ->
  exists l1 l2 l3, sorted = l1 ++ x :: l2 ++ y :: l3.
Proof.
  intros Hs Hx Hy Hxy.
  apply list_elem_of_split in Hx as (l1 & r & ->).
  apply StronglySorted_app in Hs as (Hcross & _ & Hr).
  apply StronglySorted_inv in Hr as [_ Hxr].
  apply elem_of_app in Hy as [Hy|Hy].
  - exfalso. apply (scoreOrder_asym x y Hxy). apply Hcross; [exact Hy|now left].
  - apply elem_of_cons in Hy as [->|Hy].
    + exfalso. exact (scoreOrder_asym x x Hxy Hxy).
    + apply list_elem_of_split in Hy as (l2 & l3 & ->). now exists l1, l2, l3.
Qed.

(** C10: the picks at ranks 1, 2 and 3 are the first three candidates of
    the sorted order, the parity pass touching only later ranks, and the
    pick at rank 1 carries a score no candidate exceeds. *)
Theorem first_three_picks_are_top_candidates
    (scores : list (Z * Q)) (reasonPrefix : string) :
  let picks := Strategies.pickTopSix scores reasonPrefix in
  map entryOf (take 3 picks) = take 3 (Strategies.sortedByScore scores)
  /\ (forall i p, picks !! i = Some p -> rank p = Z.of_nat i + 1)
  /\ (forall p, head picks = Some p ->
        forall e, e ∈ scores -> (snd e <= score p)%Q).
Proof.
  intros picks. split; [|split].
  - change (entryOf <$> take 3 picks = take 3 (Strategies.sortedByScore scores)).
    rewrite fmap_take. unfold picks.
    change (take 3 (map entryOf (Strategies.pickTopSix scores reasonPrefix))
            = take 3 (Strategies.sortedByScore scores)).
    rewrite pickTopSix_entries. apply selectSix_start.
  - intros i p Hp. now apply pickTopSix_lookup in Hp.
  - intros p Hp e He. rewrite head_lookup in Hp.
    apply pickTopSix_lookup in Hp as (Hsel & _).
    assert (take 3 (Strategies.selectSix scores) !! 0%nat = Some (entryOf p))
      as Htop by (rewrite lookup_take_lt by lia; exact Hsel).
    rewrite selectSix_start, lookup_take_lt in Htop by lia.
    pose proof (sortedByScore_descending scores) as Hs.
    apply (sort_elem_of Strategies.byScoreDescending) in He.
    fold (Strategies.sortedByScore scores) in He.
    destruct (Strategies.sortedByScore scores) as [|top rest]; [discriminate|].
    injection Htop as ->. apply StronglySorted_inv in Hs as [_ Hall].
    apply elem_of_cons in He as [->|He]; [apply Qle_refl|].
    rewrite Forall_forall in Hall. exact (Hall e He).
Qed.

Lemma sortedByScore_keys scores :
  overAllNumbers scores ->
  JsMap.keys (Strategies.sortedByScore scores) ≡ₚ Strategies.ALL_NUMBERS.
Proof.
  unfold overAllNumbers, JsMap.keys, Strategies.sortedByScore.
  intros <-. apply Permutation_map, sort_perm.
Qed.

(** Over 1..49 the selection is the first pass: six candidates in candidate
    order, with both parities. *)
Lemma selectSix_overAllNumbers scores :
  overAllNumbers scores ->
  length (Strategies.selectSix scores) = 6%nat
  /\ Strategies.selectSix scores `sublist_of` Strategies.sortedByScore scores
  /\ hasOdd (Strategies.selectSix scores)
  /\ hasEven (Strategies.selectSix scores).
Proof.
  intros Hall.
  pose proof (firstPass_complete _ (sortedByScore_keys _ Hall)) as Hlen.
  rewrite (selectSix_firstPass scores Hlen).
  split; [exact Hlen|]. split.
  - destruct (firstPass_sublist (Strategies.sortedByScore scores) [])
      as (t & -> & Ht). exact Ht.
  - apply (firstPass_diverse (Strategies.sortedByScore scores) []).
    + intros Hshort. cbn in Hshort. lia.
    + lia.
Qed.

Lemma pick_of_entry scores reasonPrefix e :
  e ∈ Strategies.selectSix scores ->
  exists p, p ∈ Strategies.pickTopSix scores reasonPrefix /\ entryOf p = e.
Proof.
  rewrite <- (pickTopSix_entries scores reasonPrefix).
  intros (p & -> & Hp)%list_elem_of_fmap. now exists p.
Qed.

(** C4: the first pass passes over a candidate exactly when accepting it
    would make a selection of four or more all even or all odd, so no
    running selection of four or more is of one parity; a candidate passed
    over stays eligible for the fill stage, which only stops short of six
    when every candidate is selected; over 1..49 the six picks hold an odd
    and an even number, so an all-even top six is never the selection. *)
Theorem parity_guard_defers_candidates (reasonPrefix : string) :
  (forall selected item,
      Strategies.skips selected item = true <->
      (4 <= length (selected ++ [item]))%nat
      /\ (allEven (selected ++ [item]) \/ allOdd (selected ++ [item])))
  /\ (forall visited rest,
         Strategies.firstPass (visited ++ rest) []
         = Strategies.firstPass rest (Strategies.firstPass visited [])
         /\ diverse (Strategies.firstPass visited []))
  /\ (forall scores,
         (length (Strategies.selectSix scores) < 6)%nat ->
         forall e, e ∈ scores ->
                   fst e ∈ JsMap.keys (Strategies.selectSix scores))
  /\ map number
         (Strategies.pickTopSix
            [(2, 1%Q); (4, 1%Q); (6, 1%Q); (8, 1%Q); (10, 1%Q); (12, 1%Q);
             (14, 1%Q)] reasonPrefix)
     = [2; 4; 6; 8; 10; 12]
  /\ (forall scores,
         overAllNumbers scores ->
         (exists p, p ∈ Strategies.pickTopSix scores reasonPrefix
                    /\ Strategies.isOdd (number p) = true)
         /\ (exists p, p ∈ Strategies.pickTopSix scores reasonPrefix
                       /\ Strategies.isOdd (number p) = false))
  /\ (forall scores,
         overAllNumbers scores ->
         allEven (take 6 (Strategies.sortedByScore scores)) ->
         exists p, p ∈ Strategies.pickTopSix scores reasonPrefix
                   /\ Strategies.isOdd (number p) = true
                   /\ entryOf p ∉ take 6 (Strategies.sortedByScore scores)).
Proof.
  assert (forall scores,
         overAllNumbers scores ->
         (exists p, p ∈ Strategies.pickTopSix scores reasonPrefix
                    /\ Strategies.isOdd (number p) = true)
         /\ (exists p, p ∈ Strategies.pickTopSix scores reasonPrefix
                       /\ Strategies.isOdd (number p) = false)) as Hboth.
  { intros scores Hall.
    destruct (selectSix_overAllNumbers scores Hall) as (_ & _ & Ho & He).
    unfold hasOdd, hasEven in Ho, He. rewrite Exists_exists in Ho, He.
    destruct Ho as (eo & Heo & Hodd), He as (ee & Hee & Heven).
    destruct (pick_of_entry scores reasonPrefix eo Heo) as (po & Hpo & <-).
    destruct (pick_of_entry scores reasonPrefix ee Hee) as (pe & Hpe & <-).
    split; [now exists po|now exists pe]. }
  split; [|split; [|split; [|split; [|split]]]].
  - intros selected item. rewrite skips_spec, length_app. cbn [length].
    split; intros [? ?]; (split; [lia|assumption]).
  - intros visited rest. split; [apply firstPass_app|].
    apply firstPass_diverse. intros Hshort. cbn in Hshort. lia.
  - intros scores Hshort e He. unfold Strategies.selectSix in *.
    apply fillPass_exhausts; [lia|exact Hshort|].
    now apply sort_elem_of.
  - reflexivity.
  - exact Hboth.
  - intros scores Hall Heven.
    destruct (Hboth scores Hall) as [(p & Hp & Hodd) _].
    exists p. split; [exact Hp|]. split; [exact Hodd|].
    intros Hin. unfold allEven in Heven. rewrite Forall_forall in Heven.
    specialize (Heven _ Hin). cbn in Heven. congruence.
Qed.

Lemma parity_guard_defers_candidates_witness :
  let scores :=
    Strategies.composite hot_v1 [exampleNumbers [2; 4; 6; 8; 10; 12]] in
  exists p, p ∈ Strategies.pickTopSix scores "hot"
            /\ Strategies.isOdd (number p) = true
            /\ entryOf p ∉ take 6 (Strategies.sortedByScore scores).
Proof.
  intros scores.
  apply (proj2 (proj2 (proj2 (proj2 (proj2
           (parity_guard_defers_candidates "hot")))))).
  - unfold overAllNumbers. vm_compute. reflexivity.
  - unfold allEven. vm_compute. repeat constructor.
Defined.

Lemma sublist_map {A B} (f : A -> B) (l k : list A) :
  l `sublist_of` k -> map f l `sublist_of` map f k.
Proof.
  induction 1; cbn; [constructor|now apply sublist_skip|now apply sublist_cons].
Qed.

(** C9: for a score map over 1..49 the candidates stand in descending score
    order, two numbers of equal score in ascending number order: the smaller
    precedes the larger among the candidates and, when both are picked, has
    the better rank; the picks depend on nothing but the numbers drawn in
    the window. *)
Theorem equal_scores_rank_by_number
    (scores : list (Z * Q)) (reasonPrefix : string) :
  JsMap.keys scores = Strategies.ALL_NUMBERS ->
  let sorted := Strategies.sortedByScore scores in
  let picks := Strategies.pickTopSix scores reasonPrefix in
  StronglySorted scoreOrder sorted
  /\ (forall a b sa sb,
         (a, sa) ∈ scores -> (b, sb) ∈ scores -> (sa == sb)%Q -> a < b ->
         exists l1 l2 l3, sorted = l1 ++ (a, sa) :: l2 ++ (b, sb) :: l3)
  /\ StronglySorted scoreOrder (map entryOf picks)
  /\ (forall p q,
         p ∈ picks -> q ∈ picks ->
         (score p == score q)%Q -> number p < number q -> rank p < rank q)
  /\ (forall id window1 window2,
         JsMap.keys (Strategies.composite id window1) = Strategies.ALL_NUMBERS
         /\ (window1 = window2 ->
             Strategies.generateStrategyResult id window1
             = Strategies.generateStrategyResult id window2)).
Proof.
  intros Hkeys sorted picks.
  assert (StronglySorted scoreOrder sorted) as Hsorted.
  { apply sortedByScore_order, StronglySorted_keys.
    rewrite Hkeys. apply seqZ_increasing. }
  assert (overAllNumbers scores) as Hall
    by (unfold overAllNumbers; now rewrite Hkeys).
  destruct (selectSix_overAllNumbers scores Hall) as (_ & Hsub & _ & _).
  assert (StronglySorted scoreOrder (map entryOf picks)) as Hpicks.
  { unfold picks. rewrite pickTopSix_entries.
    exact (StronglySorted_sublist _ _ _ Hsub Hsorted). }
  split; [exact Hsorted|]. split; [|split; [exact Hpicks|split]].
  - intros a b sa sb Ha Hb Heq Hab.
    apply scoreOrder_precedes; [exact Hsorted|now apply sort_elem_of..|].
    right. cbn. now split.
  - intros p q Hp Hq Heq Hlt.
    apply list_elem_of_lookup in Hp as [i Hi], Hq as [j Hj].
    assert (rank p = Z.of_nat i + 1 /\ rank q = Z.of_nat j + 1) as [-> ->].
    { unfold picks in Hi, Hj.
      apply pickTopSix_lookup in Hi as (_ & ? & _), Hj as (_ & ? & _). auto. }
    assert (scoreOrder (entryOf p) (entryOf q)) as Hpq
      by (right; cbn; now split).
    assert (map entryOf picks !! i = Some (entryOf p)
            /\ map entryOf picks !! j = Some (entryOf q)) as [Hi' Hj'].
    { change (map entryOf picks) with (entryOf <$> picks).
      now rewrite !list_lookup_fmap, Hi, Hj. }
    destruct (Nat.lt_trichotomy i j) as [Hij|[->|Hji]]; [lia| |].
    + rewrite Hi in Hj. injection Hj as ->. lia.
    + exfalso. apply (scoreOrder_asym _ _ Hpq).
      exact (StronglySorted_lookup _ _ j i _ _ Hpicks Hj' Hi' Hji).
  - intros id window1 window2. split; [apply composite_keys|now intros ->].
Qed.

Lemma equal_scores_rank_by_number_witness :
  let scores := Strategies.composite balanced_v1 [] in
  let picks := Strategies.pickTopSix scores "balanced" in
  StronglySorted scoreOrder (map entryOf picks)
  /\ map number picks = [1; 2; 3; 4; 5; 6].
Proof.
  intros scores picks. split; [|vm_compute; reflexivity].
  apply (equal_scores_rank_by_number scores "balanced").
  vm_compute. reflexivity.
Defined.

(** C3: for each of the four strategies and any history, the result has
    exactly six picks, ranked 1 to 6 in selection order, on six different
    numbers of 1..49, each with its composite score and the reason text
    "<strategy name> score=<score to four decimals>"; draws after the
    80 most recent do not matter. *)
Theorem generateStrategyResult_six_ranked_picks
    (id : StrategyId) (recentDraws : list Draw) :
  let result := Strategies.generateStrategyResult id recentDraws in
  let scores := Strategies.composite id (take 80 recentDraws) in
  id ∈ Strategies.allStrategies
  /\ strategy result = id
  /\ length (picks result) = 6%nat
  /\ map rank (picks result) = [1; 2; 3; 4; 5; 6]
  /\ NoDup (map number (picks result))
  /\ (forall p, p ∈ picks result ->
        1 <= number p <= 49
        /\ JsMap.get (number p) scores = Some (score p)
        /\ reason p
           = Strategies.strategyName id +:+ " score="
               +:+ Strategies.toFixed 4 (score p))
  /\ result = Strategies.generateStrategyResult id (take 80 recentDraws).
Proof.
  intros result scores.
  assert (Strategies.composite id recentDraws = scores) as Hwin.
  { unfold scores, Strategies.composite, Strategies.window.
    rewrite take_idemp. reflexivity. }
  assert (result = Strategies.generateStrategyResult id (take 80 recentDraws))
    as Hres.
  { unfold result, Strategies.generateStrategyResult.
    rewrite Hwin. reflexivity. }
  assert (picks result
          = Strategies.pickTopSix scores (Strategies.strategyName id)) as Hpicks.
  { rewrite Hres. reflexivity. }
  pose proof (composite_overAllNumbers id (take 80 recentDraws)) as Hall.
  assert (NoDup (JsMap.keys scores)) as Hnd.
  { unfold scores. rewrite composite_keys. apply NoDup_seqZ. }
  assert (strategy result = id) as Hid by reflexivity.
  fold scores in Hall. clearbody scores. clearbody result.
  destruct (selectSix_overAllNumbers scores Hall) as (Hlen & Hsub & _ & _).
  split.
  { unfold Strategies.allStrategies. rewrite !elem_of_cons.
    destruct id; auto 6. }
  split; [exact Hid|]. rewrite Hpicks.
  split; [rewrite pickTopSix_length; exact Hlen|].
  split; [|split; [|split; [|exact Hres]]].
  - apply list_eq. intros i.
    change (map rank ?l) with (rank <$> l). rewrite list_lookup_fmap.
    destruct (Strategies.pickTopSix scores _ !! i) as [p|] eqn:Hp.
    + pose proof (lookup_lt_Some _ _ _ Hp) as Hi.
      rewrite pickTopSix_length, Hlen in Hi.
      apply pickTopSix_lookup in Hp as (_ & Hr & _).
      cbn [fmap option_fmap option_map]. rewrite Hr.
      do 6 (destruct i as [|i]; [reflexivity|]). lia.
    + apply lookup_ge_None in Hp. rewrite pickTopSix_length, Hlen in Hp.
      do 6 (destruct i as [|i]; [lia|]). reflexivity.
  - assert (map number (Strategies.pickTopSix scores (Strategies.strategyName id))
            = JsMap.keys (Strategies.selectSix scores)) as ->.
    { rewrite <- (pickTopSix_entries scores (Strategies.strategyName id)).
      unfold JsMap.keys. rewrite map_map. reflexivity. }
    apply (sublist_NoDup _ (JsMap.keys (Strategies.sortedByScore scores))).
    + rewrite (sortedByScore_keys scores Hall). apply NoDup_seqZ.
    + apply sublist_map. exact Hsub.
  - intros p Hp. apply list_elem_of_lookup in Hp as [i Hi].
    apply pickTopSix_lookup in Hi as (Hsel & _ & Hre).
    apply list_elem_of_lookup_2 in Hsel.
    assert (entryOf p ∈ scores) as Hin.
    { apply (sort_elem_of Strategies.byScoreDescending).
      eapply elem_of_sublist; eassumption. }
    split; [|split; [apply get_Some; assumption|exact Hre]].
    assert (number p ∈ JsMap.keys scores) as Hk.
    { apply list_elem_of_fmap. exists (entryOf p). split; [reflexivity|exact Hin]. }
    unfold overAllNumbers in Hall. rewrite Hall in Hk.
    apply elem_of_seqZ in Hk. lia.
Qed.

(** ** StrategyEngine: normalisation *)

Lemma minOf_spec v vs :
  (forall x, x ∈ v :: vs -> (Strategies.minOf v vs <= x)%Q)
  /\ exists x, x ∈ v :: vs /\ (Strategies.minOf v vs == x)%Q.
Proof.
  unfold Strategies.minOf. revert v. induction vs as [|w vs IH]; intros v; cbn.
  - split.
    + intros x ->%list_elem_of_singleton. apply Qle_refl.
    + exists v. split; [now left|reflexivity].
  - destruct (IH (Qmin v w)) as [Hle (x & Hx & Heq)]. split.
    + intros y Hy. apply elem_of_cons in Hy as [->|Hy].
      * eapply Qle_trans; [apply Hle; now left|apply Q.le_min_l].
      * apply elem_of_cons in Hy as [->|Hy].
        -- eapply Qle_trans; [apply Hle; now left|apply Q.le_min_r].
        -- apply Hle. now right.
    + apply elem_of_cons in Hx as [->|Hx].
      * destruct (Q.min_spec v w) as [[_ Hm]|[_ Hm]].
        -- exists v. split; [now left|]. now rewrite Heq.
        -- exists w. split; [right; now left|]. now rewrite Heq.
      * exists x. split; [|exact Heq]. right. now right.
Qed.

Lemma maxOf_spec v vs :
  (forall x, x ∈ v :: vs -> (x <= Strategies.maxOf v vs)%Q)
  /\ exists x, x ∈ v :: vs /\ (Strategies.maxOf v vs == x)%Q.
Proof.
  unfold Strategies.maxOf. revert v. induction vs as [|w vs IH]; intros v; cbn.
  - split.
    + intros x ->%list_elem_of_singleton. apply Qle_refl.
    + exists v. split; [now left|reflexivity].
  - destruct (IH (Qmax v w)) as [Hle (x & Hx & Heq)]. split.
    + intros y Hy. apply elem_of_cons in Hy as [->|Hy].
      * eapply Qle_trans; [apply Q.le_max_l|apply Hle; now left].
      * apply elem_of_cons in Hy as [->|Hy].
        -- eapply Qle_trans; [apply Q.le_max_r|apply Hle; now left].
        -- apply Hle. now right.
    + apply elem_of_cons in Hx as [->|Hx].
      * destruct (Q.max_spec v w) as [[_ Hm]|[_ Hm]].
        -- exists w. split; [right; now left|]. now rewrite Heq.
        -- exists v. split; [now left|]. now rewrite Heq.
      * exists x. split; [|exact Heq]. right. now right.
Qed.

Lemma Forall2_map_diag {A B} (P : A -> B -> Prop) (f : A -> B) (l : list A) :
  Forall (fun x => P x (f x)) l -> Forall2 P l (map f l).
Proof. induction 1; cbn; constructor; assumption. Qed.

Lemma rangeOf_flat min max :
  (max - min == 0)%Q -> Strategies.rangeOf min max = 1%Q.
Proof.
  intros Heq. unfold Strategies.rangeOf.
  now rewrite (proj2 (Qeq_bool_iff _ _) Heq).
Qed.

Lemma rangeOf_spread min max :
  ~ (max - min == 0)%Q -> Strategies.rangeOf min max = (max - min)%Q.
Proof.
  intros Hne. unfold Strategies.rangeOf.
  destruct (Qeq_bool (max - min) 0) eqn:Hb; [|reflexivity].
  apply Qeq_bool_iff in Hb. contradiction.
Qed.

(** C8: normalisation keeps the keys; a map whose values are all equal is
    sent to 0 everywhere; a map with least value [lo] and greatest value
    [hi], [lo] and [hi] different, has each [v] sent to
    [(v - lo) / (hi - lo)], which lies between 0 and 1. *)
Theorem normalize_min_max (m : list (Z * Q)) :
  JsMap.keys (Strategies.normalize m) = JsMap.keys m
  /\ ((forall x y, x ∈ JsMap.values m -> y ∈ JsMap.values m -> (x == y)%Q) ->
      Forall (fun e => (snd e == 0)%Q) (Strategies.normalize m))
  /\ (forall lo hi,
         lo ∈ JsMap.values m -> hi ∈ JsMap.values m ->
         (forall x, x ∈ JsMap.values m -> (lo <= x <= hi)%Q) ->
         ~ (lo == hi)%Q ->
         Forall2 (fun e e' =>
                    fst e' = fst e
                    /\ (snd e' == (snd e - lo) / (hi - lo))%Q
                    /\ (0 <= snd e' <= 1)%Q)
                 m (Strategies.normalize m)).
Proof.
  destruct m as [|[k v] r].
  { cbn. split; [reflexivity|]. split; constructor. }
  unfold Strategies.normalize.
  change (JsMap.values ((k, v) :: r)) with (v :: map snd r).
  cbv beta iota zeta.
  set (vs := map snd r). set (m := (k, v) :: r).
  assert (JsMap.values m = v :: vs) as Hvals by reflexivity.
  destruct (minOf_spec v vs) as [Hmin (a & Ha & Hmina)].
  destruct (maxOf_spec v vs) as [Hmax (b & Hb & Hmaxb)].
  set (mn := Strategies.minOf v vs) in *.
  set (mx := Strategies.maxOf v vs) in *.
  assert (forall e, e ∈ m -> snd e ∈ v :: vs) as Hsnd.
  { intros e He. rewrite <- Hvals. apply list_elem_of_fmap. now exists e. }
  split; [|split].
  - unfold JsMap.keys. rewrite map_map. apply map_ext. now intros [k' v'].
  - intros Hflat.
    assert (mx - mn == 0)%Q as Hzero.
    { rewrite Hmina, Hmaxb, (Hflat a b Ha Hb). lra. }
    rewrite (rangeOf_flat _ _ Hzero).
    change (map ?f ?l) with (f <$> l). apply Forall_fmap, Forall_forall.
    intros [k' v'] He. cbn. specialize (Hsnd _ He). cbn in Hsnd.
    rewrite Hmina, (Hflat v' a Hsnd Ha). unfold Qdiv.
    rewrite Qmult_comm. change (/ 1)%Q with 1%Q. lra.
  - intros lo hi Hlo Hhi Hbounds Hne.
    assert (mn == lo)%Q as Hmn.
    { apply Qle_antisym; [now apply Hmin|].
      rewrite Hmina. now apply Hbounds. }
    assert (mx == hi)%Q as Hmx.
    { apply Qle_antisym; [|now apply Hmax].
      rewrite Hmaxb. now apply Hbounds. }
    assert (lo < hi)%Q as Hlt.
    { destruct (Hbounds lo Hlo) as [_ Hle].
      apply Qle_lteq in Hle as [Hl|He]; [exact Hl|contradiction]. }
    rewrite rangeOf_spread by (rewrite Hmn, Hmx; lra).
    apply Forall2_map_diag, Forall_forall. intros [k' v'] He. cbn.
    specialize (Hsnd _ He). cbn in Hsnd.
    destruct (Hbounds v' Hsnd) as [Hlov Hvhi].
    assert ((v' - mn) / (mx - mn) == (v' - lo) / (hi - lo))%Q as Heq
      by now rewrite Hmn, Hmx.
    split; [reflexivity|]. split; [exact Heq|]. rewrite Heq. split.
    + apply Qle_shift_div_l; lra.
    + apply Qle_shift_div_r; lra.
Qed.

Lemma normalize_min_max_witness :
  Forall2 (fun e e' =>
             fst e' = fst e
             /\ (snd e' == (snd e - 2) / (10 - 2))%Q
             /\ (0 <= snd e' <= 1)%Q)
          [(1, 2%Q); (2, 6%Q); (3, 10%Q)]
          (Strategies.normalize [(1, 2%Q); (2, 6%Q); (3, 10%Q)]).
Proof.
  apply (proj2 (proj2 (normalize_min_max [(1, 2%Q); (2, 6%Q); (3, 10%Q)]))).
  - cbn. rewrite !elem_of_cons. auto.
  - cbn. rewrite !elem_of_cons. auto.
  - cbn. intros x. rewrite !elem_of_cons, elem_of_nil.
    intros [->|[->|[->|[]]]]; split; discriminate.
  - discriminate.
Defined.

(** ** ReviewEngine *)

Lemma pendingRuns_NoDup (db : Db) issueNo :
  NoDup (JsMap.keys (Review.pendingRuns db issueNo)).
Proof.
  unfold Review.pendingRuns, JsMap.keys.
  apply (sublist_NoDup _ (map fst (map_to_list (db_runs db)))).
  - apply NoDup_fst_map_to_list.
  - apply sublist_map, sublist_filter.
Qed.

Lemma pendingRuns_get (db : Db) issueNo id run :
  JsMap.get id (Review.pendingRuns db issueNo) = Some run <->
  db_runs db !! id = Some run
  /\ run_issueNo run = issueNo /\ run_status run = PENDING.
Proof.
  rewrite (get_Some _ _ _ (pendingRuns_NoDup db issueNo)).
  unfold Review.pendingRuns.
  rewrite list_elem_of_filter, elem_of_map_to_list. cbn. tauto.
Qed.

Section ReviewFacts.
Variables (now : Z -> Z) (draw : Draw).
Implicit Types (db : Db) (l : list (Z * PredictionRun)).

Lemma reviewRun_eq db id run :
  Review.reviewRun now draw db (id, run)
  = {| db_draws := db_draws db;
       db_runs := <[id := reviewedRun (now id) (matchedNumbers db draw id) run]>
                    (db_runs db);
       db_picks := db_picks db;
       db_reviews := <[id := reviewRecord (drawIdFor draw db id)
                                (matchedNumbers db draw id)]>
                       (db_reviews db) |}.
Proof. reflexivity. Qed.

(** The loop touches the rows of the listed runs and nothing else. *)
Lemma reviewRuns_spec l db :
  NoDup (JsMap.keys l) ->
  let db' := fold_left (Review.reviewRun now draw) l db in
  db_draws db' = db_draws db
  /\ db_picks db' = db_picks db
  /\ (forall id,
        db_runs db' !! id
        = match JsMap.get id l with
          | Some run => Some (reviewedRun (now id) (matchedNumbers db draw id) run)
          | None => db_runs db !! id
          end)
  /\ (forall id,
        db_reviews db' !! id
        = match JsMap.get id l with
          | Some run => Some (reviewRecord (drawIdFor draw db id)
                                           (matchedNumbers db draw id))
          | None => db_reviews db !! id
          end).
Proof.
  revert db. induction l as [|[i r] l IH]; intros db Hnd.
  - cbn. auto.
  - unfold JsMap.keys in Hnd. cbn [map fst] in Hnd.
    apply NoDup_cons in Hnd as [Hi Hnd].
    cbn [fold_left]. rewrite reviewRun_eq.
    set (db1 := {| db_draws := db_draws db |}).
    destruct (IH db1 Hnd) as (Hd & Hp & Hr & Hv).
    assert (forall id, matchedNumbers db1 draw id = matchedNumbers db draw id)
      as Hm by reflexivity.
    split; [exact Hd|]. split; [exact Hp|]. split.
    + intros id. rewrite Hr, Hm. cbn [JsMap.get].
      destruct (decide (i = id)) as [->|Hne].
      * rewrite (proj2 (get_None id l) Hi). cbn. apply lookup_insert_eq.
      * destruct (JsMap.get id l); [reflexivity|].
        cbn. now apply lookup_insert_ne.
    + intros id. rewrite Hv, Hm. cbn [JsMap.get].
      destruct (decide (i = id)) as [->|Hne].
      * rewrite (proj2 (get_None id l) Hi). cbn. apply lookup_insert_eq.
      * assert (drawIdFor draw db1 id = drawIdFor draw db id) as ->.
        { unfold drawIdFor. cbn. now rewrite lookup_insert_ne. }
        destruct (JsMap.get id l); [reflexivity|].
        cbn. now apply lookup_insert_ne.
Qed.

End ReviewFacts.

Lemma matchedNumbers_spec db draw id :
  StronglySorted Z.le (matchedNumbers db draw id)
  /\ forall n,
      n ∈ matchedNumbers db draw id <->
      n ∈ numbersJson draw
      /\ exists p, p ∈ db_picks db /\ pick_runId p = id /\ pick_number p = n.
Proof.
  unfold matchedNumbers, Review.matchedOf. split; [apply sort_Z_ascending|].
  intros n. rewrite sort_elem_of, list_elem_of_filter.
  unfold Review.parseNumbers, Review.picksOf.
  change (map pick_number ?l) with (pick_number <$> l).
  rewrite list_elem_of_fmap. setoid_rewrite list_elem_of_filter.
  split.
  - intros [Hw (p & -> & Hid & Hp)]. split; [exact Hw|]. now exists p.
  - intros [Hw (p & Hp & Hid & <-)]. split; [exact Hw|]. now exists p.
Qed.

Lemma hitRateOf_rounds (hitCount : nat) :
  let exact := (inject_Z (Z.of_nat hitCount) / 6)%Q in
  (Review.hitRateOf hitCount * 10000
   == inject_Z (Qfloor (exact * 10000 + (1 # 2))))%Q
  /\ (exact - (1 # 20000) < Review.hitRateOf hitCount <= exact + (1 # 20000))%Q.
Proof.
  intros exact. unfold Review.hitRateOf, Review.roundedTo4. fold exact.
  clearbody exact.
  pose proof (Qfloor_le (exact * 10000 + (1 # 2))) as Hlo.
  pose proof (Qlt_floor (exact * 10000 + (1 # 2))) as Hhi.
  rewrite inject_Z_plus in Hhi. change (inject_Z 1) with 1%Q in Hhi.
  set (n := inject_Z (Qfloor (exact * 10000 + (1 # 2)))) in *. clearbody n.
  split; [field|]. split.
  - apply Qlt_shift_div_l; lra.
  - apply Qle_shift_div_r; lra.
Qed.

Lemma filter_nil_Forall {A} (P : A -> Prop) `{forall x, Decision (P x)} l :
  Forall (fun x => ~ P x) l -> filter P l = [].
Proof.
  intros Hall. apply nil_length_inv. now apply filter_length_zero.
Qed.

(** After the loop no run of the issue is pending. *)
Lemma reviewRuns_leave_none_pending now draw db issueNo :
  Review.pendingRuns
    (fold_left (Review.reviewRun now draw) (Review.pendingRuns db issueNo) db)
    issueNo = [].
Proof.
  destruct (reviewRuns_spec now draw (Review.pendingRuns db issueNo) db
              (pendingRuns_NoDup db issueNo)) as (_ & _ & Hruns & _).
  unfold Review.pendingRuns at 1. apply filter_nil_Forall, Forall_forall.
  intros [id run'] Hin [Hissue Hstatus]. cbn in Hissue, Hstatus.
  apply elem_of_map_to_list in Hin. rewrite Hruns in Hin.
  destruct (JsMap.get id (Review.pendingRuns db issueNo)) as [run|] eqn:Hget.
  - injection Hin as <-. discriminate Hstatus.
  - assert (JsMap.get id (Review.pendingRuns db issueNo) = Some run')
      as Hget' by now apply pendingRuns_get.
    congruence.
Qed.

(** C5: with no stored draw, [reviewIssue] returns 0 and the same state;
    with a draw, every pending run of the issue becomes reviewed with the
    matched numbers (its picks among the six winning numbers, ascending;
    the special number plays no part), their count and the count over six
    rounded to four decimals, and has one review record holding the same;
    all other rows are left alone; a second call finds nothing pending,
    returns 0 and leaves the state it was given. *)
Theorem reviewIssue_reviews_once
    (now later : Z -> Z) (db : Db) (issueNo : string) :
  let db' := fst (Review.reviewIssue now db issueNo) in
  let reviewed := snd (Review.reviewIssue now db issueNo) in
  (db_draws db !! issueNo = None -> db' = db /\ reviewed = 0%nat)
  /\ (forall draw,
         db_draws db !! issueNo = Some draw ->
         reviewed = length (Review.pendingRuns db issueNo)
         /\ db_draws db' = db_draws db
         /\ db_picks db' = db_picks db
         /\ (forall id run,
                db_runs db !! id = Some run ->
                run_issueNo run = issueNo -> run_status run = PENDING ->
                let matched := matchedNumbers db draw id in
                db_runs db' !! id = Some (reviewedRun (now id) matched run)
                /\ db_reviews db' !! id
                   = Some (reviewRecord (drawIdFor draw db id) matched)
                /\ StronglySorted Z.le matched
                /\ (forall n,
                       n ∈ matched <->
                       n ∈ numbersJson draw
                       /\ exists p, p ∈ db_picks db /\ pick_runId p = id
                                    /\ pick_number p = n)
                /\ (Review.hitRateOf (length matched) * 10000
                    == inject_Z (Qfloor (inject_Z (Z.of_nat (length matched)) / 6
                                         * 10000 + (1 # 2))))%Q)
         /\ (forall id,
                (forall run, db_runs db !! id = Some run ->
                             ~ (run_issueNo run = issueNo
                                /\ run_status run = PENDING)) ->
                db_runs db' !! id = db_runs db !! id
                /\ db_reviews db' !! id = db_reviews db !! id))
  /\ Review.reviewIssue later db' issueNo = (db', 0%nat).
Proof.
  intros db' reviewed. unfold db', reviewed, Review.reviewIssue.
  destruct (db_draws db !! issueNo) as [draw|] eqn:Hdraw; cbn [fst snd].
  - destruct (reviewRuns_spec now draw (Review.pendingRuns db issueNo) db
                (pendingRuns_NoDup db issueNo)) as (Hd & Hp & Hruns & Hrevs).
    split; [discriminate|]. split.
    + intros draw0 [= <-]. split; [reflexivity|].
      split; [exact Hd|]. split; [exact Hp|]. split.
      * intros id run Hrun Hissue Hstatus.
        assert (JsMap.get id (Review.pendingRuns db issueNo) = Some run)
          as Hget by now apply pendingRuns_get.
        rewrite Hruns, Hrevs, Hget.
        split; [reflexivity|]. split; [reflexivity|].
        destruct (matchedNumbers_spec db draw id) as [Hs Hm].
        split; [exact Hs|]. split; [exact Hm|].
        apply (hitRateOf_rounds (length (matchedNumbers db draw id))).
      * intros id Hnot. rewrite Hruns, Hrevs.
        destruct (JsMap.get id (Review.pendingRuns db issueNo)) as [run|]
          eqn:Hget; [|split; reflexivity].
        apply pendingRuns_get in Hget as (Hrun & Hissue & Hstatus).
        exfalso. apply (Hnot run Hrun). split; assumption.
    + rewrite Hd, Hdraw, reviewRuns_leave_none_pending. reflexivity.
  - split; [auto|]. split; [discriminate|]. now rewrite Hdraw.
Qed.

Lemma reviewIssue_reviews_once_witness :
  let run :=
    {| run_issueNo := "26/001"; run_strategy := "hot_v1";
       run_strategyVersion := "hot_v1"; run_status := PENDING;
       run_createdAt := 0; run_hitCount := None; run_hitRate := None;
       run_reviewedAt := None |} in
  let pick n :=
    {| pick_runId := 7; pick_number := n; pick_rank := 1; pick_score := 0%Q;
       pick_reason := "" |} in
  let db :=
    {| db_draws := {[ "26/001" := exampleDraw "26/001" 5 ]};
       db_runs := {[ 7 := run ]};
       db_picks := [pick 45; pick 3; pick 19; pick 1; pick 8; pick 2];
       db_reviews := ∅ |} in
  db_reviews (fst (Review.reviewIssue (fun _ => 99) db "26/001")) !! 7
  = Some (reviewRecord 0 [3; 8; 45]).
Proof.
  intros run pick db.
  destruct (reviewIssue_reviews_once (fun _ => 99) (fun _ => 100) db "26/001")
    as (_ & Hsome & _).
  destruct (Hsome (exampleDraw "26/001" 5)) as (_ & _ & _ & Hrun & _).
  - reflexivity.
  - destruct (Hrun 7 run) as (_ & Hrev & _); [reflexivity..|].
    rewrite Hrev. reflexivity.
Defined.

(** ** RecordNormalizer and SourceResolver *)

Lemma integerIn_range lo hi n z : integerIn lo hi n = Some z -> lo <= z <= hi.
Proof.
  destruct n as [|x|shown]; cbn; [discriminate| |discriminate].
  destruct (lo <=? x) eqn:Hlo, (x <=? hi) eqn:Hhi; cbn; try discriminate.
  intros [= <-]. lia.
Qed.

Lemma sortByDrawDate_perm records : sortByDrawDate records ≡ₚ records.
Proof. apply sort_perm. Qed.

Lemma firstSome_spec {A B} (f : A -> option B) (l : list A) y :
  Official.firstSome f l = Some y -> exists x, x ∈ l /\ f x = Some y.
Proof.
  induction l as [|x r IH]; cbn; [discriminate|].
  destruct (f x) as [y'|] eqn:Hx.
  - intros [= <-]. exists x. split; [now left|exact Hx].
  - intros (x' & Hin & Hf)%IH. exists x'. split; [now right|exact Hf].
Qed.

Section IngestFacts.
Context `{Host}.

Lemma numbersIn_range texts :
  Forall (fun n => 1 <= n <= 49) (Csv.numbersIn texts).
Proof.
  apply Forall_forall. intros n (text & _ & Hn)%list_elem_of_omap.
  now apply integerIn_range in Hn.
Qed.

Lemma parseSplitNumberColumns_range row :
  Forall (fun n => 1 <= n <= 49) (Csv.parseSplitNumberColumns row).
Proof.
  unfold Csv.parseSplitNumberColumns.
  destruct (find _ _); [|constructor].
  destruct (existsb _ _); [constructor|apply numbersIn_range].
Qed.

(** A CSV row that passes has six numbers and a special number in range. *)
Lemma Csv_toRecord_inRange rawRow r :
  Csv.toRecord rawRow = Some r -> inRangeRecord r.
Proof.
  unfold Csv.toRecord.
  set (row := Csv.normalizeRow rawRow).
  destruct (Csv.pickValue row Csv.ISSUE_KEYS) as [issue|]; [|discriminate].
  destruct (match Csv.pickValue row Csv.DATE_KEYS with
            | Some text => DateOf (text +:+ "T12:00:00Z")
            | None => None
            end) as [date|]; [|discriminate].
  set (numbers := match Csv.pickValue row Csv.COMBINED_NUMBERS_KEYS with
                  | Some combined => Csv.parseNumbers combined
                  | None => Csv.parseSplitNumberColumns row
                  end).
  assert (Forall (fun n => 1 <= n <= 49) numbers) as Hrange.
  { unfold numbers. destruct (Csv.pickValue row Csv.COMBINED_NUMBERS_KEYS);
      [apply numbersIn_range|apply parseSplitNumberColumns_range]. }
  destruct (Nat.eqb_spec (length numbers) 6) as [Hlen|_]; [|discriminate].
  cbn [negb].
  destruct (integerIn 1 49 _) as [special|] eqn:Hs; [|discriminate].
  intros [= <-]. unfold inRangeRecord. cbn.
  split; [exact Hlen|]. split; [exact Hrange|].
  now apply integerIn_range in Hs.
Qed.

Lemma inRange_spec n z : Official.inRange n = Some z -> z = n /\ 1 <= n <= 49.
Proof.
  unfold Official.inRange.
  destruct (1 <=? n) eqn:Hlo, (n <=? 49) eqn:Hhi; cbn; try discriminate.
  intros [= <-]. lia.
Qed.

Lemma parseNumberList_range value :
  Forall (fun n => 1 <= n <= 49) (Official.parseNumberList value).
Proof.
  unfold Official.parseNumberList. destruct (String.eqb _ _); [constructor|].
  apply Forall_forall. intros n (run & _ & Hn)%list_elem_of_omap.
  apply inRange_spec in Hn as [-> Hn]. exact Hn.
Qed.

Lemma toInt_inRange value z :
  Official.toInt value ≫= Official.inRange = Some z -> 1 <= z <= 49.
Proof.
  destruct (Official.toInt value) as [n|]; cbn; [|discriminate].
  intros [-> Hn]%inRange_spec. exact Hn.
Qed.

Lemma extractNumbers_range row :
  Forall (fun n => 1 <= n <= 49) (Official.extractNumbers row).
Proof.
  unfold Official.extractNumbers.
  destruct (6 <=? length _)%nat.
  - apply Forall_take, Forall_forall.
    intros n (name & _ & Hn)%list_elem_of_omap. now apply toInt_inRange in Hn.
  - destruct (Official.firstSome _ _) as [nums|] eqn:Hfirst; [|constructor].
    apply firstSome_spec in Hfirst as (name & _ & Hnums). cbn.
    destruct (6 <=? length _)%nat; [|discriminate].
    injection Hnums as <-. apply Forall_take, parseNumberList_range.
Qed.

Lemma extractSpecial_range row z :
  Official.extractSpecial row = Some z -> 1 <= z <= 49.
Proof.
  unfold Official.extractSpecial.
  destruct (Official.firstSome _ _) as [n|] eqn:Hfirst.
  - intros [= <-]. apply firstSome_spec in Hfirst as (name & _ & Hn).
    now apply toInt_inRange in Hn.
  - destruct (find _ _) as [resultLike|] eqn:Hfind; [|discriminate].
    apply find_some in Hfind as [Hin _]. intros Hz.
    apply List.in_map_iff in Hin as (name & <- & _).
    exact (Forall_lookup_1 _ _ _ _ (parseNumberList_range _) Hz).
Qed.

(** An official row that passes has six numbers and a special number in
    range. *)
Lemma Official_toRecord_inRange row r :
  Official.toRecord row = Some r -> inRangeRecord r.
Proof.
  unfold Official.toRecord.
  destruct (Official.extractIssueNo row) as [issue|]; [|discriminate].
  destruct (Official.extractDate row) as [date|]; [|discriminate].
  destruct (Official.extractSpecial row) as [special|] eqn:Hs; [|discriminate].
  destruct (Nat.eqb_spec (length (Official.extractNumbers row)) 6)
    as [Hlen|_]; [|discriminate].
  intros [= <-]. unfold inRangeRecord. cbn.
  split; [exact Hlen|]. split; [apply extractNumbers_range|].
  now apply extractSpecial_range in Hs.
Qed.

(** [parseDrawCsv] fails only when the CSV library does; otherwise it
    returns the rows that pass, whatever the others are. *)
Lemma parseDrawCsv_spec csvRaw :
  match csv_parse csvRaw with
  | Ok rows => Csv.parseDrawCsv csvRaw = Ok (sortByDrawDate (omap Csv.toRecord rows))
  | Throw message => Csv.parseDrawCsv csvRaw = Throw message
  end.
Proof.
  unfold Csv.parseDrawCsv. destruct (csv_parse csvRaw); reflexivity.
Qed.

Lemma parseDrawCsv_inRange csvRaw records :
  Csv.parseDrawCsv csvRaw = Ok records -> Forall inRangeRecord records.
Proof.
  pose proof (parseDrawCsv_spec csvRaw) as Hspec.
  destruct (csv_parse csvRaw) as [rows|message]; rewrite Hspec;
    [|discriminate].
  intros [= <-]. rewrite sortByDrawDate_perm. apply Forall_forall.
  intros r (row & _ & Hr)%list_elem_of_omap.
  now apply Csv_toRecord_inRange in Hr.
Qed.


Lemma loadOfficialRecords_inRange w records :
  Official.loadOfficialRecords w = Ok records ->
  records <> [] /\ Forall inRangeRecord records.
Proof.
  unfold Official.loadOfficialRecords.
  destruct (fetch w _) as [response|]; cbn [mbind result_bind]; [|discriminate].
  destruct (ok response); cbn [negb]; [|discriminate].
  destruct (JSON_parse _) as [payload|]; [|discriminate].
  cbn [mbind result_bind].
  set (out := omap Official.toRecord (Official.normalizeOfficialRows payload)).
  destruct (Nat.eqb_spec (length out) 0) as [|Hne]; [discriminate|].
  intros [= <-]. split.
  - intros Hnil. apply Hne. rewrite <- (sort_length
      (fun a b => Z.compare (CsvDrawRecord.drawDate a) (CsvDrawRecord.drawDate b))).
    fold (sortByDrawDate out). now rewrite Hnil.
  - rewrite sortByDrawDate_perm. apply Forall_forall.
    intros r (row & _ & Hr)%list_elem_of_omap.
    now apply Official_toRecord_inRange in Hr.
Qed.

Lemma loadCsvRecords_spec w :
  DataSource.loadCsvRecords w = csvSourceText w ≫= Csv.parseDrawCsv.
Proof.
  unfold DataSource.loadCsvRecords, csvSourceText.
  destruct (negb _); [|reflexivity].
  destruct (fetch w _) as [response|]; cbn [mbind result_bind]; [|reflexivity].
  destruct (negb _); reflexivity.
Qed.

Lemma loadCsvRecords_inRange w records :
  DataSource.loadCsvRecords w = Ok records -> Forall inRangeRecord records.
Proof.
  rewrite loadCsvRecords_spec.
  destruct (csvSourceText w) as [raw|]; cbn [mbind result_bind]; [|discriminate].
  apply parseDrawCsv_inRange.
Qed.


Lemma loadDrawRecords_inRange w records :
  DataSource.loadDrawRecords w = Ok records -> Forall inRangeRecord records.
Proof.
  unfold DataSource.loadDrawRecords.
  destruct (String.eqb _ "official");
    [intros Hr; now apply loadOfficialRecords_inRange in Hr|].
  destruct (String.eqb _ "csv"); [apply loadCsvRecords_inRange|].
  destruct (Official.loadOfficialRecords w) as [recs|error] eqn:Hoff.
  - intros [= <-]. now apply loadOfficialRecords_inRange in Hoff.
  - destruct (String.eqb _ "true"); [discriminate|apply loadCsvRecords_inRange].
Qed.
End IngestFacts.

(** C1 (as amended): every record a normalizer emits, and so every record
    [loadDrawRecords] hands to the store, has exactly six winning numbers,
    each an integer in 1..49, and a special number in 1..49. *)
Theorem emitted_records_in_range `{Host} :
  (forall rawRow r, Csv.toRecord rawRow = Some r -> inRangeRecord r)
  /\ (forall row r, Official.toRecord row = Some r -> inRangeRecord r)
  /\ (forall csvRaw records,
         Csv.parseDrawCsv csvRaw = Ok records -> Forall inRangeRecord records)
  /\ (forall w records,
         Official.loadOfficialRecords w = Ok records ->
         Forall inRangeRecord records)
  /\ (forall w records,
         DataSource.loadDrawRecords w = Ok records ->
         Forall inRangeRecord records).
Proof.
  split; [exact Csv_toRecord_inRange|].
  split; [exact Official_toRecord_inRange|].
  split; [exact parseDrawCsv_inRange|].
  split; [|exact loadDrawRecords_inRange].
  intros w records Hr. now apply loadOfficialRecords_inRange in Hr.
Qed.

Lemma emitted_records_in_range_witness :
  Forall inRangeRecord
    [{| CsvDrawRecord.issueNo := "08/002"; CsvDrawRecord.drawDate := 0;
        CsvDrawRecord.numbers := [3; 8; 12; 27; 33; 45];
        CsvDrawRecord.specialNumber := 19 |}].
Proof.
  apply (proj2 (proj2 (proj2 (proj2
           (emitted_records_in_range
              (H := csvHost [exampleRow "08/002" "2008-01-08"
                                        "3,8,12,27,33,45" "19"])))))
           (exampleWorld "csv")).
  vm_compute. reflexivity.
Defined.

(** C1 as stated fails: the CSV row 08/001 with winning numbers
    5,5,5,5,5,5 and special number 5 is emitted, although its numbers repeat
    and hold the special number. *)
Lemma emitted_record_repeats_numbers :
  DataSource.loadDrawRecords
    (H := csvHost [exampleRow "08/001" "2008-01-05" "5,5,5,5,5,5" "5"])
    (exampleWorld "csv")
  = Ok [{| CsvDrawRecord.issueNo := "08/001"; CsvDrawRecord.drawDate := 0;
           CsvDrawRecord.numbers := [5; 5; 5; 5; 5; 5];
           CsvDrawRecord.specialNumber := 5 |}]
  /\ ~ legalRecord
         {| CsvDrawRecord.issueNo := "08/001"; CsvDrawRecord.drawDate := 0;
            CsvDrawRecord.numbers := [5; 5; 5; 5; 5; 5];
            CsvDrawRecord.specialNumber := 5 |}.
Proof.
  split; [vm_compute; reflexivity|].
  intros (_ & _ & Hnot). cbn in Hnot. apply Hnot. now left.
Qed.





(** * Further properties of the code *)

(** ** Signal maps *)

Lemma get_elem_of {K V} `{EqDecision K} (k : K) (v : V) (m : list (K * V)) :
  JsMap.get k m = Some v -> (k, v) ∈ m.
Proof.
  induction m as [|[k' v'] r IH]; cbn; [discriminate|].
  destruct (decide (k' = k)) as [->|Hne].
  - intros [= ->]. now left.
  - intros Hget. right. auto.
Qed.

Lemma get_set {K V} `{EqDecision K} (k k' : K) (v : V) (m : list (K * V)) :
  JsMap.get k' (JsMap.set k v m)
  = if decide (k = k') then Some v else JsMap.get k' m.
Proof.
  destruct (decide (k = k')) as [->|Hne];
    [apply get_set_eq|now apply get_set_ne].
Qed.

Lemma frequency_step (n : Z) (numbers : list Z) (freq : list (Z * Q)) :
  (default 0 (JsMap.get n
     (fold_left
        (fun fr k => JsMap.set k (default 0%Q (JsMap.get k fr) + 1)%Q fr)
        numbers freq))
   == default 0 (JsMap.get n freq)
      + inject_Z (Z.of_nat (length (filter (fun x => x = n) numbers))))%Q.
Proof.
  revert freq. induction numbers as [|k r IH]; intros freq; cbn [fold_left].
  - cbn. ring.
  - rewrite IH, get_set, filter_cons.
    destruct (decide (k = n)) as [->|Hne]; cbn [default from_option id length].
    + rewrite Nat2Z.inj_succ, <- Z.add_1_l, inject_Z_plus.
      change (inject_Z 1) with 1%Q. ring.
    + reflexivity.
Qed.

(** X1: the frequency map holds, for every number, how often it was drawn
    in the window (a number never drawn and outside 1..49 has no entry and
    counts as 0). *)
Theorem frequencyMap_counts (draws : list Draw) (n : Z) :
  (default 0 (JsMap.get n (Strategies.frequencyMap draws))
   == inject_Z (Z.of_nat (occurrences n draws)))%Q
  /\ (n ∈ Strategies.ALL_NUMBERS ->
      exists v, JsMap.get n (Strategies.frequencyMap draws) = Some v).
Proof.
  unfold Strategies.frequencyMap, occurrences.
  set (init := map (fun k => (k, 0%Q)) Strategies.ALL_NUMBERS).
  assert (forall ds (freq : list (Z * Q)),
    (default 0 (JsMap.get n
       (fold_left
          (fun fq draw =>
             fold_left
               (fun fr k => JsMap.set k (default 0%Q (JsMap.get k fr) + 1)%Q fr)
               (Strategies.decodeNumbers draw) fq) ds freq))
     == default 0 (JsMap.get n freq)
        + inject_Z (Z.of_nat (length (filter (fun x => x = n)
                                        (concat (map numbersJson ds))))))%Q
    /\ (JsMap.get n freq <> None ->
        JsMap.get n
          (fold_left
             (fun fq draw =>
                fold_left
                  (fun fr k => JsMap.set k (default 0%Q (JsMap.get k fr) + 1)%Q fr)
                  (Strategies.decodeNumbers draw) fq) ds freq) <> None)) as Hfold.
  { induction ds as [|d ds IH]; intros freq; cbn [fold_left map concat].
    - split; [cbn; ring|auto].
    - destruct (IH (fold_left
          (fun fr k => JsMap.set k (default 0%Q (JsMap.get k fr) + 1)%Q fr)
          (Strategies.decodeNumbers d) freq)) as [Hval Hsome].
      split.
      + rewrite Hval, frequency_step, filter_app, length_app, Nat2Z.inj_add,
          inject_Z_plus. unfold Strategies.decodeNumbers. ring.
      + intros Hin. apply Hsome. clear -Hin.
        revert freq Hin. generalize (Strategies.decodeNumbers d).
        induction l as [|k r IHr]; intros freq Hin; [exact Hin|].
        cbn [fold_left]. apply IHr. rewrite get_set.
        destruct (decide (k = n)); [discriminate|exact Hin]. }
  destruct (Hfold draws init) as [Hval Hsome]. split.
  - rewrite Hval.
    assert (default 0%Q (JsMap.get n init) = 0%Q) as ->; [|ring].
    destruct (JsMap.get n init) as [v|] eqn:Hget; [|reflexivity].
    apply get_elem_of in Hget. unfold init in Hget.
    change (map ?f ?l) with (f <$> l) in Hget.
    apply list_elem_of_fmap in Hget as (k & [= _ ->] & _). reflexivity.
  - intros Hn.
    assert (JsMap.get n init <> None) as Hinit.
    { rewrite get_None. intros Hnone. apply Hnone. unfold init, JsMap.keys.
      rewrite map_map. cbn. now rewrite map_id. }
    specialize (Hsome Hinit).
    destruct (JsMap.get n (fold_left _ draws init)) as [v|];
      [now exists v|congruence].
Qed.

Lemma Qltb_inject (a b : Z) :
  Strategies.Qltb (inject_Z a) (inject_Z b) = (a <? b).
Proof.
  unfold Strategies.Qltb.
  destruct (Z.ltb_spec a b) as [Hlt|Hge].
  - apply negb_true_iff, not_true_is_false. rewrite Qle_bool_iff, <- Zle_Qle. lia.
  - apply negb_false_iff. rewrite Qle_bool_iff, <- Zle_Qle. lia.
Qed.

Lemma get_map_entry {V} (f : Z -> V) (l : list Z) (n : Z) :
  n ∈ l -> JsMap.get n (map (fun k => (k, f k)) l) = Some (f n).
Proof.
  induction l as [|k r IH]; [intros []%elem_of_nil|].
  cbn. destruct (decide (k = n)) as [->|Hne]; [reflexivity|].
  intros [->|Hin]%elem_of_cons; [congruence|auto].
Qed.

Section OmissionFacts.
Variable n : Z.

(** The inner loop over the numbers of the draw at position [idx]. *)
Lemma omission_draw (idx : Z) (numbers : list Z) (om : list (Z * Q)) (v : Z) :
  JsMap.get n om = Some (inject_Z v) ->
  JsMap.get n
    (fold_left
       (fun om k =>
          if Strategies.Qltb (inject_Z (idx + 1)) (default 9999%Q (JsMap.get k om))
          then JsMap.set k (inject_Z (idx + 1)) om else om)
       numbers om)
  = Some (inject_Z (if bool_decide (n ∈ numbers) && (idx + 1 <? v)
                    then idx + 1 else v)).
Proof.
  revert om v. induction numbers as [|k r IH]; intros om v Hget; cbn [fold_left].
  - exact Hget.
  - destruct (decide (k = n)) as [->|Hne].
    + rewrite Hget. cbn [default from_option id]. rewrite Qltb_inject.
      rewrite (bool_decide_eq_true_2 (n ∈ n :: r)) by now left.
      destruct (idx + 1 <? v) eqn:Hlt.
      * rewrite (IH _ (idx + 1)) by apply get_set_eq.
        rewrite Z.ltb_irrefl, andb_false_r. reflexivity.
      * rewrite (IH _ v Hget), Hlt, andb_false_r. reflexivity.
    + assert (bool_decide (n ∈ k :: r) = bool_decide (n ∈ r)) as ->.
      { apply bool_decide_ext. rewrite elem_of_cons. intuition congruence. }
      apply IH. destruct (Strategies.Qltb _ _); [|exact Hget].
      now rewrite get_set_ne.
Qed.

(** A number already seen keeps its position. *)
Lemma omissionLoop_seen (draws : list Draw) (idx : Z) (om : list (Z * Q)) (v : Z) :
  JsMap.get n om = Some (inject_Z v) -> v <= idx + 1 ->
  JsMap.get n (Strategies.omissionLoop idx draws om) = Some (inject_Z v).
Proof.
  revert idx om. induction draws as [|d r IH]; intros idx om Hget Hv;
    [exact Hget|].
  cbn [Strategies.omissionLoop]. apply IH; [|lia].
  rewrite (omission_draw idx _ om v Hget).
  destruct (Z.ltb_spec (idx + 1) v); [lia|]. now rewrite andb_false_r.
Qed.

Lemma omissionLoop_unseen (draws : list Draw) (idx : Z) (om : list (Z * Q)) (v : Z) :
  JsMap.get n om = Some (inject_Z v) ->
  idx + Z.of_nat (length draws) < v ->
  JsMap.get n (Strategies.omissionLoop idx draws om)
  = Some (inject_Z (default v (firstSeen n idx draws))).
Proof.
  revert idx om. induction draws as [|d r IH]; intros idx om Hget Hv;
    [exact Hget|].
  cbn [Strategies.omissionLoop firstSeen]. cbn [length] in Hv.
  pose proof (omission_draw idx (Strategies.decodeNumbers d) om v Hget) as Hd.
  unfold Strategies.decodeNumbers in *.
  destruct (bool_decide (n ∈ numbersJson d)); cbn [andb] in Hd.
  - destruct (Z.ltb_spec (idx + 1) v); [|lia].
    cbn [default from_option id]. apply omissionLoop_seen; [exact Hd|lia].
  - apply IH; [exact Hd|lia].
Qed.
End OmissionFacts.

Lemma firstSeen_bounds n idx draws k :
  firstSeen n idx draws = Some k -> idx < k <= idx + Z.of_nat (length draws).
Proof.
  revert idx. induction draws as [|d r IH]; intros idx; cbn [firstSeen length];
    [discriminate|].
  destruct (bool_decide _).
  - intros [= <-]. lia.
  - intros Hk%IH. lia.
Qed.

(** X2: for each number of 1..49 the omission map holds the position,
    counted from 1 at the most recent draw, of the first draw of the window
    that holds the number, and the window length plus one for a number
    drawn in none of them. *)
Theorem omissionMap_first_appearance (draws : list Draw) (n : Z) :
  n ∈ Strategies.ALL_NUMBERS ->
  let position := default (Z.of_nat (length draws) + 1) (firstSeen n 0 draws) in
  JsMap.get n (Strategies.omissionMap draws) = Some (inject_Z position)
  /\ 1 <= position <= Z.of_nat (length draws) + 1
  /\ (position = Z.of_nat (length draws) + 1 <-> occurrences n draws = 0%nat).
Proof.
  intros Hn position. unfold Strategies.omissionMap. split; [|split].
  - apply omissionLoop_unseen; [|lia].
    now apply (get_map_entry (fun _ => inject_Z (Z.of_nat (length draws) + 1))).
  - unfold position. destruct (firstSeen n 0 draws) as [k|] eqn:Hk; cbn; [|lia].
    apply firstSeen_bounds in Hk. lia.
  - unfold position, occurrences. clear position Hn.
    assert (forall idx,
      (firstSeen n idx draws = None <->
       length (filter (fun x => x = n) (concat (map numbersJson draws))) = 0%nat))
      as Hnone.
    { induction draws as [|d r IH]; intros idx; cbn [firstSeen map concat];
        [tauto|].
      rewrite filter_app, length_app. destruct (bool_decide_reflect (n ∈ numbersJson d))
        as [Hin|Hin].
      - split; [discriminate|]. intros Hz.
        assert (length (filter (fun x => x = n) (numbersJson d)) = 0%nat) as Hz'
          by lia.
        apply filter_length_zero in Hz'. rewrite Forall_forall in Hz'.
        now destruct (Hz' n Hin).
      - rewrite IH.
        assert (length (filter (fun x => x = n) (numbersJson d)) = 0%nat) as ->.
        { apply filter_length_zero, Forall_forall. intros x Hx ->. contradiction. }
        reflexivity. }
    destruct (firstSeen n 0 draws) as [k|] eqn:Hk; cbn.
    + apply firstSeen_bounds in Hk as Hb. split; [lia|].
      intros Hz. apply (proj2 (Hnone 0)) in Hz. congruence.
    + split; [|reflexivity]. intros _. now apply (Hnone 0).
Qed.

Lemma omissionMap_first_appearance_witness :
  JsMap.get 8 (Strategies.omissionMap
                 [exampleNumbers [1; 2; 3; 4; 5; 6];
                  exampleNumbers [3; 8; 12; 27; 33; 45]])
  = Some (inject_Z 2).
Proof.
  apply (omissionMap_first_appearance
           [exampleNumbers [1; 2; 3; 4; 5; 6];
            exampleNumbers [3; 8; 12; 27; 33; 45]] 8).
  unfold Strategies.ALL_NUMBERS. apply elem_of_seqZ. lia.
Defined.

Lemma weighted_step (n : Z) (weight : Q) (numbers : list Z) (w : list (Z * Q)) :
  (default 0 (JsMap.get n
     (fold_left
        (fun w k => JsMap.set k (default 0%Q (JsMap.get k w) + weight)%Q w)
        numbers w))
   == default 0 (JsMap.get n w)
      + inject_Z (Z.of_nat (length (filter (fun x => x = n) numbers))) * weight)%Q.
Proof.
  revert w. induction numbers as [|k r IH]; intros w; cbn [fold_left].
  - cbn. ring.
  - rewrite IH, get_set, filter_cons.
    destruct (decide (k = n)) as [->|Hne]; cbn [default from_option id length].
    + rewrite Nat2Z.inj_succ, <- Z.add_1_l, inject_Z_plus.
      change (inject_Z 1) with 1%Q. ring.
    + reflexivity.
Qed.

Lemma weightedLoop_sum (n : Z) (draws : list Draw) (idx : Z) (w : list (Z * Q)) :
  (default 0 (JsMap.get n (Strategies.weightedLoop idx draws w))
   == default 0 (JsMap.get n w) + recencyWeight n idx draws)%Q.
Proof.
  revert idx w. induction draws as [|d r IH]; intros idx w;
    cbn [Strategies.weightedLoop recencyWeight].
  - ring.
  - rewrite IH, weighted_step. unfold Strategies.decodeNumbers. ring.
Qed.

(** X3: the weighted recency of a number is the sum, over its appearances
    in the window, of 1 / (1 + i), [i] being the distance of the draw from
    the most recent one. *)
Theorem weightedRecencyMap_sums (draws : list Draw) (n : Z) :
  (default 0 (JsMap.get n (Strategies.weightedRecencyMap draws))
   == recencyWeight n 0 draws)%Q.
Proof.
  unfold Strategies.weightedRecencyMap. rewrite weightedLoop_sum.
  assert (default 0%Q (JsMap.get n (map (fun k => (k, 0%Q)) Strategies.ALL_NUMBERS))
          = 0%Q) as ->; [|ring].
  destruct (JsMap.get n _) as [v|] eqn:Hget; [|reflexivity].
  apply get_elem_of in Hget. change (map ?f ?l) with (f <$> l) in Hget.
  apply list_elem_of_fmap in Hget as (k & [= _ ->] & _). reflexivity.
Qed.

(** ** Scores *)

Lemma normalize_unit (m : list (Z * Q)) (e : Z * Q) :
  e ∈ Strategies.normalize m -> (0 <= snd e <= 1)%Q.
Proof.
  destruct m as [|[k v] r]; [intros []%elem_of_nil|].
  unfold Strategies.normalize.
  change (JsMap.values ((k, v) :: r)) with (v :: map snd r).
  cbv beta iota zeta. set (vs := map snd r). set (m := (k, v) :: r).
  destruct (minOf_spec v vs) as [Hmin _].
  destruct (maxOf_spec v vs) as [Hmax _].
  set (mn := Strategies.minOf v vs) in *.
  set (mx := Strategies.maxOf v vs) in *.
  change (map ?f ?l) with (f <$> l).
  intros ([k' v'] & -> & He)%list_elem_of_fmap. cbn.
  assert (v' ∈ v :: vs) as Hv.
  { change (v :: vs) with (snd <$> m). apply list_elem_of_fmap. now exists (k', v'). }
  pose proof (Hmin v' Hv) as Hlo. pose proof (Hmax v' Hv) as Hhi.
  clearbody mn mx. unfold Strategies.rangeOf.
  destruct (Qeq_bool (mx - mn) 0) eqn:Hb.
  - apply Qeq_bool_iff in Hb.
    assert (v' - mn == 0)%Q as -> by lra. unfold Qdiv. split; lra.
  - apply Qeq_bool_neq in Hb. split.
    + apply Qle_shift_div_l; lra.
    + apply Qle_shift_div_r; lra.
Qed.

Lemma normalized_signal_unit (m : list (Z * Q)) (n : Z) :
  (0 <= default 0 (JsMap.get n (Strategies.normalize m)) <= 1)%Q.
Proof.
  destruct (JsMap.get n _) as [v|] eqn:Hget; cbn; [|lra].
  apply get_elem_of in Hget. exact (normalize_unit m (n, v) Hget).
Qed.

Lemma selectSix_subset (scores : list (Z * Q)) (e : Z * Q) :
  e ∈ Strategies.selectSix scores -> e ∈ scores.
Proof.
  unfold Strategies.selectSix. set (sorted := Strategies.sortedByScore scores).
  destruct (firstPass_sublist sorted []) as (t & Hfirst & Hsub).
  destruct (fillPass_prefix 6 sorted (Strategies.firstPass sorted []))
    as (t' & -> & Hfill).
  rewrite Hfirst. cbn [app]. intros [Hin|Hin]%elem_of_app.
  - apply (sort_elem_of Strategies.byScoreDescending).
    eapply elem_of_sublist; eassumption.
  - rewrite Forall_forall in Hfill.
    now apply (sort_elem_of Strategies.byScoreDescending), Hfill.
Qed.

(** X4: for every strategy and history each composite score, and so the
    score of each pick, lies between 0 and 1: the signals are normalised
    and the weights of a strategy sum to 1. *)
Theorem composite_scores_unit (id : StrategyId) (recentDraws : list Draw) :
  (forall n sc,
      JsMap.get n (Strategies.composite id recentDraws) = Some sc ->
      (0 <= sc <= 1)%Q)
  /\ (forall p,
         p ∈ picks (Strategies.generateStrategyResult id recentDraws) ->
         (0 <= score p <= 1)%Q).
Proof.
  assert (forall e, e ∈ Strategies.composite id recentDraws ->
                    (0 <= snd e <= 1)%Q) as Hunit.
  { intros e. unfold Strategies.composite.
    rewrite fold_set_fresh by apply NoDup_seqZ. cbn [app].
    change (map ?f ?l) with (f <$> l).
    intros (n & -> & _)%list_elem_of_fmap. cbn [snd].
    unfold Strategies.compositeScore.
    pose proof (normalized_signal_unit
                  (Strategies.frequencyMap (Strategies.window recentDraws)) n).
    pose proof (normalized_signal_unit
                  (Strategies.omissionMap (Strategies.window recentDraws)) n).
    pose proof (normalized_signal_unit
                  (Strategies.weightedRecencyMap (Strategies.window recentDraws)) n).
    destruct id; lra. }
  split.
  - intros n sc Hget. exact (Hunit (n, sc) (get_elem_of _ _ _ Hget)).
  - intros p Hp. cbn [picks Strategies.generateStrategyResult] in Hp.
    apply list_elem_of_lookup in Hp as [i Hi].
    apply pickTopSix_lookup in Hi as (Hsel & _).
    apply list_elem_of_lookup_2, selectSix_subset in Hsel.
    exact (Hunit _ Hsel).
Qed.

(** ** The auditor's number checks *)

Lemma app_nil_iff {A} (l k : list A) : l ++ k = [] <-> l = [] /\ k = [].
Proof.
  split; [apply app_eq_nil|]. now intros [-> ->].
Qed.

Section CheckFacts.
Context `{Host}.

Lemma checkEach_nil (seen : gset Z) (numbers : list Z) :
  Audit.checkEach seen numbers = [] <->
  Forall (fun n => 1 <= n <= 49) numbers
  /\ NoDup numbers
  /\ forall n, n ∈ numbers -> n ∉ seen.
Proof.
  revert seen. induction numbers as [|n r IH]; intros seen; cbn [Audit.checkEach].
  - split; [|reflexivity]. intros _.
    split; [constructor|]. split; [constructor|]. intros n []%elem_of_nil.
  - rewrite !app_nil_iff, IH, Forall_cons, NoDup_cons.
    destruct (Z.ltb_spec n 1) as [Hlo|Hlo]; cbn [orb].
    { split; [intros [[=] _]|intros [[? _] _]; lia]. }
    destruct (Z.ltb_spec 49 n) as [Hhi|Hhi].
    { split; [intros [[=] _]|intros [[? _] _]; lia]. }
    destruct (bool_decide_reflect (n ∈ seen)) as [Hseen|Hseen].
    { split; [intros (_ & [=] & _)|].
      intros (_ & _ & Hout). exfalso. apply (Hout n); [now left|exact Hseen]. }
    split.
    + intros (_ & _ & Hr & Hnd & Hout).
      split; [split; [lia|exact Hr]|]. split.
      * split; [|exact Hnd]. intros Hin. apply (Hout n Hin).
        apply elem_of_union. left. now apply elem_of_singleton.
      * intros x [->|Hx]%elem_of_cons; [exact Hseen|].
        intros Hxs. apply (Hout x Hx). apply elem_of_union. now right.
    + intros ((_ & Hr) & (Hn & Hnd) & Hout).
      split; [reflexivity|]. split; [reflexivity|].
      split; [exact Hr|]. split; [exact Hnd|].
      intros x Hx [Hxn%elem_of_singleton|Hxs]%elem_of_union.
      * subst x. contradiction.
      * apply (Hout x); [now right|exact Hxs].
Qed.

(** X5: the auditor's number check reports nothing exactly for six distinct
    numbers in 1..49, and a stored draw gives no number problem exactly when
    moreover its special number is in 1..49 and not a winning number. *)
Theorem checkNumbers_accepts_legal_draws :
  (forall numbers, Audit.checkNumbers numbers = [] <-> legalNumbers numbers)
  /\ (forall d,
         Audit.numberProblemsOf d = [] <->
         legalNumbers (numbersJson d)
         /\ 1 <= specialNumber d <= 49
         /\ specialNumber d ∉ numbersJson d).
Proof.
  assert (forall numbers, Audit.checkNumbers numbers = [] <-> legalNumbers numbers)
    as Hcheck.
  { intros numbers. unfold Audit.checkNumbers, legalNumbers.
    rewrite app_nil_iff, checkEach_nil.
    destruct (Nat.eqb_spec (length numbers) 6) as [Hlen|Hlen]; cbn [negb].
    - split; [intros (_ & Hr & Hnd & _); auto|].
      intros (_ & Hr & Hnd). split; [reflexivity|]. split; [exact Hr|].
      split; [exact Hnd|]. intros n _. apply not_elem_of_empty.
    - split; [intros [[=] _]|intros [? _]; contradiction]. }
  split; [exact Hcheck|].
  intros d. unfold Audit.numberProblemsOf. rewrite !app_nil_iff, Hcheck.
  destruct (Z.ltb_spec (specialNumber d) 1) as [Hlo|Hlo]; cbn [orb].
  { split; [intros (_ & [=] & _)|intros (_ & ? & _); lia]. }
  destruct (Z.ltb_spec 49 (specialNumber d)) as [Hhi|Hhi].
  { split; [intros (_ & [=] & _)|intros (_ & ? & _); lia]. }
  destruct (Audit.includes (specialNumber d) (numbersJson d)) eqn:Hinc.
  - assert (specialNumber d ∈ numbersJson d) as Hin
      by (apply includes_spec; now rewrite Hinc).
    split; [intros (_ & _ & [=])|intros (_ & _ & ?); contradiction].
  - assert (specialNumber d ∉ numbersJson d) as Hout.
    { intros Hin%includes_spec. now rewrite Hinc in Hin. }
    split.
    + intros (Hl & _ & _). split; [exact Hl|]. split; [lia|exact Hout].
    + intros (Hl & _ & _). split; [exact Hl|]. split; reflexivity.
Qed.
End CheckFacts.

(** ** Order of the loaded records *)

Lemma sortByDrawDate_sorted records :
  StronglySorted
    (fun a b => CsvDrawRecord.drawDate a <= CsvDrawRecord.drawDate b)
    (sortByDrawDate records).
Proof.
  unfold sortByDrawDate.
  apply (StronglySorted_weaken
           (before (fun a b => Z.compare (CsvDrawRecord.drawDate a)
                                         (CsvDrawRecord.drawDate b))
                   (fun _ _ => True))).
  - intros a b [Hlt|[Heq _]].
    + rewrite Z.compare_lt_iff in Hlt. lia.
    + rewrite Z.compare_eq_iff in Heq. lia.
  - apply sort_sorted.
    + intros a b Hgt. rewrite Z.compare_gt_iff in Hgt.
      now rewrite Z.compare_lt_iff.
    + intros a b c Hab Hbc.
      change (CsvDrawRecord.drawDate a <= CsvDrawRecord.drawDate c).
      change (CsvDrawRecord.drawDate a <= CsvDrawRecord.drawDate b) in Hab.
      change (CsvDrawRecord.drawDate b <= CsvDrawRecord.drawDate c) in Hbc. lia.
    + apply StronglySorted_any.
Qed.

Section OrderFacts.
Context `{Host}.

Lemma parseDrawCsv_sorted csvRaw records :
  Csv.parseDrawCsv csvRaw = Ok records -> exists l, records = sortByDrawDate l.
Proof.
  pose proof (parseDrawCsv_spec csvRaw) as Hspec.
  destruct (csv_parse csvRaw) as [rows|]; rewrite Hspec; [|discriminate].
  intros [= <-]. eauto.
Qed.

Lemma loadOfficialRecords_sorted w records :
  Official.loadOfficialRecords w = Ok records -> exists l, records = sortByDrawDate l.
Proof.
  unfold Official.loadOfficialRecords.
  destruct (fetch w _) as [response|]; cbn [mbind result_bind]; [|discriminate].
  destruct (ok response); cbn [negb]; [|discriminate].
  destruct (JSON_parse _) as [payload|]; [|discriminate].
  cbn [mbind result_bind]. destruct (_ =? 0)%nat; [discriminate|].
  intros [= <-]. eauto.
Qed.

Lemma loadCsvRecords_sorted w records :
  DataSource.loadCsvRecords w = Ok records -> exists l, records = sortByDrawDate l.
Proof.
  rewrite loadCsvRecords_spec.
  destruct (csvSourceText w) as [raw|]; cbn [mbind result_bind]; [|discriminate].
  apply parseDrawCsv_sorted.
Qed.

(** X6: whatever the mode, the records [loadDrawRecords] returns stand in
    ascending order of draw date, so the last one is a latest draw. *)
Theorem loadDrawRecords_ascending_dates (w : World) records :
  DataSource.loadDrawRecords w = Ok records ->
  StronglySorted
    (fun a b => CsvDrawRecord.drawDate a <= CsvDrawRecord.drawDate b) records
  /\ forall latest, last records = Some latest ->
       forall r, r ∈ records ->
                 CsvDrawRecord.drawDate r <= CsvDrawRecord.drawDate latest.
Proof.
  intros Hload.
  assert (exists l, records = sortByDrawDate l) as [l ->].
  { revert Hload. unfold DataSource.loadDrawRecords.
    destruct (String.eqb _ "official"); [apply loadOfficialRecords_sorted|].
    destruct (String.eqb _ "csv"); [apply loadCsvRecords_sorted|].
    destruct (Official.loadOfficialRecords w) as [recs|error] eqn:Hoff.
    - intros [= <-]. now apply loadOfficialRecords_sorted in Hoff.
    - destruct (String.eqb _ "true"); [discriminate|apply loadCsvRecords_sorted]. }
  pose proof (sortByDrawDate_sorted l) as Hs. split; [exact Hs|].
  intros latest [l' Hl']%last_Some r Hr. rewrite Hl' in Hs, Hr.
  apply StronglySorted_app in Hs as (Hcross & _ & _).
  apply elem_of_app in Hr as [Hr|Hr%list_elem_of_singleton].
  - apply Hcross; [exact Hr|now left].
  - subst r. lia.
Qed.

End OrderFacts.

Lemma loadDrawRecords_ascending_dates_witness :
  StronglySorted
    (fun a b => CsvDrawRecord.drawDate a <= CsvDrawRecord.drawDate b)
    [{| CsvDrawRecord.issueNo := "08/002"; CsvDrawRecord.drawDate := 0;
        CsvDrawRecord.numbers := [3; 8; 12; 27; 33; 45];
        CsvDrawRecord.specialNumber := 19 |}].
Proof.
  apply (loadDrawRecords_ascending_dates
           (H := csvHost [exampleRow "08/002" "2008-01-08"
                                     "3,8,12,27,33,45" "19"])
           (exampleWorld "csv")).
  vm_compute. reflexivity.
Defined.

(** ** The date check of the audit *)

Section DateFacts.
Context `{Host}.

Lemma scanDraw_in_order st d :
  Audit.lastTime st <= drawDate d ->
  Audit.problems (Audit.scanDraw st d) = Audit.problems st ++ recordProblems d
  /\ Audit.lastTime (Audit.scanDraw st d) <= drawDate d.
Proof.
  intros Hle. unfold Audit.scanDraw, recordProblems.
  destruct (Audit.parseIssue _) as [[year seq]|]; cbn [Audit.problems Audit.lastTime].
  - assert ((drawDate d <? Audit.lastTime st) = false) as -> by lia.
    rewrite app_nil_r. split; [|lia].
    now destruct (Audit.numberProblemsOf d).
  - split; [reflexivity|lia].
Qed.

Lemma scanDraws_in_order ds st :
  StronglySorted (fun a b => drawDate a <= drawDate b) ds ->
  (forall d, d ∈ ds -> Audit.lastTime st <= drawDate d) ->
  Audit.problems (Audit.scanDraws st ds)
  = Audit.problems st ++ flat_map recordProblems ds.
Proof.
  revert st. induction ds as [|d ds IH]; intros st Hsorted Hlast.
  - cbn. now rewrite app_nil_r.
  - apply StronglySorted_inv in Hsorted as [Hrest Hd].
    rewrite scanDraws_cons.
    destruct (scanDraw_in_order st d) as [Hp Ht]; [apply Hlast; now left|].
    rewrite IH, Hp; [cbn [flat_map]; now rewrite app_assoc|exact Hrest|].
    intros d' Hd'. rewrite Forall_forall in Hd. specialize (Hd d' Hd'). lia.
Qed.

(** X7: on a history in ascending order of draw date with no date before
    the epoch, which is what the audit's query returns for such a store, the
    date check reports nothing: the problems of the first loop are those of
    the issue ids and numbers alone; a record of a well-formed id dated
    before the epoch is reported as out of order wherever it stands. *)
Theorem date_check_silent_on_ordered_history (draws : list Draw) :
  (StronglySorted (fun a b => drawDate a <= drawDate b) draws ->
   (forall d, d ∈ draws -> 0 <= drawDate d) ->
   Audit.problems (Audit.scanDraws Audit.scanStart draws)
   = flat_map recordProblems draws)
  /\ (forall d, d ∈ draws ->
        Audit.parseIssue (issueNo d) <> None -> drawDate d < 0 ->
        issueNo d +:+ ": drawDate is not non-decreasing"
        ∈ Audit.problems (Audit.scanDraws Audit.scanStart draws)
        /\ forall fuel found,
             Audit.auditProblems fuel draws = Some found ->
             issueNo d +:+ ": drawDate is not non-decreasing" ∈ found).
Proof.
  split.
  - intros Hsorted Hpos. now rewrite scanDraws_in_order.
  - intros d Hd Hparse Hneg.
    assert (issueNo d +:+ ": drawDate is not non-decreasing"
            ∈ Audit.problems (Audit.scanDraws Audit.scanStart draws)) as Hin.
    { apply list_elem_of_split in Hd as [pre [post ->]].
      rewrite scanDraws_app, scanDraws_cons. apply scanDraws_keeps.
      apply scanDraw_reports; [exact Hparse|].
      pose proof (lastTime_grows Audit.scanStart pre). cbn in *. lia. }
    split; [exact Hin|]. intros fuel found. unfold Audit.auditProblems.
    destruct (Audit.yearProblems _ _); [|discriminate].
    intros [= <-]. apply elem_of_app. now left.
Qed.
End DateFacts.

Lemma date_check_silent_on_ordered_history_witness :
  Audit.problems
    (Audit.scanDraws (H := exampleHost) Audit.scanStart
       [exampleDraw "08/001" 10; exampleDraw "08/002" 20]) = [].
Proof.
  apply (date_check_silent_on_ordered_history (H := exampleHost)
           [exampleDraw "08/001" 10; exampleDraw "08/002" 20]).
  - repeat constructor; cbn; lia.
  - intros d. rewrite !elem_of_cons, elem_of_nil.
    intros [->|[->|[]]]; cbn; lia.
Defined.

(** ** Issue ids of the official source *)

Lemma isDigit_digitChars c : isDigit c = true -> c ∈ digitChars.
Proof.
  destruct c as [[] [] [] [] [] [] [] []]; vm_compute; try discriminate;
    intros _; repeat first [apply list_elem_of_here | apply list_elem_of_further].
Qed.

Lemma digitsOfLength_three s :
  Official.digitsOfLength 3 s = true -> s ∈ threeDigits.
Proof.
  unfold Official.digitsOfLength.
  destruct s as [|a [|b [|c [|e r]]]]; try discriminate.
  cbn [String.length Nat.eqb allDigits andb].
  intros [Ha [Hb [Hc _]%andb_prop]%andb_prop]%andb_prop.
  unfold threeDigits.
  apply list_elem_of_bind. exists a. split; [|now apply isDigit_digitChars].
  apply list_elem_of_bind. exists b. split; [|now apply isDigit_digitChars].
  apply list_elem_of_bind. exists c. split; [|now apply isDigit_digitChars].
  now left.
Qed.

Lemma threeDigits_advance digits :
  digits ∈ threeDigits -> advancesInPlace digits = true.
Proof.
  intros Hin%list_elem_of_In. revert digits Hin.
  apply forallb_forall. vm_compute. reflexivity.
Qed.

(** Joining the fields of a text with the separator gives the text back. *)
Lemma join_split sep s : join (String sep "") (split sep s) = s.
Proof.
  induction s as [|c r IH]; [reflexivity|]. cbn [split].
  pose proof (split_nonempty sep r) as Hne.
  destruct (Ascii.eqb_spec c sep) as [->|_].
  - destruct (split sep r) as [|w ws]; [congruence|].
    cbn [join] in *. rewrite IH. reflexivity.
  - destruct (split sep r) as [|w ws]; [congruence|].
    destruct ws as [|w' ws]; cbn [join] in *; now rewrite <- IH.
Qed.

Section IssueFacts.
Context `{Host}.

Lemma issue_fields year digits :
  allDigits year = true -> allDigits digits = true ->
  split "/" (year +:+ "/" +:+ digits) = [year; digits].
Proof.
  intros Hy Hd. change ("/" +:+ digits) with (String "/" digits).
  rewrite split_app_sep by now apply digits_noslash.
  now rewrite (split_nosep _ digits) by now apply digits_noslash.
Qed.

Lemma isIssueNo_fields text :
  Official.isIssueNo text = true ->
  exists year digits,
    text = year +:+ "/" +:+ digits
    /\ Official.digitsOfLength 2 year = true
    /\ Official.digitsOfLength 3 digits = true.
Proof.
  unfold Official.isIssueNo. pose proof (join_split "/" text) as Hjoin.
  destruct (split "/" text) as [|y [|n [|? ?]]]; try discriminate.
  intros [Hy Hn]%andb_prop. exists y, n. cbn [join] in Hjoin. auto.
Qed.

Lemma parseIssue_fields year digits :
  year <> "" -> allDigits year = true -> allDigits digits = true ->
  Z.of_N (decimalValue digits) < MAX_EXACT ->
  Audit.parseIssue (year +:+ "/" +:+ digits)
  = Some (year, Int (Z.of_N (decimalValue digits))).
Proof.
  intros Hne Hy Hd Hmax. unfold Audit.parseIssue.
  rewrite issue_fields by assumption.
  cbn [hd nth_error NumberU]. rewrite (Number_digits digits Hd) by lia.
  destruct (String.eqb_spec year "") as [->|_]; [congruence|reflexivity].
Qed.

Lemma nextIssueNo_fields year digits :
  year <> "" -> allDigits year = true -> allDigits digits = true ->
  Z.of_N (decimalValue digits) < MAX_EXACT ->
  PredictionIssue.nextIssueNo (year +:+ "/" +:+ digits)
  = year +:+ "/" +:+ nextSeqText digits.
Proof.
  intros Hne Hy Hd Hmax. unfold PredictionIssue.nextIssueNo.
  rewrite issue_fields by assumption.
  cbn [hd nth_error NumberU default from_option id].
  rewrite (Number_digits digits Hd) by lia.
  destruct (String.eqb_spec year "") as [->|_]; [congruence|].
  cbn [orb isNaN plusOne]. apply Z.ltb_lt in Hmax. now rewrite Hmax.
Qed.

(** X8: an issue id the official-source extractor accepts is one the
    auditor parses, with a year of two characters and a sequence in 0..999;
    below 999 its successor under [nextIssueNo] is again an id the extractor
    accepts and the auditor parses as the same year and the sequence plus
    one; at 999 the successor is the year followed by 1000. *)
Theorem official_issue_ids_advance (row : Official.OfficialRow) (text : string) :
  Official.extractIssueNo row = Some text ->
  exists year seq,
    Audit.parseIssue text = Some (year, Int seq)
    /\ String.length year = 2%nat
    /\ 0 <= seq <= 999
    /\ (seq < 999 ->
        Official.isIssueNo (PredictionIssue.nextIssueNo text) = true
        /\ Audit.parseIssue (PredictionIssue.nextIssueNo text)
           = Some (year, Int (seq + 1)))
    /\ (seq = 999 -> PredictionIssue.nextIssueNo text = year +:+ "/1000").
Proof.
  unfold Official.extractIssueNo. intros [_ Hid]%find_some.
  apply isIssueNo_fields in Hid as (year & digits & -> & Hyear & Hdigits).
  pose proof (threeDigits_advance digits (digitsOfLength_three digits Hdigits))
    as Hadv.
  unfold Official.digitsOfLength in Hyear, Hdigits.
  apply andb_prop in Hyear as [Hlen%Nat.eqb_eq Hy].
  apply andb_prop in Hdigits as [_ Hd].
  assert (year <> "") as Hne by (intros ->; discriminate).
  exists year, (Z.of_N (decimalValue digits)).
  unfold advancesInPlace in Hadv.
  apply andb_prop in Hadv as [Hmax%Z.leb_le Hnext].
  assert (999 < MAX_EXACT) as Hexact by reflexivity.
  rewrite parseIssue_fields, nextIssueNo_fields by (assumption || lia).
  split; [reflexivity|]. split; [exact Hlen|]. split; [lia|]. split.
  - intros Hlt. apply Z.ltb_lt in Hlt. rewrite Hlt in Hnext.
    apply andb_prop in Hnext as [Hshape Hvalue%Z.eqb_eq].
    pose proof Hshape as [_ Hd']%andb_prop.
    split.
    + unfold Official.isIssueNo. rewrite issue_fields by assumption.
      unfold Official.digitsOfLength at 1. now rewrite Hlen, Hy, Hshape.
    + rewrite parseIssue_fields by (assumption || lia). now rewrite Hvalue.
  - intros Heq. rewrite Heq in Hnext. cbn in Hnext.
    apply String.eqb_eq in Hnext. now rewrite Hnext.
Qed.
End IssueFacts.

Lemma official_issue_ids_advance_witness :
  exists year seq,
    Audit.parseIssue (H := exampleHost) "08/001" = Some (year, Int seq)
    /\ String.length year = 2%nat
    /\ 0 <= seq <= 999
    /\ (seq < 999 ->
        Official.isIssueNo
          (PredictionIssue.nextIssueNo (H := exampleHost) "08/001") = true
        /\ Audit.parseIssue (H := exampleHost)
             (PredictionIssue.nextIssueNo (H := exampleHost) "08/001")
           = Some (year, Int (seq + 1)))
    /\ (seq = 999 ->
        PredictionIssue.nextIssueNo (H := exampleHost) "08/001" = year +:+ "/1000").
Proof.
  apply (official_issue_ids_advance (H := exampleHost)
           [("issueNo", JStr "08/001")]).
  reflexivity.
Defined.

(** ** Merging the history files *)

Lemma set_elem_of {K V} `{EqDecision K} (k k' : K) (v v' : V) (m : list (K * V)) :
  (k', v') ∈ JsMap.set k v m -> (k', v') = (k, v) \/ (k', v') ∈ m.
Proof.
  induction m as [|[k0 v0] r IH]; cbn.
  - intros ->%list_elem_of_singleton. now left.
  - destruct (decide (k0 = k)) as [->|Hne]; rewrite !elem_of_cons.
    + intros [Heq|Hin]; auto.
    + intros [Heq|Hin]; [auto|]. destruct (IH Hin); auto.
Qed.

Lemma lastIssued_cons issue r records :
  lastIssued issue (r :: records)
  = match lastIssued issue records with
    | Some x => Some x
    | None => if decide (CsvDrawRecord.issueNo r = issue) then Some r else None
    end.
Proof.
  unfold lastIssued. rewrite filter_cons.
  destruct (decide (CsvDrawRecord.issueNo r = issue)) as [Heq|Hne].
  - rewrite last_cons. reflexivity.
  - now destruct (last _).
Qed.

Lemma lastIssued_issue issue records r :
  lastIssued issue records = Some r ->
  CsvDrawRecord.issueNo r = issue /\ r ∈ records.
Proof.
  unfold lastIssued. intros Hlast%last_Some_elem_of.
  now apply list_elem_of_filter in Hlast.
Qed.

Section MergeFacts.
Context `{Host} (fs : Files).
Implicit Types (merged : list (string * CsvDrawRecord.t))
         (records : list CsvDrawRecord.t).

Lemma mergeRecords_app merged records more :
  HistoryFiles.mergeRecords merged (records ++ more)
  = HistoryFiles.mergeRecords (HistoryFiles.mergeRecords merged records) more.
Proof. apply fold_left_app. Qed.

(** A later record of an issue id replaces an earlier one. *)
Lemma mergeRecords_get merged records issue :
  JsMap.get issue (HistoryFiles.mergeRecords merged records)
  = match lastIssued issue records with
    | Some r => Some r
    | None => JsMap.get issue merged
    end.
Proof.
  revert merged. induction records as [|r records IH]; intros merged;
    [reflexivity|].
  cbn [HistoryFiles.mergeRecords fold_left].
  change (fold_left _ records ?m) with (HistoryFiles.mergeRecords m records).
  rewrite IH, lastIssued_cons, get_set.
  destruct (lastIssued issue records); [reflexivity|].
  now destruct (decide _).
Qed.

Lemma mergeRecords_keys merged records :
  NoDup (JsMap.keys merged) ->
  NoDup (JsMap.keys (HistoryFiles.mergeRecords merged records)).
Proof.
  revert merged. induction records as [|r records IH]; intros merged Hnd;
    [exact Hnd|].
  cbn [HistoryFiles.mergeRecords fold_left]. apply IH.
  now apply keys_set_NoDup.
Qed.

Lemma mergeRecords_entries merged records :
  (forall k r, (k, r) ∈ merged -> k = CsvDrawRecord.issueNo r) ->
  forall k r, (k, r) ∈ HistoryFiles.mergeRecords merged records ->
              k = CsvDrawRecord.issueNo r.
Proof.
  revert merged. induction records as [|r0 records IH]; intros merged Hm;
    [exact Hm|].
  cbn [HistoryFiles.mergeRecords fold_left]. apply IH.
  intros k r [[= -> ->]|Hin]%set_elem_of; [reflexivity|now apply Hm].
Qed.

Lemma mergeFiles_spec fullPath files merged result :
  HistoryFiles.mergeFiles fs fullPath files merged = Ok result ->
  exists contents,
    Forall2 (fun name records =>
               HistoryFiles.readCsvFile fs (joinPath fs fullPath name)
               = Ok records) files contents
    /\ result = HistoryFiles.mergeRecords merged (concat contents).
Proof.
  revert merged. induction files as [|name files IH]; intros merged.
  - intros [= <-]. exists []. split; [constructor|reflexivity].
  - cbn [HistoryFiles.mergeFiles].
    destruct (HistoryFiles.readCsvFile fs _) as [records|] eqn:Hread;
      cbn [mbind result_bind]; [|discriminate].
    intros (contents & Hall & ->)%IH. exists (records :: contents).
    split; [now constructor|]. cbn [concat]. now rewrite mergeRecords_app.
Qed.

(** X9: when the path is a directory, [loadRecordsFromPath] reads the files
    whose name ends in .csv (in any letter case) in the order of their
    names, and returns, in ascending order of draw date, one record per
    issue id: the last one read under that id, so that a later file
    overrides an earlier one. *)
Theorem loadRecordsFromPath_merges_directory
    (inputPath : string) (records : list CsvDrawRecord.t) :
  statSync fs (resolve fs inputPath) = Ok IsDirectory ->
  HistoryFiles.loadRecordsFromPath fs inputPath = Ok records ->
  exists names contents,
    readdirSync fs (resolve fs inputPath) = Ok names
    /\ Forall2 (fun name found =>
                  HistoryFiles.readCsvFile fs
                    (joinPath fs (resolve fs inputPath) name) = Ok found)
               (HistoryFiles.csvFiles names) contents
    /\ NoDup (map CsvDrawRecord.issueNo records)
    /\ (forall r, r ∈ records <->
                  lastIssued (CsvDrawRecord.issueNo r) (concat contents) = Some r)
    /\ StronglySorted
         (fun a b => CsvDrawRecord.drawDate a <= CsvDrawRecord.drawDate b)
         records.
Proof.
  intros Hstat. unfold HistoryFiles.loadRecordsFromPath.
  destruct (existsSync fs _); cbn [negb]; [|discriminate].
  rewrite Hstat. cbn [mbind result_bind].
  destruct (readdirSync fs _) as [names|]; cbn [mbind result_bind];
    [|discriminate].
  destruct (HistoryFiles.mergeFiles _ _ _ _) as [merged|] eqn:Hmerge;
    cbn [mbind result_bind]; [|discriminate].
  intros [= <-]. apply mergeFiles_spec in Hmerge as (contents & Hall & ->).
  exists names, contents. split; [reflexivity|]. split; [exact Hall|].
  set (merged := HistoryFiles.mergeRecords [] (concat contents)).
  assert (NoDup (JsMap.keys merged)) as Hkeys
    by (apply mergeRecords_keys; constructor).
  assert (forall k r, (k, r) ∈ merged -> k = CsvDrawRecord.issueNo r) as Hentries.
  { apply mergeRecords_entries. intros k r []%elem_of_nil. }
  assert (map CsvDrawRecord.issueNo (JsMap.values merged) = JsMap.keys merged)
    as Hissues.
  { unfold JsMap.values, JsMap.keys. rewrite map_map. apply map_ext_in.
    intros [k r] Hin%list_elem_of_In. cbn. symmetry. now apply Hentries. }
  split; [|split].
  - change (map ?f ?l) with (f <$> l).
    rewrite (sortByDrawDate_perm (JsMap.values merged)).
    change (?f <$> ?l) with (map f l). now rewrite Hissues.
  - intros r. rewrite (sortByDrawDate_perm (JsMap.values merged)).
    unfold JsMap.values. change (map ?f ?l) with (f <$> l).
    rewrite list_elem_of_fmap. split.
    + intros ([k r'] & -> & Hin). cbn [snd].
      pose proof (Hentries _ _ Hin) as ->.
      apply (get_Some _ _ _ Hkeys) in Hin. unfold merged in Hin.
      rewrite mergeRecords_get in Hin.
      destruct (lastIssued _ _); [exact Hin|discriminate].
    + intros Hlast. exists (CsvDrawRecord.issueNo r, r). split; [reflexivity|].
      apply (get_Some _ _ _ Hkeys). unfold merged.
      now rewrite mergeRecords_get, Hlast.
  - apply sortByDrawDate_sorted.
Qed.
End MergeFacts.

Lemma loadRecordsFromPath_merges_directory_witness :
  exists names contents,
    readdirSync exampleFiles (resolve exampleFiles "history") = Ok names
    /\ Forall2 (fun name found =>
                  HistoryFiles.readCsvFile (H := csvHost exampleRows) exampleFiles
                    (joinPath exampleFiles (resolve exampleFiles "history") name)
                  = Ok found)
               (HistoryFiles.csvFiles (H := csvHost exampleRows) names) contents
    /\ NoDup (map CsvDrawRecord.issueNo [exampleRecord])
    /\ (forall r, r ∈ [exampleRecord] <->
                  lastIssued (CsvDrawRecord.issueNo r) (concat contents) = Some r)
    /\ StronglySorted
         (fun a b => CsvDrawRecord.drawDate a <= CsvDrawRecord.drawDate b)
         [exampleRecord].
Proof.
  apply (loadRecordsFromPath_merges_directory (H := csvHost exampleRows)
           exampleFiles "history" [exampleRecord]); vm_compute; reflexivity.
Defined.

(** ** The options and the loop of the backfill *)

Lemma unusable_year_accepted (n : option jsnum) :
  truthy n && Backfill.isNaNU n = false.
Proof.
  destruct n as [[|z|shown]|]; cbn; try reflexivity. apply andb_false_r.
Qed.

Section ArgFacts.
Context `{Host}.
Variable getUTCFullYear : Z -> Z.
Variable env : string -> option string.

(** X10: [parseArgs] returns options for every argument list, the two
    errors on an invalid year being out of reach: a year text that is not a
    number is taken as [NaN]; a bound that is absent, [NaN] or 0 removes no
    record in [filterByYearRange]; two other bounds keep exactly the records
    whose year lies between them. *)
Theorem parseArgs_never_rejects_a_year :
  (forall argv, exists options, Backfill.parseArgs env argv = Ok options)
  /\ (forall text,
        text <> "" -> Number text = NaN ->
        Backfill.parseArgs env ["--from-year"; text]
        = Ok {| Backfill.path :=
                  Backfill.orElse (env "HISTORY_CSV_DIR") "./data/history";
                Backfill.fromYear := Some NaN;
                Backfill.toYear := None |})
  /\ (forall records fromYear toYear,
        truthy fromYear = false -> truthy toYear = false ->
        HistoryFiles.filterByYearRange getUTCFullYear records fromYear toYear
        = records)
  /\ (forall records a b r,
        a <> 0 -> b <> 0 ->
        r ∈ HistoryFiles.filterByYearRange getUTCFullYear records
              (Some (Int a)) (Some (Int b))
        <-> r ∈ records
            /\ a <= getUTCFullYear (CsvDrawRecord.drawDate r) <= b).
Proof.
  split; [|split; [|split]].
  - intros argv. unfold Backfill.parseArgs. rewrite !unusable_year_accepted.
    eexists. reflexivity.
  - intros text Hne HNaN. unfold Backfill.parseArgs.
    rewrite !unusable_year_accepted. cbn [Backfill.argLoop].
    apply String.eqb_neq in Hne. rewrite Hne, HNaN. reflexivity.
  - intros records fromYear toYear Hfrom Hto.
    unfold HistoryFiles.filterByYearRange.
    induction records as [|r records IH]; [reflexivity|].
    rewrite filter_cons, IH. unfold HistoryFiles.inYearRange.
    rewrite Hfrom, Hto. reflexivity.
  - intros records a b r Ha Hb. unfold HistoryFiles.filterByYearRange.
    rewrite list_elem_of_filter. unfold HistoryFiles.inYearRange.
    cbn [truthy HistoryFiles.below HistoryFiles.above lessThan].
    apply Z.eqb_neq in Ha, Hb. rewrite Ha, Hb. cbn [negb andb].
    destruct (Z.ltb_spec (getUTCFullYear (CsvDrawRecord.drawDate r)) a);
      destruct (Z.ltb_spec b (getUTCFullYear (CsvDrawRecord.drawDate r)));
      cbn; intuition lia.
Qed.
End ArgFacts.

Lemma parseArgs_never_rejects_a_year_witness :
  Backfill.parseArgs (H := exampleHost) (fun _ => None) ["--from-year"; "abc"]
  = Ok {| Backfill.path := "./data/history";
          Backfill.fromYear := Some NaN;
          Backfill.toYear := None |}.
Proof.
  apply (proj1 (proj2 (parseArgs_never_rejects_a_year (H := exampleHost)
                         (fun t => t) (fun _ => None))) "abc").
  - discriminate.
  - reflexivity.
Defined.

Section ReconcileFacts.
Variable newId : gmap string Draw -> Z.
Implicit Types (draws stored : gmap string Draw)
         (records : list CsvDrawRecord.t).

Lemma reconcile_from records draws i u stored inserted updated :
  fold_left (Backfill.reconcileRecord newId) records (draws, i, u)
  = (stored, inserted, updated) ->
  (inserted + updated = i + u + length records)%nat
  /\ (size stored + i = size draws + inserted)%nat
  /\ settled draws records stored.
Proof.
  revert draws i u. induction records as [|r records IH]; intros draws i u.
  - intros [= <- <- <-]. cbn. split; [lia|]. split; [lia|].
    intros issue. reflexivity.
  - cbn [fold_left]. unfold Backfill.reconcileRecord at 2.
    destruct (draws !! CsvDrawRecord.issueNo r) as [existing|] eqn:Hold;
      intros (Hcount & Hsize & Hset)%IH.
    + rewrite map_size_insert_Some in Hsize by eauto.
      split; [cbn; lia|]. split; [lia|].
      intros issue. specialize (Hset issue). rewrite lastIssued_cons.
      destruct (lastIssued issue records) as [x|].
      * destruct Hset as (id & Hstored & Hid). exists id. split; [exact Hstored|].
        intros d Hd. destruct (decide (CsvDrawRecord.issueNo r = issue)) as [<-|Hne].
        -- rewrite lookup_insert_eq in Hid. rewrite (Hid _ eq_refl). cbn. congruence.
        -- rewrite lookup_insert_ne in Hid by exact Hne. now apply Hid.
      * destruct (decide (CsvDrawRecord.issueNo r = issue)) as [<-|Hne].
        -- rewrite lookup_insert_eq in Hset. eexists. split; [exact Hset|].
           intros d Hd. congruence.
        -- now rewrite lookup_insert_ne in Hset by exact Hne.
    + rewrite map_size_insert_None in Hsize by exact Hold.
      split; [cbn; lia|]. split; [lia|].
      intros issue. specialize (Hset issue). rewrite lastIssued_cons.
      destruct (lastIssued issue records) as [x|].
      * destruct Hset as (id & Hstored & Hid). exists id. split; [exact Hstored|].
        intros d Hd. destruct (decide (CsvDrawRecord.issueNo r = issue)) as [<-|Hne].
        -- congruence.
        -- rewrite lookup_insert_ne in Hid by exact Hne. now apply Hid.
      * destruct (decide (CsvDrawRecord.issueNo r = issue)) as [<-|Hne].
        -- rewrite lookup_insert_eq in Hset. eexists. split; [exact Hset|].
           intros d Hd. congruence.
        -- now rewrite lookup_insert_ne in Hset by exact Hne.
Qed.

(** X11: the loop of the backfill counts every record once, as inserted or
    as updated; the store grows by the number inserted; every issue id of
    the records ends with the data of its last record, an existing draw
    keeping its id, and the other draws stay as they were; a second pass
    over the same records inserts nothing and leaves the store as it is. *)
Theorem reconcile_counts_and_settles draws records stored inserted updated :
  Backfill.reconcile newId draws records = (stored, inserted, updated) ->
  (inserted + updated = length records)%nat
  /\ size stored = (size draws + inserted)%nat
  /\ settled draws records stored
  /\ Backfill.reconcile newId stored records
     = (stored, 0%nat, length records).
Proof.
  intros (Hcount & Hsize & Hset)%reconcile_from.
  split; [lia|]. split; [lia|]. split; [exact Hset|].
  destruct (Backfill.reconcile newId stored records) as [[again i2] u2] eqn:Hrun.
  apply reconcile_from in Hrun as (Hcount2 & Hsize2 & Hset2).
  assert (again = stored) as ->.
  { apply map_eq. intros issue. specialize (Hset issue). specialize (Hset2 issue).
    destruct (lastIssued issue records) as [r|]; [|exact Hset2].
    destruct Hset as (id & Hstored & _). destruct Hset2 as (id2 & -> & Hid2).
    rewrite (Hid2 _ Hstored), Hstored. reflexivity. }
  repeat f_equal; lia.
Qed.
End ReconcileFacts.

Lemma reconcile_counts_and_settles_witness :
  (1 + 0 = length [exampleRecord])%nat
  /\ size (<["08/002" := Backfill.drawOf 1 exampleRecord]> (∅ : gmap string Draw))
     = (size (∅ : gmap string Draw) + 1)%nat
  /\ settled ∅ [exampleRecord] (<["08/002" := Backfill.drawOf 1 exampleRecord]> ∅)
  /\ Backfill.reconcile (fun _ => 1)
       (<["08/002" := Backfill.drawOf 1 exampleRecord]> ∅) [exampleRecord]
     = (<["08/002" := Backfill.drawOf 1 exampleRecord]> ∅, 0%nat,
        length [exampleRecord]).
Proof.
  apply (reconcile_counts_and_settles (fun _ => 1) ∅ [exampleRecord]).
  vm_compute. reflexivity.
Defined.

Section RunFacts.
Context `{Host} (fs : Files).
Variable getUTCFullYear : Z -> Z.
Variable env : string -> option string.
Variable newId : gmap string Draw -> Z.

(** X12: a run of the backfill script that ends normally has read its
    options, loaded the records of the path and left the store settled on
    the records of the chosen years: no other draw is touched, and when no
    record is chosen the store is as before. *)
Theorem backfill_run_settles_selected_records
    (argv : list string) (draws stored : gmap string Draw) (line : string) :
  Backfill.run fs getUTCFullYear env newId argv draws = Ok (stored, line) ->
  exists options allRecords,
    Backfill.parseArgs env argv = Ok options
    /\ HistoryFiles.loadRecordsFromPath fs (Backfill.path options)
       = Ok allRecords
    /\ settled draws
         (HistoryFiles.filterByYearRange getUTCFullYear allRecords
            (Backfill.fromYear options) (Backfill.toYear options))
         stored.
Proof.
  unfold Backfill.run.
  destruct (Backfill.parseArgs env argv) as [options|] eqn:Hargs;
    cbn [mbind result_bind]; [|discriminate].
  destruct (HistoryFiles.loadRecordsFromPath fs _) as [allRecords|] eqn:Hload;
    cbn [mbind result_bind]; [|discriminate].
  intros Hrun. exists options, allRecords. split; [reflexivity|].
  split; [exact Hload|]. revert Hrun.
  set (records := HistoryFiles.filterByYearRange _ _ _ _).
  destruct (Nat.eqb_spec (length records) 0) as [Hnone|_].
  - intros [= <- _]. destruct records; [|discriminate].
    intros issue. reflexivity.
  - destruct (Backfill.reconcile newId draws records) as [[stored' i] u] eqn:Hloop.
    intros [= <- _]. now apply reconcile_from in Hloop.
Qed.
End RunFacts.

Lemma backfill_run_settles_selected_records_witness :
  exists options allRecords,
    Backfill.parseArgs (H := csvHost exampleRows) (fun _ => None) []
    = Ok options
    /\ HistoryFiles.loadRecordsFromPath (H := csvHost exampleRows) exampleFiles
         (Backfill.path options) = Ok allRecords
    /\ settled ∅
         (HistoryFiles.filterByYearRange (H := csvHost exampleRows)
            (fun _ => 2008) allRecords
            (Backfill.fromYear options) (Backfill.toYear options))
         (<["08/002" := Backfill.drawOf 1 exampleRecord]> ∅).
Proof.
  apply (backfill_run_settles_selected_records (H := csvHost exampleRows)
           exampleFiles (fun _ => 2008) (fun _ => None) (fun _ => 1) [] ∅
           (<["08/002" := Backfill.drawOf 1 exampleRecord]> ∅)
           "Backfill complete: total=1, inserted=1, updated=0, path=./data/history").
  vm_compute. reflexivity.
Defined.

(** ** Generation of predictions *)

Lemma findRun_Some runs key id run :
  Prediction.findRun runs key = Some (id, run) ->
  runs !! id = Some run /\ Prediction.runKey run = key.
Proof.
  unfold Prediction.findRun. intros Hhead%head_Some_elem_of.
  apply list_elem_of_filter in Hhead as [Hkey Hin].
  now apply elem_of_map_to_list in Hin.
Qed.

Lemma findRun_None runs key id run :
  Prediction.findRun runs key = None ->
  runs !! id = Some run -> Prediction.runKey run <> key.
Proof.
  unfold Prediction.findRun. intros Hnone%head_None Hrun Hkey.
  assert ((id, run) ∈ filter
            (fun entry : Z * PredictionRun => Prediction.runKey (snd entry) = key)
            (map_to_list runs)) as Hin.
  { apply list_elem_of_filter. split; [exact Hkey|].
    now apply elem_of_map_to_list. }
  rewrite Hnone in Hin. now apply elem_of_nil in Hin.
Qed.

Lemma picksOf_replacePicks db id chosen id' :
  Review.picksOf (Prediction.replacePicks db id chosen) id'
  = if decide (id' = id) then map (Prediction.pickRow id) chosen
    else Review.picksOf db id'.
Proof.
  unfold Review.picksOf, Prediction.replacePicks. cbn [db_picks].
  rewrite filter_app.
  assert (filter (fun p => pick_runId p = id') (map (Prediction.pickRow id) chosen)
          = if decide (id' = id) then map (Prediction.pickRow id) chosen else [])
    as ->.
  { induction chosen as [|c chosen IH]; [now destruct (decide _)|].
    cbn [map]. rewrite filter_cons, IH. cbn [Prediction.pickRow pick_runId].
    destruct (decide (id' = id)) as [->|Hne].
    - now rewrite decide_True by reflexivity.
    - now rewrite decide_False by congruence. }
  assert (filter (fun p => pick_runId p = id')
                 (filter (fun p => pick_runId p <> id) (db_picks db))
          = if decide (id' = id) then []
            else filter (fun p => pick_runId p = id') (db_picks db)) as ->.
  { induction (db_picks db) as [|p l IH]; [now destruct (decide _)|].
    rewrite (filter_cons (fun p => pick_runId p <> id)).
    destruct (decide (pick_runId p <> id)) as [Hp|Hp].
    - rewrite !filter_cons, IH.
      destruct (decide (pick_runId p = id')) as [Heq|Hne];
        destruct (decide (id' = id)) as [->|Hid]; try reflexivity. congruence.
    - apply dec_stable in Hp. rewrite IH, filter_cons.
      destruct (decide (id' = id)) as [->|Hid]; [reflexivity|].
      rewrite decide_False by congruence. reflexivity. }
  destruct (decide (id' = id)); [reflexivity|apply app_nil_r].
Qed.

Lemma insert_run_unique runs id row :
  uniqueRuns runs ->
  (forall id0 old, runs !! id0 = Some old ->
                   Prediction.runKey old = Prediction.runKey row <-> id0 = id) ->
  uniqueRuns (<[id := row]> runs).
Proof.
  intros Huniq Hsame id1 id2 run1 run2.
  destruct (decide (id1 = id)) as [->|Hne1];
    destruct (decide (id2 = id)) as [->|Hne2]; [congruence| | |].
  - rewrite lookup_insert_eq, lookup_insert_ne by congruence.
    intros [= <-] Hrun Hkey. symmetry. now apply (Hsame _ _ Hrun).
  - rewrite lookup_insert_eq, lookup_insert_ne by congruence.
    intros Hrun [= <-] Hkey. now apply (Hsame _ _ Hrun).
  - rewrite !lookup_insert_ne by congruence. apply Huniq.
Qed.

Section GenerateFacts.
Variable now : nat -> Z.
Variable newRunId : gmap Z PredictionRun -> Z.
Variable columnDefaults : nat -> PredictionRun.
Hypothesis newRunId_fresh : forall runs, runs !! newRunId runs = None.

(** The run [upsert] writes has the key, and is the only one that has it. *)
Lemma upsertRun_spec index db key upserted id :
  uniqueRuns (db_runs db) ->
  Prediction.upsertRun now newRunId columnDefaults index db key = (upserted, id) ->
  exists row,
    upserted = {| db_draws := db_draws db;
                  db_runs := <[id := row]> (db_runs db);
                  db_picks := db_picks db;
                  db_reviews := db_reviews db |}
    /\ Prediction.runKey row = key
    /\ (forall id0 old, db_runs db !! id0 = Some old ->
                        Prediction.runKey old = key <-> id0 = id)
    /\ (forall old, db_runs db !! id = Some old -> pendingAgain row).
Proof.
  intros Huniq. unfold Prediction.upsertRun.
  destruct (Prediction.findRun (db_runs db) key) as [[found run]|] eqn:Hfind.
  - apply findRun_Some in Hfind as [Hrun Hkey].
    intros [= <- <-]. exists (Prediction.resetRun now index run).
    split; [reflexivity|]. split; [exact Hkey|]. split.
    + intros id0 old Hold. split.
      * intros Hk. apply (Huniq _ _ _ _ Hold Hrun). congruence.
      * intros ->. congruence.
    + intros _ _. repeat split.
  - intros [= <- <-]. exists (Prediction.createdRun columnDefaults index key).
    split; [reflexivity|]. split; [now destruct key as [[a b] c]|]. split.
    + intros id0 old Hold. split.
      * intros Hk. now destruct (findRun_None _ _ _ _ Hfind Hold).
      * intros ->. now rewrite newRunId_fresh in Hold.
    + intros old Hold. now rewrite newRunId_fresh in Hold.
Qed.

Lemma generateRun_spec draws issueNo index strategy db next id :
  uniqueRuns (db_runs db) ->
  Prediction.generateRun now newRunId columnDefaults draws issueNo index
    strategy db = (next, id) ->
  generatedRuns db next draws issueNo [strategy] [id]
  /\ forall id0 old, db_runs db !! id0 = Some old ->
        exists run, db_runs next !! id0 = Some run
                    /\ Prediction.runKey run = Prediction.runKey old.
Proof.
  intros Huniq. unfold Prediction.generateRun.
  change (Prediction.keyOf issueNo _) with (strategyKey issueNo strategy).
  destruct (Prediction.upsertRun _ _ _ _ _ _) as [upserted id'] eqn:Hupsert.
  apply (upsertRun_spec _ _ _ _ _ Huniq) in Hupsert
    as (row & -> & Hkey & Hsame & Hpending).
  intros [= <- <-]. split; [split; [|split; [|split; [|split; [|split]]]]|].
  - cbn [Prediction.replacePicks db_runs].
    apply insert_run_unique; [exact Huniq|]. now rewrite Hkey.
  - reflexivity.
  - reflexivity.
  - constructor; [|constructor]. exists row.
    cbn [Prediction.replacePicks db_runs]. rewrite lookup_insert_eq.
    split; [reflexivity|]. split; [exact Hkey|]. split.
    + rewrite picksOf_replacePicks. now rewrite decide_True by reflexivity.
    + intros id0 old Hold Hk. apply (Hsame _ _ Hold) in Hk as ->.
      split; [reflexivity|]. now apply (Hpending old).
  - intros id0 run Hrun Hother.
    assert (id0 <> id') as Hne.
    { intros ->. apply (Hother strategy); [now left|]. now apply (Hsame _ _ Hrun). }
    cbn [Prediction.replacePicks db_runs]. rewrite lookup_insert_ne by congruence.
    split; [exact Hrun|]. rewrite picksOf_replacePicks.
    now rewrite decide_False by exact Hne.
  - intros id0. cbn [Prediction.replacePicks db_runs].
    destruct (decide (id0 = id')) as [->|Hne].
    + intros _. right. now left.
    + rewrite lookup_insert_ne by congruence. now left.
  - intros id0 old Hold. cbn [Prediction.replacePicks db_runs].
    destruct (decide (id0 = id')) as [->|Hne].
    + rewrite lookup_insert_eq. exists row. split; [reflexivity|].
      rewrite Hkey. symmetry. now apply (Hsame _ _ Hold).
    + rewrite lookup_insert_ne by congruence. eauto.
Qed.

Lemma generateRuns_spec draws issueNo strategyList :
  forall index db createdRuns stored ids,
    uniqueRuns (db_runs db) ->
    Prediction.generateRuns now newRunId columnDefaults draws issueNo index
      strategyList db createdRuns = (stored, ids) ->
    exists new,
      ids = createdRuns ++ new
      /\ generatedRuns db stored draws issueNo strategyList new.
Proof.
  induction strategyList as [|strategy rest IH];
    intros index db createdRuns stored ids Huniq.
  - intros [= <- <-]. exists []. split; [now rewrite app_nil_r|].
    split; [exact Huniq|]. split; [reflexivity|]. split; [reflexivity|].
    split; [constructor|]. split; [auto|]. intros id Hid. now left.
  - cbn [Prediction.generateRuns].
    destruct (Prediction.generateRun _ _ _ _ _ _ _ _) as [next id] eqn:Hstep.
    apply (generateRun_spec _ _ _ _ _ _ _ Huniq) in Hstep
      as [(Huniq1 & Hdraws1 & Hreviews1 & Hfirst & Hframe1 & Hnew1) Hstable].
    intros (new & -> & Huniq2 & Hdraws2 & Hreviews2 & Hrest & Hframe2 & Hnew2)%IH;
      [|exact Huniq1].
    exists (id :: new). split; [now rewrite <- app_assoc|].
    split; [exact Huniq2|]. split; [congruence|]. split; [congruence|].
    apply Forall2_cons_1 in Hfirst as [(run1 & Hrun1 & Hkey1 & Hpicks1 & Hold1) _].
    split; [|split].
    + constructor.
      * destruct (decide (strategy ∈ rest)) as [Hin|Hout].
        -- destruct (proj1 (list_elem_of_lookup _ _) Hin) as [i Hi].
           destruct (Forall2_lookup_l _ _ _ _ _ Hrest Hi)
             as (id2 & _ & run2 & Hrun2 & Hkey2 & Hpicks2 & Hold2).
           destruct (Hold2 _ _ Hrun1 Hkey1) as [-> Hpending].
           exists run2. split; [exact Hrun2|]. split; [exact Hkey2|].
           split; [exact Hpicks2|].
           intros id0 old Hold Hk. destruct (Hold1 _ _ Hold Hk) as [-> _]. auto.
        -- destruct (Hframe2 _ _ Hrun1) as [Hkeep Hsame].
           { intros other Hother Hk. apply Hout.
             assert (other = strategy) as ->; [|exact Hother].
             rewrite Hkey1 in Hk. injection Hk as Hk _.
             destruct strategy, other; cbn in Hk; congruence. }
           exists run1. split; [exact Hkeep|]. split; [exact Hkey1|].
           split; [now rewrite Hsame|exact Hold1].
      * eapply Forall2_impl; [exact Hrest|].
        intros other id2 (run2 & Hrun2 & Hkey2 & Hpicks2 & Hold2).
        exists run2. split; [exact Hrun2|]. split; [exact Hkey2|].
        split; [exact Hpicks2|].
        intros id0 old Hold Hk.
        destruct (Hstable _ _ Hold) as (mid & Hmid & Hkmid).
        apply (Hold2 _ _ Hmid). congruence.
    + intros id0 run Hrun Hother.
      destruct (Hframe1 _ _ Hrun) as [Hkeep1 Hsame1].
      { intros other ->%list_elem_of_singleton. apply Hother. now left. }
      destruct (Hframe2 _ _ Hkeep1) as [Hkeep2 Hsame2].
      { intros other Hin. apply Hother. now right. }
      split; [exact Hkeep2|congruence].
    + intros id0 Hid. destruct (Hnew2 _ Hid) as [Hmid|Hin].
      * destruct (Hnew1 _ Hmid) as [Hold|Hin]; [now left|].
        apply list_elem_of_singleton in Hin as ->. right. now left.
      * right. now right.
Qed.

Lemma strategyKey_inj issueNo a b :
  strategyKey issueNo a = strategyKey issueNo b -> a = b.
Proof. intros [= Hk]. destruct a, b; cbn in Hk; congruence. Qed.

Lemma allStrategies_NoDup : NoDup Strategies.allStrategies.
Proof. apply (bool_decide_unpack _). vm_compute. exact I. Qed.

Lemma generatedRuns_distinct before db draws issueNo strategyList ids :
  NoDup strategyList ->
  generatedRuns before db draws issueNo strategyList ids -> NoDup ids.
Proof.
  intros Hnd (_ & _ & _ & Hall & _). revert Hnd.
  induction Hall as [|strategy id rest ids Hrun Hall IH]; [constructor|].
  intros [Hout Hnd]%NoDup_cons. constructor; [|now apply IH].
  intros [i Hi]%list_elem_of_lookup.
  destruct (Forall2_lookup_r _ _ _ _ _ Hall Hi)
    as (other & Hother & run2 & Hrun2 & Hkey2 & _).
  destruct Hrun as (run1 & Hrun1 & Hkey1 & _).
  apply Hout. rewrite Hrun1 in Hrun2. injection Hrun2 as ->.
  rewrite Hkey1 in Hkey2. apply strategyKey_inj in Hkey2 as ->.
  now apply list_elem_of_lookup_2 in Hother.
Qed.

Section IssueGeneration.
Variable recentDraws : Db -> list Draw.

(** X13: with fewer than 20 recent draws [generatePredictionsForIssue]
    throws before it writes anything; otherwise it returns one run id per
    strategy of the list, in order, and leaves, for each of them, one run
    under the key of the issue and the strategy holding exactly the picks
    computed from the recent draws, a run that was there under that key
    being reset to pending; the key stays unique, runs of other keys keep
    their row and their picks, no other run appears, and draws and reviews
    are untouched. *)
Theorem generatePredictionsForIssue_upserts_runs
    (db : Db) (issueNo : string) (strategyIds : option (list StrategyId)) :
  uniqueRuns (db_runs db) ->
  ((length (recentDraws db) < 20)%nat ->
   Prediction.generatePredictionsForIssue recentDraws now newRunId
     columnDefaults db issueNo strategyIds
   = Throw "Not enough history to generate predictions")
  /\ ((20 <= length (recentDraws db))%nat ->
      exists stored ids,
        Prediction.generatePredictionsForIssue recentDraws now newRunId
          columnDefaults db issueNo strategyIds = Ok (stored, ids)
        /\ generatedRuns db stored (recentDraws db) issueNo
             (default Strategies.allStrategies strategyIds) ids).
Proof.
  intros Huniq. unfold Prediction.generatePredictionsForIssue. split.
  - intros Hshort. apply Nat.ltb_lt in Hshort. now rewrite Hshort.
  - intros Hlong. apply Nat.ltb_ge in Hlong. rewrite Hlong.
    destruct (Prediction.generateRuns _ _ _ _ _ _ _ _ _) as [stored ids] eqn:Hrun.
    apply generateRuns_spec in Hrun as (new & -> & Hgen); [|exact Huniq].
    exists stored, new. split; [reflexivity|exact Hgen].
Qed.

Context `{Host}.
Variable latestDraw : Db -> option Draw.

(** X14: [generatePredictionsForNextIssue] throws when there is no draw;
    otherwise it generates, for the issue id that follows the latest draw's,
    the runs of the four strategies, under four distinct run ids, and
    returns that issue id. *)
Theorem generatePredictionsForNextIssue_targets_successor (db : Db) :
  uniqueRuns (db_runs db) ->
  match latestDraw db with
  | None =>
      Prediction.generatePredictionsForNextIssue recentDraws latestDraw now
        newRunId columnDefaults db
      = Throw "No draw history available"
  | Some latest =>
      let targetIssue := PredictionIssue.nextIssueNo (issueNo latest) in
      ((length (recentDraws db) < 20)%nat ->
       Prediction.generatePredictionsForNextIssue recentDraws latestDraw now
         newRunId columnDefaults db
       = Throw "Not enough history to generate predictions")
      /\ ((20 <= length (recentDraws db))%nat ->
          exists stored ids,
            Prediction.generatePredictionsForNextIssue recentDraws latestDraw
              now newRunId columnDefaults db = Ok (stored, targetIssue)
            /\ generatedRuns db stored (recentDraws db) targetIssue
                 Strategies.allStrategies ids
            /\ length ids = 4%nat /\ NoDup ids)
  end.
Proof.
  intros Huniq. unfold Prediction.generatePredictionsForNextIssue.
  destruct (latestDraw db) as [latest|]; [|reflexivity].
  unfold Prediction.generatePredictionsForIssue. split.
  - intros Hshort. apply Nat.ltb_lt in Hshort. now rewrite Hshort.
  - intros Hlong. apply Nat.ltb_ge in Hlong. rewrite Hlong.
    cbn [mbind result_bind default from_option id].
    destruct (Prediction.generateRuns _ _ _ _ _ _ _ _ _) as [stored ids] eqn:Hrun.
    apply generateRuns_spec in Hrun as (new & -> & Hgen); [|exact Huniq].
    exists stored, new. split; [reflexivity|]. split; [exact Hgen|]. split.
    + destruct Hgen as (_ & _ & _ & Hall & _).
      now rewrite <- (Forall2_length _ _ _ Hall).
    + apply (generatedRuns_distinct _ _ _ _ _ _ allStrategies_NoDup Hgen).
Qed.
End IssueGeneration.
End GenerateFacts.

Lemma unusedId_fresh (runs : gmap Z PredictionRun) : runs !! unusedId runs = None.
Proof.
  apply (not_elem_of_dom (D := gset Z)). unfold unusedId.
  exact (is_fresh (dom runs)).
Qed.

Lemma no_runs_unique : uniqueRuns (db_runs exampleStore).
Proof.
  intros id1 id2 run1 run2 Hrun. cbn [exampleStore db_runs] in Hrun.
  now rewrite lookup_empty in Hrun.
Qed.

Lemma generatePredictionsForIssue_upserts_runs_witness :
  exists stored ids,
    Prediction.generatePredictionsForIssue (fun _ => exampleHistory)
      (fun _ => 0) unusedId (fun _ => exampleDefaults) exampleStore "08/002"
      (Some [hot_v1]) = Ok (stored, ids)
    /\ generatedRuns exampleStore stored exampleHistory "08/002"
         (default Strategies.allStrategies (Some [hot_v1])) ids.
Proof.
  apply (generatePredictionsForIssue_upserts_runs (fun _ => 0) unusedId
           (fun _ => exampleDefaults) unusedId_fresh (fun _ => exampleHistory)
           exampleStore "08/002" (Some [hot_v1]) no_runs_unique).
  cbn. lia.
Defined.

Lemma generatePredictionsForNextIssue_targets_successor_witness :
  ((length exampleHistory < 20)%nat ->
   Prediction.generatePredictionsForNextIssue (H := exampleHost)
     (fun _ => exampleHistory) (fun _ => Some (exampleDraw "08/001" 0))
     (fun _ => 0) unusedId (fun _ => exampleDefaults) exampleStore
   = Throw "Not enough history to generate predictions")
  /\ ((20 <= length exampleHistory)%nat ->
      exists stored ids,
        Prediction.generatePredictionsForNextIssue (H := exampleHost)
          (fun _ => exampleHistory) (fun _ => Some (exampleDraw "08/001" 0))
          (fun _ => 0) unusedId (fun _ => exampleDefaults) exampleStore
        = Ok (stored, "08/002")
        /\ generatedRuns exampleStore stored exampleHistory "08/002"
             Strategies.allStrategies ids
        /\ length ids = 4%nat /\ NoDup ids).
Proof.
  apply (generatePredictionsForNextIssue_targets_successor (fun _ => 0) unusedId
           (fun _ => exampleDefaults) unusedId_fresh (fun _ => exampleHistory)
           (H := exampleHost) (fun _ => Some (exampleDraw "08/001" 0))
           exampleStore no_runs_unique).
Defined.

(** ** The guard of the sync job *)

Lemma allSpaces_app a b : allSpaces (a +:+ b) = allSpaces a && allSpaces b.
Proof.
  induction a as [|c r IH]; [reflexivity|].
  rewrite string_app_cons. cbn [allSpaces]. now rewrite IH, andb_assoc.
Qed.

Lemma trimStart_spaces a s : allSpaces a = true -> trimStart (a +:+ s) = trimStart s.
Proof.
  induction a as [|c r IH]; [reflexivity|].
  cbn [allSpaces]. intros [Hc Hr]%andb_prop.
  rewrite string_app_cons. cbn [trimStart]. rewrite Hc. now apply IH.
Qed.

Lemma trimEnd_spaces s b : allSpaces b = true -> trimEnd (s +:+ b) = trimEnd s.
Proof.
  intros Hb. induction s as [|c r IH].
  - rewrite string_app_nil. destruct b as [|c b]; [reflexivity|].
    cbn [trimEnd]. now rewrite Hb.
  - rewrite string_app_cons. cbn [trimEnd allSpaces].
    rewrite allSpaces_app, Hb, andb_true_r, IH. reflexivity.
Qed.

Lemma trimStart_app_solid s t :
  trimStart s = s -> s <> "" -> trimStart (s +:+ t) = s +:+ t.
Proof.
  destruct s as [|c r]; [congruence|]. intros Hs _.
  rewrite string_app_cons. cbn [trimStart] in *.
  destruct (isSpace c); [|reflexivity].
  exfalso. assert (String.length (trimStart r) <= String.length r)%nat as Hlen.
  { clear. induction r as [|c r IH]; cbn; [lia|]. destruct (isSpace c); cbn; lia. }
  rewrite Hs in Hlen. cbn in Hlen. lia.
Qed.

(** The text of a token padded with white space is the token. *)
Lemma trim_padded a s b :
  allSpaces a = true -> allSpaces b = true -> trim s = s -> s <> "" ->
  trim (a +:+ s +:+ b) = s.
Proof.
  intros Ha Hb Hs Hne. unfold trim in *.
  rewrite (trimStart_spaces a _ Ha).
  assert (trimStart s = s) as Hstart.
  { destruct s as [|c r]; [congruence|]. cbn [trimStart] in *.
    destruct (isSpace c) eqn:Hc; [|reflexivity].
    exfalso.
    assert (forall t, String.length (trimEnd t) <= String.length t)%nat as Hend.
    { clear. induction t as [|c r IH]; cbn [trimEnd]; [cbn; lia|].
      destruct (allSpaces _); cbn; lia. }
    assert (forall t, String.length (trimStart t) <= String.length t)%nat as Hst.
    { clear. induction t as [|c r IH]; cbn; [lia|]. destruct (isSpace c); cbn; lia. }
    pose proof (Hend (trimStart r)) as H1. pose proof (Hst r) as H2.
    rewrite Hs in H1. cbn in H1. lia. }
  rewrite (trimStart_app_solid s b Hstart Hne), (trimEnd_spaces s b Hb).
  now rewrite Hstart in Hs.
Qed.

Lemma trimStart_shorter s : (String.length (trimStart s) <= String.length s)%nat.
Proof. induction s as [|c r IH]; cbn; [lia|]. destruct (isSpace c); cbn; lia. Qed.

Lemma trimStart_fixed c r : trimStart (String c r) = String c r -> isSpace c = false.
Proof.
  cbn [trimStart]. destruct (isSpace c); [|reflexivity]. intros Heq.
  pose proof (trimStart_shorter r) as Hlen. rewrite Heq in Hlen. cbn in Hlen. lia.
Qed.

Lemma trimStart_idem s : trimStart (trimStart s) = trimStart s.
Proof.
  induction s as [|c r IH]; [reflexivity|]. cbn [trimStart].
  destruct (isSpace c) eqn:Hc; [exact IH|]. cbn [trimStart]. now rewrite Hc.
Qed.

Lemma allSpaces_trimEnd s : allSpaces s = false -> allSpaces (trimEnd s) = false.
Proof.
  induction s as [|c r IH]; [discriminate|]. intros Hs.
  cbn [trimEnd]. rewrite Hs. cbn [allSpaces] in *.
  destruct (isSpace c); [|reflexivity]. cbn [andb] in *. now apply IH.
Qed.

Lemma trimEnd_idem s : trimEnd (trimEnd s) = trimEnd s.
Proof.
  induction s as [|c r IH]; [reflexivity|]. cbn [trimEnd].
  destruct (allSpaces (String c r)) eqn:Hs; [reflexivity|].
  cbn [trimEnd]. rewrite IH.
  assert (allSpaces (String c (trimEnd r)) = false) as ->; [|reflexivity].
  cbn [allSpaces] in *. destruct (isSpace c); [|reflexivity].
  cbn [andb] in *. now apply allSpaces_trimEnd.
Qed.

(** Trimming twice is trimming once. *)
Lemma trim_idem s : trim (trim s) = trim s.
Proof.
  unfold trim. pose proof (trimStart_idem s) as Hfixed.
  destruct (trimStart s) as [|c r]; [reflexivity|].
  apply trimStart_fixed in Hfixed.
  assert (trimStart (trimEnd (String c r)) = trimEnd (String c r)) as ->.
  { cbn [trimEnd allSpaces]. rewrite Hfixed. cbn [andb trimStart].
    now rewrite Hfixed. }
  apply trimEnd_idem.
Qed.

Lemma toLowerCase_app a b : toLowerCase (a +:+ b) = toLowerCase a +:+ toLowerCase b.
Proof.
  induction a as [|c r IH]; [reflexivity|].
  rewrite string_app_cons. cbn [toLowerCase]. now rewrite IH.
Qed.

Lemma toLowerCase_length s : String.length (toLowerCase s) = String.length s.
Proof. induction s as [|c r IH]; cbn; congruence. Qed.

Lemma startsWith_app p s : SyncJob.startsWith (p +:+ s) p = true.
Proof.
  induction p as [|c r IH]; [reflexivity|].
  rewrite string_app_cons. cbn [SyncJob.startsWith].
  now rewrite Ascii.eqb_refl, IH.
Qed.

Lemma slice_app p s : SyncJob.slice (String.length p) (p +:+ s) = s.
Proof. induction p as [|c r IH]; [reflexivity|exact IH]. Qed.

Section GuardFacts.
Variable env : string -> option string.
Variable header : string -> option string.

(** X15: the sync job is open to every request when no secret is set (or
    an empty one); with a secret it admits a request whose x-cron-secret
    header is the secret, or whose authorization header is the word bearer
    in any letter case, a space, and the secret with white space around it;
    it refuses a request with neither header; and a secret that itself has
    white space around it can only be presented in x-cron-secret. *)
Theorem authorized_guard :
  (env "CRON_SECRET" = None \/ env "CRON_SECRET" = Some "" ->
   SyncJob.authorized env header = true)
  /\ forall secret,
       env "CRON_SECRET" = Some secret -> secret <> "" ->
       (header "x-cron-secret" = Some secret ->
        SyncJob.authorized env header = true)
       /\ (forall scheme a b,
             toLowerCase scheme = "bearer " ->
             allSpaces a = true -> allSpaces b = true -> trim secret = secret ->
             header "authorization" = Some (scheme +:+ a +:+ secret +:+ b) ->
             SyncJob.authorized env header = true)
       /\ (header "x-cron-secret" = None -> header "authorization" = None ->
           SyncJob.authorized env header = false)
       /\ (trim secret <> secret -> header "x-cron-secret" <> Some secret ->
           SyncJob.authorized env header = false).
Proof.
  unfold SyncJob.authorized. split.
  - intros [->| ->]; reflexivity.
  - intros secret -> Hne. apply String.eqb_neq in Hne as Hempty. rewrite Hempty.
    split; [|split; [|split]].
    + intros ->. cbn [default from_option id]. now rewrite String.eqb_refl.
    + intros scheme a b Hscheme Ha Hb Htrim ->.
      destruct (String.eqb _ secret); [reflexivity|].
      cbn [default from_option id]. rewrite toLowerCase_app, Hscheme.
      rewrite (startsWith_app "bearer ").
      assert (String.length scheme = 7%nat) as Hlen
        by now rewrite <- toLowerCase_length, Hscheme.
      change 7%nat with (String.length "bearer ") at 1.
      change (String.length "bearer ") with 7%nat. rewrite <- Hlen, slice_app.
      rewrite (trim_padded a secret b Ha Hb Htrim Hne). apply String.eqb_refl.
    + intros -> ->. cbn [default from_option id].
      rewrite String.eqb_sym, Hempty. reflexivity.
    + intros Htrim Htoken.
      assert (String.eqb (default "" (header "x-cron-secret")) secret = false)
        as ->.
      { apply String.eqb_neq. destruct (header "x-cron-secret") as [token|];
          cbn [default from_option id]; congruence. }
      destruct (SyncJob.startsWith _ _); [|reflexivity].
      apply String.eqb_neq. intros Heq. apply Htrim.
      rewrite <- Heq. apply trim_idem.
Qed.
End GuardFacts.

Lemma authorized_guard_witness :
  SyncJob.authorized (fun _ => Some "s3cret") (bearerRequest "BEARER   s3cret ")
  = true.
Proof.
  assert ("s3cret" <> "") as Hset by discriminate.
  apply (proj1 (proj2 (proj2 (authorized_guard (fun _ => Some "s3cret")
                                (bearerRequest "BEARER   s3cret "))
                             "s3cret" eq_refl Hset))
           "BEARER " "  " " "); reflexivity.
Defined.
